(** * gdownload: a shallow embedding of the attachment downloader and of its
    build-time byte-literal generator, with the properties of its
    specification.

    Go strings are byte sequences and are embedded as [string] (a list of
    8-bit [ascii] characters); a [[]byte] is a [list ascii].  Go's [int] is
    the 64-bit integer of the usual targets and is embedded as [Z] with the
    wrap-around written out. *)

From Stdlib Require Import ZArith Ascii String DecimalString DecimalN DecimalPos DecimalFacts.
From stdpp Require Import gmap strings list fin_maps.

Local Open Scope Z_scope.
Local Arguments String.append !_ _ : simpl nomatch.

(** The three ways a Go function of this program ends: it returns, it calls
    [log.Fatalf] (the process exits), or, in the model only, the fuel that
    bounds its recursion ran out. *)
Inductive outcome (A : Type) : Type :=
| Done (a : A)
| Fatal (msg : string)
| OutOfFuel.
Arguments Done {A} a.
Arguments Fatal {A} msg.
Arguments OutOfFuel {A}.

(** ** Characters and strings *)

Definition LF : ascii := ascii_of_nat 10.
Definition QUOTE : ascii := ascii_of_nat 34.

Definition is_digit (c : ascii) : bool :=
  (48 <=? Z.of_N (N_of_ascii c)) && (Z.of_N (N_of_ascii c) <=? 57).

Definition is_char (a c : ascii) : bool := Ascii.eqb a c.
Definition not_char (a c : ascii) : bool := negb (Ascii.eqb a c).

Fixpoint all_chars (p : ascii -> bool) (s : string) : bool :=
  match s with
  | EmptyString => true
  | String c t => p c && all_chars p t
  end.

(** ** strconv: decimal printing and parsing of [int] *)

Definition maxInt : Z := 2 ^ 63 - 1.
Definition minInt : Z := - 2 ^ 63.

(** Go's [int] addition wraps around in two's complement. *)
Definition wrap (z : Z) : Z := (z + 2 ^ 63) mod 2 ^ 64 - 2 ^ 63.
Definition int_add (a b : Z) : Z := wrap (a + b).

(** [fmt.Sprintf("%v", i)] for an [int]: the decimal numeral, with a minus
    sign for a negative value. *)
Definition itoa (z : Z) : string :=
  match z with
  | Z0 => "0"
  | Zpos p => NilEmpty.string_of_uint (Pos.to_uint p)
  | Zneg p => String "-" (NilEmpty.string_of_uint (Pos.to_uint p))
  end.

(** The value of a non-empty string of decimal digits ([None] for anything
    else). *)
Definition digits_value (s : string) : option Z :=
  match s with
  | EmptyString => None
  | _ => if all_chars is_digit s
         then option_map (fun d => Z.of_N (N.of_uint d)) (NilEmpty.uint_of_string s)
         else None
  end.

(** [strconv.Atoi]: an optional sign, then decimal digits; an error ([None])
    on a syntax error and on a value outside the range of [int]. *)
Definition Atoi (s : string) : option Z :=
  match s with
  | String "-" t =>
      match digits_value t with
      | Some n => if n <=? 2 ^ 63 then Some (- n) else None
      | None => None
      end
  | String "+" t =>
      match digits_value t with
      | Some n => if n <=? maxInt then Some n else None
      | None => None
      end
  | _ =>
      match digits_value s with
      | Some n => if n <=? maxInt then Some n else None
      | None => None
      end
  end.

(** ** regexp: a backtracking matcher with leftmost-first preference

    The fragment of Go's regular expressions the program uses: character
    classes, concatenation, the greedy option [x?], the greedy and the lazy
    star over a class, capturing groups and the end-of-text anchor.  The
    matcher is written in continuation-passing style: the continuation
    receives the text matched so far by the current node and the rest of the
    input, and alternatives are tried in the order of Go's (Perl's)
    preference. *)
Inductive regex : Type :=
| Eps
| Class (p : ascii -> bool)
| Cat (r1 r2 : regex)
| Quest (r1 : regex)
| Star (greedy : bool) (p : ascii -> bool)
| Group (i : nat) (r1 : regex)
| EndText.

Definition captures : Type := nat -> string.
Definition no_captures : captures := fun _ => "".
Definition set_capture (i : nat) (t : string) (g : captures) : captures :=
  fun j => if Nat.eqb i j then t else g j.

Definition orelse {A} (x y : option A) : option A :=
  match x with
  | Some a => Some a
  | None => y
  end.

Fixpoint star {R} (greedy : bool) (p : ascii -> bool) (s : string)
    (k : string -> string -> option R) : option R :=
  match s with
  | EmptyString => k "" ""
  | String c t =>
      if p c then
        if greedy
        then orelse (star greedy p t (fun m rest => k (String c m) rest)) (k "" s)
        else orelse (k "" s) (star greedy p t (fun m rest => k (String c m) rest))
      else k "" s
  end.

Fixpoint run (re : regex) (s : string) (g : captures)
    (k : string -> string -> captures -> option captures) : option captures :=
  match re with
  | Eps => k "" s g
  | Class p =>
      match s with
      | String c t => if p c then k (String c "") t g else None
      | EmptyString => None
      end
  | Cat r1 r2 =>
      run r1 s g (fun m1 s1 g1 =>
        run r2 s1 g1 (fun m2 s2 g2 => k (m1 +:+ m2) s2 g2))
  | Quest r1 => orelse (run r1 s g k) (k "" s g)
  | Star greedy p => star greedy p s (fun m rest => k m rest g)
  | Group i r1 => run r1 s g (fun m rest g1 => k m rest (set_capture i m g1))
  | EndText =>
      match s with
      | EmptyString => k "" "" g
      | String _ _ => None
      end
  end.

(** [re.FindStringSubmatch(s)] for an expression that starts with [^] and has
    [n] groups: the match is tried at offset 0 only; the result is the whole
    match followed by the text of each group, the empty string for a group
    that took no part in the match; [None] is Go's [nil]. *)
Definition FindStringSubmatch (re : regex) (n : nat) (s : string) : option (list string) :=
  match run re s no_captures (fun m _ g => Some (set_capture 0 m g)) with
  | Some g => Some (map g (seq 0 (S n)))
  | None => None
  end.

(** The program's expression, written here with a blank between its parts:
    ^  ( . *? )  (?: \(  ( [0-9]+ )  \) )?  ( \.  [^\.] * )?  $
    The dot is any character but a line feed, a negated class does match a
    line feed, and the dollar is the end of the text (no flag is set). *)
Definition re_stem : regex := Group 1 (Star false (not_char LF)).
Definition re_paren : regex :=
  Quest (Cat (Class (is_char "("))
        (Cat (Group 2 (Cat (Class is_digit) (Star true is_digit)))
             (Class (is_char ")")))).
Definition re_ext : regex :=
  Quest (Group 3 (Cat (Class (is_char ".")) (Star true (not_char ".")))).

Definition r : regex := Cat re_stem (Cat re_paren (Cat re_ext EndText)).

(** ** The filename disambiguator *)

(** [fmt.Sprintf("%s(%v)%s", stem, i, ext)]. *)
Definition Sprintf_name (stem : string) (i : Z) (ext : string) : string :=
  stem +:+ "(" +:+ itoa i +:+ ")" +:+ ext.

Definition nth_string (l : list string) (i : nat) : string := nth i l "".

(** [getUniqeFilename(path, file)] in a directory that answers by what it
    holds.  The directory [path] is seen through [os.Stat] only: [D] is
    the set of the names [f] for which [os.Stat(filepath.Join(path, f))]
    does not answer that the file does not exist, and here it is a finite
    set.  The function with the answers of [os.Stat] as a system gives
    them, for each path, is [Sys.getUniqeFilename] below; it makes the
    calls of this one as long as [os.Stat] answers by the set
    ([Sys_getUniqeFilename_listed]). *)
Fixpoint getUniqeFilename (fuel : nat) (D : gset string) (file : string) : outcome string :=
  match fuel with
  | O => OutOfFuel
  | S fuel' =>
      if bool_decide (file ∈ D) then
        match FindStringSubmatch r 3 file with
        | None => Fatal "Unexpected number of matches in file name regular expression"
        | Some matches =>
            if negb (Nat.eqb (length matches) 4)
            then Fatal "Unexpected number of matches in file name regular expression"
            else
              let next (i : Z) :=
                getUniqeFilename fuel' D
                  (Sprintf_name (nth_string matches 1) (int_add i 1) (nth_string matches 3)) in
              if String.eqb (nth_string matches 2) ""
              then next 0
              else match Atoi (nth_string matches 2) with
                   | None => Fatal "Unexpected result of ([0-9]) match in file name regular expression"
                   | Some i => next i
                   end
        end
      else Done file
  end.


(** ** encoding/base64: [URLEncoding.DecodeString]

    The padded encoding over the URL-safe alphabet, decoded the way Go's
    decoder does it: line feeds and carriage returns are skipped, every four
    characters give three bytes, the padding character may only close the
    last group, and the unused bits of a padded group are not checked. *)

Definition CR : ascii := ascii_of_nat 13.
Definition PAD : ascii := "=".

Definition byte_of_Z (z : Z) : ascii := ascii_of_N (Z.to_N (z mod 256)).
Definition Z_of_byte (c : ascii) : Z := Z.of_N (N_of_ascii c).

(** The decode map of the alphabet [A-Z a-z 0-9 - _]. *)
Definition decodeMap (c : ascii) : option Z :=
  let n := Z_of_byte c in
  if (65 <=? n) && (n <=? 90) then Some (n - 65)
  else if (97 <=? n) && (n <=? 122) then Some (n - 97 + 26)
  else if (48 <=? n) && (n <=? 57) then Some (n - 48 + 52)
  else if n =? 45 then Some 62
  else if n =? 95 then Some 63
  else None.

Definition is_newline (c : ascii) : bool := Ascii.eqb c LF || Ascii.eqb c CR.

(** The value of a group of up to four sextets, as the decoder packs it. *)
Definition quantum_val (q : list Z) : Z :=
  Z.lor (Z.lor (Z.lor (Z.shiftl (nth 0 q 0) 18) (Z.shiftl (nth 1 q 0) 12))
               (Z.shiftl (nth 2 q 0) 6))
        (nth 3 q 0).

(** The first [n] bytes of a group. *)
Definition quantum_bytes (q : list Z) (n : nat) : list ascii :=
  take n [byte_of_Z (Z.shiftr (quantum_val q) 16);
          byte_of_Z (Z.shiftr (quantum_val q) 8);
          byte_of_Z (quantum_val q)].

Fixpoint skip_newlines (s : string) : string :=
  match s with
  | String c t => if is_newline c then skip_newlines t else s
  | EmptyString => ""
  end.

Fixpoint decode_from (src : string) (q : list Z) : option (list ascii) :=
  match src with
  | EmptyString =>
      match q with
      | [] => Some []
      | _ => None
      end
  | String c t =>
      match decodeMap c with
      | Some v =>
          if Nat.eqb (length q) 3
          then option_map (app (quantum_bytes (q ++ [v]) 3)) (decode_from t [])
          else decode_from t (q ++ [v])
      | None =>
          if is_newline c then decode_from t q
          else if Ascii.eqb c PAD then
            match length q with
            | 2%nat =>
                match skip_newlines t with
                | String c' t' =>
                    if Ascii.eqb c' PAD then
                      match skip_newlines t' with
                      | EmptyString => Some (quantum_bytes q 1)
                      | String _ _ => None
                      end
                    else None
                | EmptyString => None
                end
            | 3%nat =>
                match skip_newlines t with
                | EmptyString => Some (quantum_bytes q 2)
                | String _ _ => None
                end
            | _ => None
            end
          else None
      end
  end.

Definition URLEncoding_DecodeString (s : string) : option (list ascii) :=
  decode_from s [].

(** ** The mailbox service and the output directory *)

(** [gmail.MessagePart], [gmail.Message]: the fields the walker reads. *)
Record MessagePart : Type := {
  Filename : string;
  AttachmentId : string
}.

Record Message : Type := {
  InternalDate : Z;
  Headers : list (string * string);
  Parts : list MessagePart
}.

(** [time.Time] as seconds and nanoseconds since the epoch. *)
Record time : Type := { sec : Z; nsec : Z }.
Definition time_Unix (s ns : Z) : time := {| sec := s; nsec := ns |}.

(** The calls on [*gmail.Service] (for the query of the run) and the wall
    clock.  [None] is a call that returns an error.  [Messages_List] takes
    the page token, empty for the first page, and gives the message ids of
    the page and the next page token. *)
Record Service : Type := {
  Messages_List : string -> option (list string * string);
  Messages_Get : string -> option Message;
  Attachments_Get : string -> string -> option string;
  Now : time
}.

(** A file of the output directory. *)
Record file : Type := { data : list ascii; atime : time; mtime : time }.

(** What the run does to the world around it, in order. *)
Inductive event : Type :=
| EvLog (line : string)
| EvWriteFile (name : string) (bytes : list ascii)
| EvChtimes (name : string) (a m : time).

(** The output directory, keyed by the file name joined to it, and the
    events so far.  The directory is a finite map, a disk without faults:
    every file name is a path of its own, [os.Stat] finds what is there,
    and a write succeeds.  The walker on a system that answers as it
    pleases is [Sys.gmailDownloadAttachments] below. *)
Record world : Type := { fs : gmap string file; trace : list event }.

(** [ioutil.WriteFile]: creates the file or truncates the one that is there. *)
Definition ioutil_WriteFile (now : time) (name : string) (bytes : list ascii)
    (d : gmap string file) : option (gmap string file) :=
  Some (<[name := {| data := bytes; atime := now; mtime := now |}]> d).

(** [os.Chtimes]: an error when there is no such file. *)
Definition os_Chtimes (name : string) (a m : time)
    (d : gmap string file) : option (gmap string file) :=
  match d !! name with
  | Some f => Some (<[name := {| data := data f; atime := a; mtime := m |}]> d)
  | None => None
  end.

(** A computation of the run: it changes the world and returns, or it ends
    the process ([log.Fatalf]) in the world reached so far. *)
Definition M (A : Type) : Type := world -> world * outcome A.

Definition ret {A} (a : A) : M A := fun w => (w, Done a).
Definition bind {A B} (m : M A) (k : A -> M B) : M B :=
  fun w =>
    match m w with
    | (w', Done a) => k a w'
    | (w', Fatal msg) => (w', Fatal msg)
    | (w', OutOfFuel) => (w', OutOfFuel)
    end.
Definition fatal {A} (msg : string) : M A := fun w => (w, Fatal msg).
Definition out_of_fuel {A} : M A := fun w => (w, OutOfFuel).
Definition emit (e : event) : M unit :=
  fun w => ({| fs := fs w; trace := trace w ++ [e] |}, Done tt).
Definition get_fs : M (gmap string file) := fun w => (w, Done (fs w)).
Definition put_fs (d : gmap string file) : M unit :=
  fun w => ({| fs := d; trace := trace w |}, Done tt).

#[global] Instance M_ret : MRet M := @ret.
#[global] Instance M_bind : MBind M := fun A B k m => bind m k.

(** An API call or a library call whose error ends the run. *)
Definition or_fatal {A} (x : option A) (msg : string) : M A :=
  match x with
  | Some a => ret a
  | None => fatal msg
  end.

Definition lift_outcome {A} (x : outcome A) : M A := fun w => (w, x).

(** The loop counters [totalMsg] and [totalAtt]. *)
Record totals : Type := { totalMsg : Z; totalAtt : Z }.

(** The first [Subject] header, empty when there is none. *)
Fixpoint subject_of (hs : list (string * string)) : string :=
  match hs with
  | [] => ""
  | (name, value) :: rest => if String.eqb name "Subject" then value else subject_of rest
  end.

(** The body of the loop over [msg.Payload.Parts]; [n] counts the
    attachments of the message.  The file name joined to the output
    directory is the key of the file in [fs]. *)
Definition download_part (svc : Service) (fuel : nat) (id : string) (msg : Message)
    (part : MessagePart) (st : totals * Z) : M (totals * Z) :=
  let '(tot, n) := st in
  if String.eqb (Filename part) "" then ret st
  else
    let tot := {| totalMsg := totalMsg tot; totalAtt := int_add (totalAtt tot) 1 |} in
    body ← or_fatal (Attachments_Get svc id (AttachmentId part))
                     "Error retrieving attachment with id" ;
    bytes ← or_fatal (URLEncoding_DecodeString body) "Error decoding attachment" ;
    d ← get_fs ;
    name ← lift_outcome (getUniqeFilename fuel (dom d) (Filename part)) ;
    d1 ← or_fatal (ioutil_WriteFile (Now svc) name bytes d) "Unable to write to file" ;
    put_fs d1 ;;
    emit (EvWriteFile name bytes) ;;
    let m := time_Unix (Z.quot (InternalDate msg) 1000) 0 in
    d2 ← or_fatal (os_Chtimes name (Now svc) m d1) "Cannot change timestamps of file" ;
    put_fs d2 ;;
    emit (EvChtimes name (Now svc) m) ;;
    emit (EvLog ("Message #" +:+ itoa (totalMsg tot) +:+ " attachment #" +:+ itoa n
                 +:+ ": " +:+ name)) ;;
    ret (tot, int_add n 1).

Fixpoint download_parts (svc : Service) (fuel : nat) (id : string) (msg : Message)
    (parts : list MessagePart) (st : totals * Z) : M (totals * Z) :=
  match parts with
  | [] => ret st
  | part :: rest =>
      st' ← download_part svc fuel id msg part st ;
      download_parts svc fuel id msg rest st'
  end.

(** The body of the loop over [r.Messages]. *)
Definition download_message (svc : Service) (fuel : nat) (id : string) (tot : totals) : M totals :=
  msg ← or_fatal (Messages_Get svc id) "Unable to retrieve message" ;
  let tot := {| totalMsg := int_add (totalMsg tot) 1; totalAtt := totalAtt tot |} in
  emit (EvLog ("Message #" +:+ itoa (totalMsg tot) +:+ ": " +:+ subject_of (Headers msg))) ;;
  st ← download_parts svc fuel id msg (Parts msg) (tot, 1) ;
  ret (fst st).

Fixpoint download_messages (svc : Service) (fuel : nat) (ids : list string) (tot : totals) : M totals :=
  match ids with
  | [] => ret tot
  | id :: rest =>
      tot' ← download_message svc fuel id tot ;
      download_messages svc fuel rest tot'
  end.

(** The loop over the pages, from the page token [pageToken]. *)
Fixpoint download_pages (svc : Service) (fuel : nat) (pageToken : string) (tot : totals) : M totals :=
  match fuel with
  | O => out_of_fuel
  | S fuel' =>
      page ← or_fatal (Messages_List svc pageToken) "Unable to retrieve messages" ;
      tot' ← download_messages svc fuel (fst page) tot ;
      if String.eqb (snd page) "" then ret tot'
      else download_pages svc fuel' (snd page) tot'
  end.

(** [gmailDownloadAttachments(svc, query, outDir)]. *)
Definition gmailDownloadAttachments (svc : Service) (fuel : nat) : M totals :=
  tot ← download_pages svc fuel "" {| totalMsg := 0; totalAtt := 0 |} ;
  emit (EvLog ("Downloaded " +:+ itoa (totalAtt tot) +:+ " attachments from "
               +:+ itoa (totalMsg tot) +:+ " messages")) ;;
  ret tot.



(** ** The token manager *)

(** [oauth2.Config]: the fields the program reads. *)
Record Config : Type := {
  ClientID : string;
  ClientSecret : string;
  Scopes : list string;
  RedirectURL : string
}.

(** [oauth2.Token], opaque here. *)
Record Token : Type := { AccessToken : string; RefreshToken : string; Expiry : time }.

(** What the process is given: [runtime.GOOS], the variable [HOME], the base
    name of [os.Args[0]], the flags [-cachetoken] and [-debug], and
    [filepath.Join] of the target system.  The texts that package fmt
    writes for a string under the verb [%q] and for the token under the
    verb [%#v] are not spelled out: they are given as well. *)
Record Env : Type := {
  GOOS : string;
  HOME : string;
  progName : string;
  cacheToken : bool;
  debug : bool;
  filepath_Join : list string -> string;
  Sprintf_q : string -> string;
  Sprintf_v : Token -> string
}.

(** [hash/fnv]: the 32-bit FNV-1a hash. *)
Definition offset32 : Z := 2166136261.
Definition prime32 : Z := 16777619.

Definition fnv_New32a : Z := offset32.
Definition fnv_byte (h : Z) (c : ascii) : Z :=
  (Z.lxor h (Z_of_byte c) * prime32) mod 2 ^ 32.
Definition fnv_Write (h : Z) (bytes : list ascii) : Z := fold_left fnv_byte bytes h.
Definition fnv_Sum32 (h : Z) : Z := h.

(** [[]byte(s)]. *)
Definition bytes_of (s : string) : list ascii := list_ascii_of_string s.

(** [strings.Join]. *)
Fixpoint strings_Join (l : list string) (sep : string) : string :=
  match l with
  | [] => ""
  | [s] => s
  | s :: rest => s +:+ sep +:+ strings_Join rest sep
  end.

(** [url.QueryEscape]: letters, digits and [- _ . ~] stay, a space becomes a
    plus sign, every other byte becomes a percent sign and two upper-case
    hexadecimal digits. *)
Definition upperhex (n : Z) : ascii :=
  if n <? 10 then byte_of_Z (48 + n) else byte_of_Z (65 + n - 10).

Definition is_alnum (c : ascii) : bool :=
  let n := Z_of_byte c in
  ((48 <=? n) && (n <=? 57)) || ((65 <=? n) && (n <=? 90)) || ((97 <=? n) && (n <=? 122)).

Definition is_unreserved (c : ascii) : bool :=
  is_alnum c || Ascii.eqb c "-" || Ascii.eqb c "_" || Ascii.eqb c "." || Ascii.eqb c "~".

Fixpoint url_QueryEscape (s : string) : string :=
  match s with
  | EmptyString => ""
  | String c t =>
      if is_unreserved c then String c (url_QueryEscape t)
      else if Ascii.eqb c " " then String "+" (url_QueryEscape t)
      else String "%" (String (upperhex (Z.shiftr (Z_of_byte c) 4))
                      (String (upperhex (Z.land (Z_of_byte c) 15)) (url_QueryEscape t)))
  end.

(** [osUserCacheDir()]: the directory it returns. *)
Definition osUserCacheDir (env : Env) : string :=
  if String.eqb (GOOS env) "darwin" then filepath_Join env [HOME env; "Library"; "Caches"]
  else if String.eqb (GOOS env) "linux" || String.eqb (GOOS env) "freebsd"
       then filepath_Join env [HOME env; ".cache"]
  else ".".

(** [osUserCacheDir()]: the line it logs on the systems it does not know. *)
Definition osUserCacheDir_logged (env : Env) : list string :=
  if String.eqb (GOOS env) "darwin" then []
  else if String.eqb (GOOS env) "linux" || String.eqb (GOOS env) "freebsd" then []
  else ["TODO: osUserCacheDir on GOOS " +:+ Sprintf_q env (GOOS env)].

(** The hash in [tokenCacheFile]: three writes, then [Sum32]. *)
Definition cache_hash (config : Config) : Z :=
  let hash := fnv_New32a in
  let hash := fnv_Write hash (bytes_of (ClientID config)) in
  let hash := fnv_Write hash (bytes_of (ClientSecret config)) in
  let hash := fnv_Write hash (bytes_of (strings_Join (Scopes config) " ")) in
  fnv_Sum32 hash.

(** [tokenCacheFile(config)]. *)
Definition tokenCacheFile (env : Env) (config : Config) : string :=
  let fn := progName env +:+ "-tok" +:+ itoa (cache_hash config) in
  filepath_Join env [osUserCacheDir env; url_QueryEscape fn].

(** What the file system answers to [saveToken]: the error of [os.Create]
    and the error of [Encode], [None] for success. *)
Record CacheIO : Type := {
  Create_error : option string;
  Encode_error : option string
}.

(** The log and the cache file after [saveToken]: [cached] is the token the
    file holds, [None] when the file was not created or the encoder
    failed. *)
Record saved : Type := { logged : list string; cached : option Token }.

(** [saveToken(file, token)].  The error that [Encode] returns is not
    looked at. *)
Definition saveToken (io : CacheIO) (file : string) (token : Token) : saved :=
  match Create_error io with
  | Some err =>
      {| logged := ["Warning: failed to cache oauth token: " +:+ err]; cached := None |}
  | None =>
      let written := match Encode_error io with
                     | None => Some token
                     | Some _ => None
                     end in
      {| logged := ["Saved oauth token for later use in file: " +:+ file]; cached := written |}
  end.

(** [tokenFromFile(file)]: [stored] is what opening and decoding the cache
    file gives, [None] for an error. *)
Definition tokenFromFile (env : Env) (stored : option Token) : option Token :=
  if cacheToken env then stored else None.

(** The lines logged before those of [s]. *)
Definition logged_after (lines : list string) (s : saved) : saved :=
  {| logged := lines ++ logged s; cached := cached s |}.

(** [newOAuthClient(ctx, config)]: [fromWeb] is what [tokenFromWeb] does when
    it is called.  The result is the token handed to [config.Client], with
    the lines logged and the state of the cache file.  The first call is
    the one of [tokenCacheFile], which calls [osUserCacheDir]. *)
Definition newOAuthClient (env : Env) (io : CacheIO) (config : Config)
    (stored : option Token) (fromWeb : outcome Token) : outcome Token * saved :=
  let cacheFile := tokenCacheFile env config in
  let before := osUserCacheDir_logged env in
  match tokenFromFile env stored with
  | None =>
      match fromWeb with
      | Done token =>
          if cacheToken env
          then (Done token, logged_after before (saveToken io cacheFile token))
          else (Done token, {| logged := before; cached := None |})
      | Fatal msg => (Fatal msg, {| logged := before; cached := None |})
      | OutOfFuel => (OutOfFuel, {| logged := before; cached := None |})
      end
  | Some token =>
      let line :=
        if debug env
        then "Using cached token " +:+ Sprintf_v env token +:+ " from " +:+ Sprintf_q env cacheFile
        else "Using cached token from " +:+ Sprintf_q env cacheFile in
      (Done token, {| logged := before ++ [line]; cached := stored |})
  end.

(** ** The authorization listener *)

(** [http.Request]: the path and the form values, in order. *)
Record Request : Type := {
  URL_Path : string;
  Form : list (string * string)
}.

(** [req.FormValue(key)]: the first value of the key, empty when absent. *)
Fixpoint FormValue_in (form : list (string * string)) (key : string) : string :=
  match form with
  | [] => ""
  | (k, v) :: rest => if String.eqb k key then v else FormValue_in rest key
  end.
Definition FormValue (req : Request) (key : string) : string :=
  FormValue_in (Form req) key.

(** What the handler does with one request: the status and the body of the
    response, the code sent on the channel [ch], and the lines logged. *)
Record handled : Type := {
  status : Z;
  body : string;
  sent : option string;
  handler_log : list string
}.

(** [http.Error(rw, text, code)] writes the text and a line feed. *)
Definition http_Error (text : string) (code : Z) (log : list string) : handled :=
  {| status := code; body := text +:+ String LF ""; sent := None; handler_log := log |}.

(** The handler of the test server in [tokenFromWeb]. *)
Definition handler (randState : string) (req : Request) : handled :=
  if String.eqb (URL_Path req) "/favicon.ico" then http_Error "" 404 []
  else if negb (String.eqb (FormValue req "state") randState)
       then http_Error "" 500 ["State doesn't match"]
  else
    let code := FormValue req "code" in
    if negb (String.eqb code "")
    then {| status := 200; body := "<h1>Success</h1>Authorized."; sent := Some code;
            handler_log := [] |}
    else http_Error "" 500 ["no code"].

(** [code := <-ch]: the caller receives the first code that a handler
    sends; [None] while it is still waiting after these requests. *)
Fixpoint received (randState : string) (reqs : list Request) : option string :=
  match reqs with
  | [] => None
  | req :: rest =>
      match sent (handler randState req) with
      | Some code => Some code
      | None => received randState rest
      end
  end.

(** ** gobin.go: the generator of byte literals *)

Module Gobin.

Inductive Format : Type := hexx | hex | dec | shexx | shex.

(** [Format.String()]. *)
Definition Format_String (f : Format) : string :=
  match f with
  | hexx => "hexx"
  | hex => "hex"
  | dec => "dec"
  | shexx => "shexx"
  | shex => "shex"
  end.

(** [Format.Set(name)]: the format of that name, or the error. *)
Definition Format_Set (name : string) : Format + string :=
  if String.eqb name "hexx" then inl hexx
  else if String.eqb name "hex" then inl hex
  else if String.eqb name "dec" then inl dec
  else if String.eqb name "shexx" then inl shexx
  else if String.eqb name "shex" then inl shex
  else inr "may be: hexx, hex, dec, shexx, or shex".

Definition BACKSLASH : ascii := ascii_of_nat 92.

Definition lowerhex (n : Z) : ascii :=
  if n <? 10 then byte_of_Z (48 + n) else byte_of_Z (97 + n - 10).

(** [%x] of one byte of a byte slice: always two digits. *)
Definition hex2 (b : ascii) : string :=
  String (lowerhex (Z.shiftr (Z_of_byte b) 4)) (String (lowerhex (Z.land (Z_of_byte b) 15)) "").

(** [%x] of a [uint8]: no leading zero. *)
Definition hex_min (b : ascii) : string :=
  if Z_of_byte b <? 16 then String (lowerhex (Z_of_byte b)) "" else hex2 b.

(** A Go slice of bytes: its elements and its capacity. *)
Record slice : Type := { elems : list ascii; capacity : Z }.

Definition len (s : slice) : Z := Z.of_nat (length (elems s)).

(** [buffer[from:to]], for [0 <= from <= to <= len]. *)
Definition subslice (s : slice) (from to : Z) : slice :=
  {| elems := take (Z.to_nat (to - from)) (drop (Z.to_nat from) (elems s));
     capacity := capacity s - from |}.

(** ** unicode/utf8 and strconv: [%+q] *)

Definition RuneError : Z := 65533.

Definition in_range (lo hi x : Z) : bool := (lo <=? x) && (x <=? hi).

Definition cont (x : Z) : Z := Z.land x 63.

(** [utf8.DecodeRune]: the rune at the head of the bytes and its width. *)
Definition DecodeRune (s : list Z) : Z * nat :=
  match s with
  | [] => (RuneError, 0%nat)
  | b0 :: t =>
      if b0 <? 128 then (b0, 1%nat)
      else if in_range 194 223 b0 then
        match t with
        | b1 :: _ =>
            if in_range 128 191 b1
            then (Z.lor (Z.shiftl (Z.land b0 31) 6) (cont b1), 2%nat)
            else (RuneError, 1%nat)
        | _ => (RuneError, 1%nat)
        end
      else if in_range 224 239 b0 then
        match t with
        | b1 :: b2 :: _ =>
            let lo := if b0 =? 224 then 160 else 128 in
            let hi := if b0 =? 237 then 159 else 191 in
            if in_range lo hi b1 && in_range 128 191 b2
            then (Z.lor (Z.lor (Z.shiftl (Z.land b0 15) 12) (Z.shiftl (cont b1) 6)) (cont b2),
                  3%nat)
            else (RuneError, 1%nat)
        | _ => (RuneError, 1%nat)
        end
      else if in_range 240 244 b0 then
        match t with
        | b1 :: b2 :: b3 :: _ =>
            let lo := if b0 =? 240 then 144 else 128 in
            let hi := if b0 =? 244 then 143 else 191 in
            if in_range lo hi b1 && in_range 128 191 b2 && in_range 128 191 b3
            then (Z.lor (Z.lor (Z.lor (Z.shiftl (Z.land b0 7) 18) (Z.shiftl (cont b1) 12))
                               (Z.shiftl (cont b2) 6)) (cont b3), 4%nat)
            else (RuneError, 1%nat)
        | _ => (RuneError, 1%nat)
        end
      else (RuneError, 1%nat)
  end.

Fixpoint hex_digits (n : nat) (x : Z) : string :=
  match n with
  | O => ""
  | S n' => String (lowerhex (Z.land (Z.shiftr x (4 * Z.of_nat n')) 15)) (hex_digits n' x)
  end.

(** [strconv.appendEscapedRune] for the quote character and ASCII only. *)
Definition escaped_rune (x : Z) : string :=
  if (x =? 34) || (x =? 92) then String BACKSLASH (String (byte_of_Z x) "")
  else if in_range 32 126 x then String (byte_of_Z x) ""
  else if x =? 7 then String BACKSLASH "a"
  else if x =? 8 then String BACKSLASH "b"
  else if x =? 12 then String BACKSLASH "f"
  else if x =? 10 then String BACKSLASH "n"
  else if x =? 13 then String BACKSLASH "r"
  else if x =? 9 then String BACKSLASH "t"
  else if x =? 11 then String BACKSLASH "v"
  else if (x <? 32) || (x =? 127) then String BACKSLASH (String "x" (hex_digits 2 x))
  else if x <? 65536 then String BACKSLASH (String "u" (hex_digits 4 x))
  else String BACKSLASH (String "U" (hex_digits 8 x)).

Fixpoint quote_body (fuel : nat) (s : list Z) : string :=
  match fuel, s with
  | S fuel', b0 :: _ =>
      let '(x, width) := if b0 <? 128 then (b0, 1%nat) else DecodeRune s in
      if Nat.eqb width 1 && (x =? RuneError)
      then String BACKSLASH (String "x" (hex_digits 2 b0)) +:+ quote_body fuel' (drop 1 s)
      else escaped_rune x +:+ quote_body fuel' (drop width s)
  | _, _ => ""
  end.

(** [strconv.AppendQuoteToASCII], which is [%+q] of a byte slice. *)
Definition QuoteToASCII (b : list ascii) : string :=
  String QUOTE (quote_body (length b) (map Z_of_byte b)) +:+ String QUOTE "".

(** ** The program *)

(** [getParents(format)]. *)
Definition getParents (format : Format) : string :=
  match format with
  | shexx | shex => "()"
  | hex | hexx | dec => "{}"
  end.

Definition TAB : ascii := ascii_of_nat 9.

(** [getGetLine(format)(buffer)]. *)
Definition getGetLine (format : Format) (buffer : slice) : string :=
  match format with
  | hexx =>
      String TAB (strings_Join (map (fun b => "0x" +:+ hex2 b) (elems buffer)) ", ") +:+ ","
  | hex =>
      String TAB (strings_Join (map (fun b => "0x" +:+ hex_min b) (elems buffer)) ", ") +:+ ","
  | dec =>
      String TAB (strings_Join (map (fun b => itoa (Z_of_byte b)) (elems buffer)) ", ") +:+ ","
  | shexx =>
      let delim := if len buffer =? capacity buffer then "," else "+" in
      String TAB (String QUOTE
        (strings_Join (map (fun b => String BACKSLASH (String "x" (hex2 b))) (elems buffer)) ""))
      +:+ String QUOTE "" +:+ delim
  | shex =>
      let delim := if len buffer =? capacity buffer then "," else "+" in
      String TAB (QuoteToASCII (elems buffer)) +:+ delim
  end.

Definition min (a b : Z) : Z := if a <? b then a else b.

Definition NL : string := String LF "".

(** The flags of the generator. *)
Record Flags : Type := {
  packageName : string;
  varName : string;
  format : Format;
  step : Z;
  initOnly : bool
}.

(** The loop of [main] over the chunks of the buffer, from index [i]:
    [fmt.Fprintln(w, indent, getLine(buffer[from:to]))] for each.  A slice
    expression out of range is a run-time panic, which ends the process. *)
Fixpoint lines (fuel : nat) (fl : Flags) (indent : string) (buffer : slice) (i : Z) : outcome string :=
  if i <? len buffer then
    match fuel with
    | O => OutOfFuel
    | S fuel' =>
        let from := i in
        let to := min (i + step fl) (len buffer) in
        if (from <? 0) || (to <? from) then Fatal "panic: slice bounds out of range"
        else
          match lines fuel' fl indent buffer (i + step fl) with
          | Done rest =>
              Done (indent +:+ " " +:+ getGetLine (format fl) (subslice buffer from to) +:+ NL
                    +:+ rest)
          | other => other
          end
    end
  else Done "".

(** The text before the literal, the literal, and the text after it. *)
Definition header (fl : Flags) : string :=
  "// Code generated by gobin.go DO NOT EDIT." +:+ NL +:+
  "package " +:+ packageName fl +:+ NL +:+
  NL +:+
  (if initOnly fl then "func init() {" +:+ NL else "var ") +:+
  (if initOnly fl then String TAB "" else "") +:+ varName fl +:+ " = ".

Definition literal (fl : Flags) (body : string) : string :=
  "[]byte" +:+ String (nth 0 (list_ascii_of_string (getParents (format fl))) " "%char) "" +:+ NL +:+
  body +:+
  (if initOnly fl then String TAB "" else "") +:+
  String (nth 1 (list_ascii_of_string (getParents (format fl))) " "%char) "".

Definition footer (fl : Flags) : string :=
  NL +:+ (if initOnly fl then "}" +:+ NL else "").

(** [main()], from the buffer that [read] returned: the text written. *)
Definition main (fuel : nat) (fl : Flags) (buffer : slice) : outcome string :=
  match lines fuel fl (if initOnly fl then String TAB "" else "") buffer 0 with
  | Done body => Done (header fl +:+ literal fl body +:+ footer fl)
  | Fatal msg => Fatal msg
  | OutOfFuel => OutOfFuel
  end.

(** ** Go's rules for the literal

    The value of an expression of one of the two forms the generator writes,
    by the rules of the Go language: a composite literal
    [[]byte{e, e, ...}] of integer literals with an optional closing comma, or
    a conversion [[]byte(s + s + ...)] of a sum of interpreted string
    literals, with an optional comma before the closing parenthesis.  A
    conversion takes exactly one operand.  A line break after a literal or
    a closing bracket ends the statement (a semicolon is inserted). *)

Inductive token : Type :=
| TLBrace | TRBrace | TLParen | TRParen | TComma | TPlus | TSemi
| TInt (n : Z)
| TStr (bytes : list ascii)
| TBad.

Definition hexval (c : ascii) : option Z :=
  let n := Z_of_byte c in
  if in_range 48 57 n then Some (n - 48)
  else if in_range 97 102 n then Some (n - 97 + 10)
  else if in_range 65 70 n then Some (n - 65 + 10)
  else None.

Definition decval (c : ascii) : option Z :=
  let n := Z_of_byte c in
  if in_range 48 57 n then Some (n - 48) else None.

(** The digits at the head of [s] in base [base]: their value, their
    number and the rest. *)
Fixpoint scan_digits (val : ascii -> option Z) (base : Z) (s : string) (acc : Z) (n : nat)
    : Z * nat * string :=
  match s with
  | String c t =>
      match val c with
      | Some v => scan_digits val base t (acc * base + v) (S n)
      | None => (acc, n, s)
      end
  | EmptyString => (acc, n, s)
  end.

(** [utf8.AppendRune] for a valid code point. *)
Definition encode_rune (x : Z) : list ascii :=
  if x <? 128 then [byte_of_Z x]
  else if x <? 2048 then
    [byte_of_Z (Z.lor 192 (Z.shiftr x 6)); byte_of_Z (Z.lor 128 (Z.land x 63))]
  else if x <? 65536 then
    [byte_of_Z (Z.lor 224 (Z.shiftr x 12));
     byte_of_Z (Z.lor 128 (Z.land (Z.shiftr x 6) 63));
     byte_of_Z (Z.lor 128 (Z.land x 63))]
  else
    [byte_of_Z (Z.lor 240 (Z.shiftr x 18));
     byte_of_Z (Z.lor 128 (Z.land (Z.shiftr x 12) 63));
     byte_of_Z (Z.lor 128 (Z.land (Z.shiftr x 6) 63));
     byte_of_Z (Z.lor 128 (Z.land x 63))].

Definition valid_rune (x : Z) : bool :=
  in_range 0 55295 x || in_range 57344 1114111 x.

(** Exactly [n] hexadecimal digits at the head of [s]. *)
Fixpoint scan_hex (n : nat) (s : string) (acc : Z) : option (Z * string) :=
  match n with
  | O => Some (acc, s)
  | S n' =>
      match s with
      | String c t =>
          match hexval c with
          | Some v => scan_hex n' t (acc * 16 + v)
          | None => None
          end
      | EmptyString => None
      end
  end.

(** The body of an interpreted string literal, after the opening quote:
    its bytes and the text after the closing quote. *)
Fixpoint scan_string (fuel : nat) (s : string) : option (list ascii * string) :=
  match fuel with
  | O => None
  | S fuel' =>
      match s with
      | EmptyString => None
      | String c t =>
          if Ascii.eqb c QUOTE then Some ([], t)
          else if Ascii.eqb c LF then None
          else if Ascii.eqb c BACKSLASH then
            match t with
            | String e t' =>
                let simple (b : Z) :=
                  option_map (fun x => (byte_of_Z b :: fst x, snd x)) (scan_string fuel' t') in
                if Ascii.eqb e "a" then simple 7
                else if Ascii.eqb e "b" then simple 8
                else if Ascii.eqb e "f" then simple 12
                else if Ascii.eqb e "n" then simple 10
                else if Ascii.eqb e "r" then simple 13
                else if Ascii.eqb e "t" then simple 9
                else if Ascii.eqb e "v" then simple 11
                else if Ascii.eqb e BACKSLASH then simple 92
                else if Ascii.eqb e QUOTE then simple 34
                else if Ascii.eqb e "x" then
                  match scan_hex 2 t' 0 with
                  | Some (v, t'') =>
                      option_map (fun x => (byte_of_Z v :: fst x, snd x)) (scan_string fuel' t'')
                  | None => None
                  end
                else if Ascii.eqb e "u" || Ascii.eqb e "U" then
                  match scan_hex (if Ascii.eqb e "u" then 4 else 8) t' 0 with
                  | Some (v, t'') =>
                      if valid_rune v
                      then option_map (fun x => (encode_rune v ++ fst x, snd x))
                                      (scan_string fuel' t'')
                      else None
                  | None => None
                  end
                else None
            | EmptyString => None
            end
          else option_map (fun x => (c :: fst x, snd x)) (scan_string fuel' t)
      end
  end.

(** The tokens of [s]; [ends] tells whether the last token may end a
    statement. *)
Fixpoint tokens (fuel : nat) (s : string) (ends : bool) : list token :=
  match fuel with
  | O => [TBad]
  | S fuel' =>
      match s with
      | EmptyString => []
      | String c t =>
          if Ascii.eqb c LF then (if ends then [TSemi] else []) ++ tokens fuel' t false
          else if Ascii.eqb c " " || Ascii.eqb c TAB || Ascii.eqb c CR then tokens fuel' t ends
          else if Ascii.eqb c "{" then TLBrace :: tokens fuel' t false
          else if Ascii.eqb c "}" then TRBrace :: tokens fuel' t true
          else if Ascii.eqb c "(" then TLParen :: tokens fuel' t false
          else if Ascii.eqb c ")" then TRParen :: tokens fuel' t true
          else if Ascii.eqb c "," then TComma :: tokens fuel' t false
          else if Ascii.eqb c "+" then TPlus :: tokens fuel' t false
          else if Ascii.eqb c QUOTE then
            match scan_string fuel' t with
            | Some (bytes, rest) =>
                TStr bytes :: tokens fuel' rest true
            | None => [TBad]
            end
          else if Ascii.eqb c "0" then
            match t with
            | String x t' =>
                if Ascii.eqb x "x" || Ascii.eqb x "X" then
                  let '(v, n, rest) := scan_digits hexval 16 t' 0 0 in
                  if Nat.eqb n 0 then [TBad]
                  else TInt v :: tokens fuel' rest true
                else if in_range 48 57 (Z_of_byte x) then [TBad]
                else TInt 0 :: tokens fuel' t true
            | EmptyString => [TInt 0]
            end
          else if in_range 49 57 (Z_of_byte c) then
            let '(v, n, rest) := scan_digits decval 10 s 0 0 in
            TInt v :: tokens fuel' rest true
          else [TBad]
      end
  end.

(** The elements of a composite literal, up to the closing brace. *)
Fixpoint elements_of (ts : list token) : option (list ascii) :=
  match ts with
  | [TRBrace] => Some []
  | TInt n :: TRBrace :: [] => if in_range 0 255 n then Some [byte_of_Z n] else None
  | TInt n :: TComma :: rest =>
      if in_range 0 255 n then option_map (cons (byte_of_Z n)) (elements_of rest) else None
  | _ => None
  end.

(** The operand of a conversion, up to the closing parenthesis. *)
Fixpoint operand_of (ts : list token) : option (list ascii) :=
  match ts with
  | TStr b :: TRParen :: [] => Some b
  | TStr b :: TComma :: TRParen :: [] => Some b
  | TStr b :: TPlus :: rest => option_map (app b) (operand_of rest)
  | _ => None
  end.

Fixpoint strip_prefix (p s : string) : option string :=
  match p, s with
  | EmptyString, _ => Some s
  | String a p', String b s' => if Ascii.eqb a b then strip_prefix p' s' else None
  | String _ _, EmptyString => None
  end.

(** The bytes that the expression [text] denotes, [None] when it is not a
    well-formed expression of one of the two forms. *)
Definition go_bytes (text : string) : option (list ascii) :=
  match strip_prefix "[]byte" text with
  | Some rest =>
      match tokens (S (String.length rest)) rest false with
      | TLBrace :: ts => elements_of ts
      | TLParen :: ts => operand_of ts
      | _ => None
      end
  | None => None
  end.

End Gobin.

(** ** encoding/base64: the encoder

    [URLEncoding.EncodeToString], the inverse direction, which the mail
    service applies to the body of an attachment: three bytes give four
    characters of the URL-safe alphabet, and the last group is padded. *)

Definition encodeURL : string :=
  "ABCDEFGHIJKLMNOPQRSTUVWXYZabcdefghijklmnopqrstuvwxyz0123456789-_".

(** The character of a sextet. *)
Definition encode_sextet (v : Z) : ascii :=
  nth (Z.to_nat (Z.land v 63)) (list_ascii_of_string encodeURL) PAD.

(** The value of a group of up to three bytes, as the encoder packs it. *)
Definition group_val (b0 b1 b2 : ascii) : Z :=
  Z.lor (Z.lor (Z.shiftl (Z_of_byte b0) 16) (Z.shiftl (Z_of_byte b1) 8)) (Z_of_byte b2).

Fixpoint URLEncoding_EncodeToString (src : list ascii) : string :=
  match src with
  | [] => ""
  | [b0] =>
      let val := Z.shiftl (Z_of_byte b0) 16 in
      String (encode_sextet (Z.shiftr val 18)) (String (encode_sextet (Z.shiftr val 12))
        (String PAD (String PAD "")))
  | [b0; b1] =>
      let val := Z.lor (Z.shiftl (Z_of_byte b0) 16) (Z.shiftl (Z_of_byte b1) 8) in
      String (encode_sextet (Z.shiftr val 18)) (String (encode_sextet (Z.shiftr val 12))
        (String (encode_sextet (Z.shiftr val 6)) (String PAD "")))
  | b0 :: b1 :: b2 :: rest =>
      let val := group_val b0 b1 b2 in
      String (encode_sextet (Z.shiftr val 18)) (String (encode_sextet (Z.shiftr val 12))
        (String (encode_sextet (Z.shiftr val 6)) (String (encode_sextet val)
          (URLEncoding_EncodeToString rest))))
  end.

(** ** The browser *)

(** The loop of [openURL]: [run bin url] tells whether
    [exec.Command(bin, url).Run()] returns without an error.  The result
    is the list of the commands that were run and whether one of them
    succeeded. *)
Fixpoint try_commands (run : string -> string -> bool) (try : list string) (url : string)
    : list string * bool :=
  match try with
  | [] => ([], false)
  | bin :: rest =>
      if run bin url then ([bin], true)
      else (bin :: fst (try_commands run rest url), snd (try_commands run rest url))
  end.

(** [openURL(url)]: the commands run and the lines logged. *)
Definition openURL (run : string -> string -> bool) (url : string) : list string * list string :=
  let '(ran, ok) := try_commands run ["xdg-open"; "google-chrome"; "open"] url in
  (ran, if ok then [] else ["Error opening URL in browser."]).

(** * Definitions for the properties *)

(** ** The pattern, unfolded

    What the matcher computes on the program's pattern, written as direct
    recursions on the name.  They are proved equal to the matcher below
    ([find_eq]); the properties of the pattern are proved on them. *)

(** The longest prefix of [s] in the class [p], and the rest. *)
Fixpoint span (p : ascii -> bool) (s : string) : string * string :=
  match s with
  | EmptyString => ("", "")
  | String c t => if p c then let '(a, b) := span p t in (String c a, b) else ("", s)
  end.

(** The optional extension up to the end of the text: a dot and no dot
    after it, or nothing. *)
Definition ext_match (s : string) : option string :=
  match s with
  | EmptyString => Some ""
  | String c t => if is_char "." c && all_chars (not_char ".") t then Some s else None
  end.

(** The parenthesised counter at the head of [s]: its digits and the rest. *)
Definition paren_match (s : string) : option (string * string) :=
  match s with
  | String c t =>
      if is_char "(" c then
        match span is_digit t with
        | (String d ds, String c' rest) =>
            if is_char ")" c' then Some (String d ds, rest) else None
        | _ => None
        end
      else None
  | EmptyString => None
  end.

(** What follows the stem: the optional counter, then the optional
    extension, up to the end; the counter is tried first. *)
Definition tail_match (s : string) : option (string * string) :=
  orelse
    match paren_match s with
    | Some (d, rest) => option_map (pair d) (ext_match rest)
    | None => None
    end
    (option_map (pair "") (ext_match s)).

(** The match of the pattern: the shortest stem without a line feed after
    which the tail matches; the result is stem, counter and extension. *)
Fixpoint find (s : string) : option (string * string * string) :=
  orelse (option_map (fun de => ("", fst de, snd de)) (tail_match s))
    match s with
    | String c t =>
        if not_char LF c
        then option_map (fun x => (String c (fst (fst x)), snd (fst x), snd x)) (find t)
        else None
    | EmptyString => None
    end.

(** The four strings that [FindStringSubmatch] reads from the captures. *)
Definition obs (g : captures) : list string := map g (seq 0 4).

(** The result of [FindStringSubmatch] for a match of [find]. *)
Definition report (s : string) (x : string * string * string) : list string :=
  [s; fst (fst x); snd (fst x); snd x].

(** The text of a counter in a name: nothing for no counter. *)
Definition paren (d : string) : string :=
  if String.eqb d "" then "" else "(" +:+ d +:+ ")".

(** The continuation of the matcher after the stem. *)
Definition tail_k (stem : string) (rest : string) : option captures :=
  run (Cat re_paren (Cat re_ext EndText)) rest (set_capture 1 stem no_captures)
    (fun m rest' g => Some (set_capture 0 (stem +:+ m) g)).

(** The shape of an extension: empty, or a dot with no dot after it. *)
Definition is_ext (s : string) : bool :=
  match s with
  | EmptyString => true
  | String c t => is_char "." c && all_chars (not_char ".") t
  end.

(** A match with its stem extended to the left. *)
Definition prepend (pre : string) (x : string * string * string) : string * string * string :=
  (pre +:+ fst (fst x), snd (fst x), snd x).

Definition length_Z (s : string) : Z := Z.of_nat (String.length s).

(** ** The disambiguator, one call at a time *)

(** The counter that the program reads from the second group: 0 when the
    group is empty, else what [Atoi] gives. *)
Definition counter_of (d : string) : option Z :=
  if String.eqb d "" then Some 0 else Atoi d.

(** The two messages of [log.Fatalf]. *)
Definition msg_matches : string := "Unexpected number of matches in file name regular expression".
Definition msg_atoi : string := "Unexpected result of ([0-9]) match in file name regular expression".

(** The name that a call on a colliding name goes on with, or the fatal
    error it ends with. *)
Definition next_candidate (file : string) : outcome string :=
  match find file with
  | None => Fatal msg_matches
  | Some (st, d, e) =>
      match counter_of d with
      | Some i => Done (Sprintf_name st (int_add i 1) e)
      | None => Fatal msg_atoi
      end
  end.

(** The rank of a name: the length of its stem first, its counter second.
    It has no rank when a collision on it ends the process. *)
Definition rank (file : string) : option Z :=
  match find file with
  | Some (st, d, e) =>
      match counter_of d with
      | Some i => Some (length_Z st * 2 ^ 63 + i)
      | None => None
      end
  | None => None
  end.

(** ** The parse in the words of the specification *)

(** The extension in the words of the specification: the final segment that
    a dot opens, the dot included; empty when the name has no dot. *)
Fixpoint final_ext (s : string) : string :=
  match s with
  | EmptyString => ""
  | String c t =>
      match final_ext t with
      | EmptyString => if is_char "." c then s else ""
      | e => e
      end
  end.

(** What stands before the extension. *)
Fixpoint before_ext (s : string) : string :=
  match s with
  | EmptyString => ""
  | String c t =>
      match final_ext t with
      | EmptyString => if is_char "." c then "" else String c (before_ext t)
      | _ => String c (before_ext t)
      end
  end.
(** * The program and the operating system

    The calls of the program on the file system, with the answers the
    system is free to give: [os.Stat] fails for more reasons than a missing
    file, [ioutil.WriteFile] and [os.Chtimes] fail, and a file is reached
    through the path that [filepath.Join] makes of the directory and the
    name. *)

(** ** path/filepath: [Clean] and [Join], with the slash as separator *)

Definition is_separator (c : ascii) : bool := Ascii.eqb c "/".

(** The byte of [s] at the index [i]. *)
Definition byte_at (s : string) (i : nat) : ascii :=
  match String.get i s with
  | Some c => c
  | None => " "%char
  end.

(** The loop [for out.w > dotdot && out[out.w] != '/' { out.w-- }] of
    [Clean], from [out.w = w]. *)
Fixpoint backtrack (out : string) (dotdot w : nat) : nat :=
  match w with
  | O => O
  | S w' =>
      if (dotdot <? w)%nat && negb (is_separator (byte_at out w))
      then backtrack out dotdot w'
      else w
  end.

(** [r == n || path[r] == '/']: the path element ends where [p] starts. *)
Definition element_ends (p : string) : bool :=
  match p with
  | EmptyString => true
  | String c _ => is_separator c
  end.

(** The main loop of [Clean]: [p] is what is left of the path to read,
    [out] is the buffer written so far, [dotdot] the index in the buffer
    where [..] must stop.  Every turn reads at least one byte of [p]. *)
Fixpoint clean_loop (fuel : nat) (rooted : bool) (p out : string) (dotdot : nat) : string :=
  match fuel, p with
  | S fuel', String c p1 =>
      if is_separator c then
        (* empty path element *)
        clean_loop fuel' rooted p1 out dotdot
      else if Ascii.eqb c "." && element_ends p1 then
        (* . element *)
        clean_loop fuel' rooted p1 out dotdot
      else
        let is_dotdot :=
          match p1 with
          | String c1 p2 => Ascii.eqb c "." && Ascii.eqb c1 "." && element_ends p2
          | EmptyString => false
          end in
        if is_dotdot then
          (* .. element: remove to last separator *)
          let p2 := match p1 with String _ p2 => p2 | EmptyString => "" end in
          if (dotdot <? String.length out)%nat then
            (* can backtrack *)
            let w := backtrack out dotdot (String.length out - 1) in
            clean_loop fuel' rooted p2 (substring 0 w out) dotdot
          else if negb rooted then
            (* cannot backtrack, but not rooted, so append .. element *)
            let out := (if (0 <? String.length out)%nat then out +:+ "/" else out) +:+ ".." in
            clean_loop fuel' rooted p2 out (String.length out)
          else clean_loop fuel' rooted p2 out dotdot
        else
          (* real path element: add slash if needed, copy element *)
          let out :=
            if (rooted && negb (String.length out =? 1)%nat)
               || (negb rooted && negb (String.length out =? 0)%nat)
            then out +:+ "/" else out in
          let '(elem, rest) := span (fun c => negb (is_separator c)) p in
          clean_loop fuel' rooted rest (out +:+ elem) dotdot
  | _, _ => out
  end.

(** [filepath.Clean(path)] where there are no volume names. *)
Definition filepath_Clean (path : string) : string :=
  match path with
  | EmptyString => "."
  | String c rest =>
      let out :=
        if is_separator c
        then clean_loop (String.length path) true rest "/" 1
        else clean_loop (String.length path) false path "" 0 in
      if String.eqb out "" then "." else out
  end.

(** [filepath.Join(elem...)] on the systems whose separator is the slash:
    the elements from the first one that is not empty, joined by the
    separator, and the result cleaned. *)
Fixpoint filepath_Join_unix (elem : list string) : string :=
  match elem with
  | [] => ""
  | e :: rest =>
      if String.eqb e "" then filepath_Join_unix rest
      else filepath_Clean (strings_Join elem "/")
  end.

(** ** os, io/ioutil, time *)

Module Sys.

(** What [os.Stat] answers, as far as the program looks at it: no error,
    an error that [os.IsNotExist] accepts, any other error (a name that is
    too long, a directory that may not be searched, a path through a
    file). *)
Inductive stat : Type := Found | NotExist | Failed.

Definition os_IsNotExist (err : stat) : bool :=
  match err with
  | NotExist => true
  | _ => false
  end.

(** [syscall.Timespec]. *)
Record timespec : Type := { tv_sec : Z; tv_nsec : Z }.

(** [Time.UnixNano()], an int64. *)
Definition UnixNano (t : time) : Z := wrap (sec t * 1000000000 + nsec t).

(** [syscall.NsecToTimespec(nsec)]; the division of Go truncates. *)
Definition NsecToTimespec (n : Z) : timespec :=
  let s := Z.quot n 1000000000 in
  let ns := Z.rem n 1000000000 in
  if ns <? 0 then {| tv_sec := s - 1; tv_nsec := ns + 1000000000 |}
  else {| tv_sec := s; tv_nsec := ns |}.

(** [Time.IsZero()]: the first instant of the year 1. *)
Definition IsZero (t : time) : bool := (sec t =? -62135596800) && (nsec t =? 0).

Definition UTIME_OMIT : Z := 2 ^ 30 - 2.

(** What [os.Chtimes] hands to the system call for a time: the
    nanoseconds since the epoch, which are an int64, as seconds and
    nanoseconds; for the zero time the mark that leaves the time of the
    file as it is (older releases of Go have no such mark). *)
Definition Chtimes_timespec (t : time) : timespec :=
  if IsZero t then {| tv_sec := UTIME_OMIT; tv_nsec := UTIME_OMIT |}
  else NsecToTimespec (UnixNano t).

(** The system under the process, in the states [St] it goes through: the
    [filepath.Join] of the target, the answer of [os.Stat] to a path, and
    the two calls that change the state and report a success or an error,
    [ioutil.WriteFile(name, data, 0644)] and the system call of
    [os.Chtimes]; [time.Now()] is read from the state.  Nothing is assumed
    of the answers; the state changes by the calls of the program only. *)
Record System (St : Type) : Type := {
  filepath_Join : list string -> string;
  os_Stat : St -> string -> stat;
  ioutil_WriteFile : St -> string -> list ascii -> St * bool;
  syscall_UtimesNano : St -> string -> timespec -> timespec -> St * bool;
  time_Now : St -> time
}.
Arguments filepath_Join {St} _ _.
Arguments os_Stat {St} _ _ _.
Arguments ioutil_WriteFile {St} _ _ _ _.
Arguments syscall_UtimesNano {St} _ _ _ _ _.
Arguments time_Now {St} _ _.

(** [os.Chtimes(name, atime, mtime)]. *)
Definition os_Chtimes {St} (sys : System St) (s : St) (name : string) (atime mtime : time)
    : St * bool :=
  syscall_UtimesNano sys s name (Chtimes_timespec atime) (Chtimes_timespec mtime).

(** [getUniqeFilename(path, file)], in the state [s] of the system. *)
Fixpoint getUniqeFilename {St} (fuel : nat) (sys : System St) (s : St) (path file : string)
    : outcome string :=
  match fuel with
  | O => OutOfFuel
  | S fuel' =>
      if os_IsNotExist (os_Stat sys s (filepath_Join sys [path; file])) then Done file
      else
        match FindStringSubmatch r 3 file with
        | None => Fatal "Unexpected number of matches in file name regular expression"
        | Some matches =>
            if negb (Nat.eqb (length matches) 4)
            then Fatal "Unexpected number of matches in file name regular expression"
            else
              let next (i : Z) :=
                getUniqeFilename fuel' sys s path
                  (Sprintf_name (nth_string matches 1) (int_add i 1) (nth_string matches 3)) in
              if String.eqb (nth_string matches 2) ""
              then next 0
              else match Atoi (nth_string matches 2) with
                   | None => Fatal "Unexpected result of ([0-9]) match in file name regular expression"
                   | Some i => next i
                   end
        end
  end.

(** ** The attachment walker on the system *)

(** What the run does, in order: the lines it logs, and its calls of
    [ioutil.WriteFile] and of [os.Chtimes], each with its arguments and
    with what the system answered. *)
Inductive call : Type :=
| Printf (line : string)
| WriteFile (name : string) (data : list ascii) (ok : bool)
| Chtimes (name : string) (atime mtime : time) (ok : bool).

(** The state of the system and the calls so far. *)
Record run (St : Type) : Type := { state : St; calls : list call }.
Arguments state {St} _.
Arguments calls {St} _.

(** A computation of the run: it changes the system and returns, or it
    ends the process ([log.Fatalf]) in the state reached so far. *)
Definition M (St A : Type) : Type := run St -> run St * outcome A.

Definition ret {St A} (a : A) : M St A := fun w => (w, Done a).
Definition bind {St A B} (m : M St A) (k : A -> M St B) : M St B :=
  fun w =>
    match m w with
    | (w', Done a) => k a w'
    | (w', Fatal msg) => (w', Fatal msg)
    | (w', OutOfFuel) => (w', OutOfFuel)
    end.
Definition fatal {St A} (msg : string) : M St A := fun w => (w, Fatal msg).
Definition out_of_fuel {St A} : M St A := fun w => (w, OutOfFuel).
Definition log_Printf {St} (line : string) : M St unit :=
  fun w => ({| state := state w; calls := calls w ++ [Printf line] |}, Done tt).
Definition get_state {St} : M St St := fun w => (w, Done (state w)).

#[global] Instance M_ret {St} : MRet (M St) := @ret St.
#[global] Instance M_bind {St} : MBind (M St) := fun A B k m => bind m k.

(** An API call or a library call whose error ends the run. *)
Definition or_fatal {St A} (x : option A) (msg : string) : M St A :=
  match x with
  | Some a => ret a
  | None => fatal msg
  end.

Definition lift_outcome {St A} (x : outcome A) : M St A := fun w => (w, x).

(** [if err = ioutil.WriteFile(fullName, data, 0644); err != nil { log.Fatalf(...) }] *)
Definition write_or_fatal {St} (sys : System St) (fullName : string) (data : list ascii)
    : M St unit :=
  fun w =>
    let '(s, ok) := ioutil_WriteFile sys (state w) fullName data in
    ({| state := s; calls := calls w ++ [WriteFile fullName data ok] |},
     if ok then Done tt else Fatal "Unable to write to file").

(** [if err = os.Chtimes(fullName, time.Now(), mtime); err != nil { log.Fatalf(...) }] *)
Definition chtimes_or_fatal {St} (sys : System St) (fullName : string) (mtime : time)
    : M St unit :=
  fun w =>
    let atime := time_Now sys (state w) in
    let '(s, ok) := os_Chtimes sys (state w) fullName atime mtime in
    ({| state := s; calls := calls w ++ [Chtimes fullName atime mtime ok] |},
     if ok then Done tt else Fatal "Cannot change timestamps of file").

(** The body of the loop over [msg.Payload.Parts]; [n] counts the
    attachments of the message. *)
Definition download_part {St} (sys : System St) (svc : Service) (outDir : string) (fuel : nat)
    (id : string) (msg : Message) (part : MessagePart) (st : totals * Z) : M St (totals * Z) :=
  let '(tot, n) := st in
  if String.eqb (Filename part) "" then ret st
  else
    let tot := {| totalMsg := totalMsg tot; totalAtt := int_add (totalAtt tot) 1 |} in
    body ← or_fatal (Attachments_Get svc id (AttachmentId part))
                     "Error retrieving attachment with id" ;
    data ← or_fatal (URLEncoding_DecodeString body) "Error decoding attachment" ;
    s ← get_state ;
    name ← lift_outcome (getUniqeFilename fuel sys s outDir (Filename part)) ;
    let fullName := filepath_Join sys [outDir; name] in
    write_or_fatal sys fullName data ;;
    chtimes_or_fatal sys fullName (time_Unix (Z.quot (InternalDate msg) 1000) 0) ;;
    log_Printf ("Message #" +:+ itoa (totalMsg tot) +:+ " attachment #" +:+ itoa n
                +:+ ": " +:+ name) ;;
    ret (tot, int_add n 1).

Fixpoint download_parts {St} (sys : System St) (svc : Service) (outDir : string) (fuel : nat)
    (id : string) (msg : Message) (parts : list MessagePart) (st : totals * Z)
    : M St (totals * Z) :=
  match parts with
  | [] => ret st
  | part :: rest =>
      st' ← download_part sys svc outDir fuel id msg part st ;
      download_parts sys svc outDir fuel id msg rest st'
  end.

(** The body of the loop over [r.Messages]. *)
Definition download_message {St} (sys : System St) (svc : Service) (outDir : string)
    (fuel : nat) (id : string) (tot : totals) : M St totals :=
  msg ← or_fatal (Messages_Get svc id) "Unable to retrieve message" ;
  let tot := {| totalMsg := int_add (totalMsg tot) 1; totalAtt := totalAtt tot |} in
  log_Printf ("Message #" +:+ itoa (totalMsg tot) +:+ ": " +:+ subject_of (Headers msg)) ;;
  st ← download_parts sys svc outDir fuel id msg (Parts msg) (tot, 1) ;
  ret (fst st).

Fixpoint download_messages {St} (sys : System St) (svc : Service) (outDir : string)
    (fuel : nat) (ids : list string) (tot : totals) : M St totals :=
  match ids with
  | [] => ret tot
  | id :: rest =>
      tot' ← download_message sys svc outDir fuel id tot ;
      download_messages sys svc outDir fuel rest tot'
  end.

(** The loop over the pages, from the page token [pageToken]. *)
Fixpoint download_pages {St} (sys : System St) (svc : Service) (outDir : string)
    (fuel : nat) (pageToken : string) (tot : totals) : M St totals :=
  match fuel with
  | O => out_of_fuel
  | S fuel' =>
      page ← or_fatal (Messages_List svc pageToken) "Unable to retrieve messages" ;
      tot' ← download_messages sys svc outDir fuel (fst page) tot ;
      if String.eqb (snd page) "" then ret tot'
      else download_pages sys svc outDir fuel' (snd page) tot'
  end.

(** [gmailDownloadAttachments(svc, query, outDir)]; the service answers
    for the query of the run. *)
Definition gmailDownloadAttachments {St} (sys : System St) (svc : Service) (outDir : string)
    (fuel : nat) : M St totals :=
  tot ← download_pages sys svc outDir fuel "" {| totalMsg := 0; totalAtt := 0 |} ;
  log_Printf ("Downloaded " +:+ itoa (totalAtt tot) +:+ " attachments from "
              +:+ itoa (totalMsg tot) +:+ " messages") ;;
  ret tot.

End Sys.


(** ** Runs of the walker *)








(** ** Examples *)

(** A mailbox for the examples: two pages with one message each; the first
    message has a part without a file name and an attachment a.pdf, the
    second one an attachment a.pdf as well. *)
Definition example_part (name att : string) : MessagePart :=
  {| Filename := name; AttachmentId := att |}.

Definition example_svc : Service :=
  {| Messages_List := fun t =>
       if String.eqb t "" then Some (["m1"], "p2")
       else if String.eqb t "p2" then Some (["m2"], "")
       else None;
     Messages_Get := fun id =>
       if String.eqb id "m1"
       then Some {| InternalDate := 1500000000123; Headers := [("Subject", "one")];
                    Parts := [example_part "" ""; example_part "a.pdf" "att1"] |}
       else if String.eqb id "m2"
       then Some {| InternalDate := 1600000000999; Headers := [];
                    Parts := [example_part "a.pdf" "att2"] |}
       else None;
     Attachments_Get := fun id att =>
       if String.eqb att "att1" then Some "aGk="
       else if String.eqb att "att2" then Some "aGVsbG8="
       else None;
     Now := time_Unix 1700000000 5 |}.

Definition example_world : world := {| fs := ∅; trace := [] |}.

(** A process for the examples, on the system [goos]: its [filepath.Join]
    is the one of the systems with the slash, and [%q] puts a text in
    quotes, as it does for the plain texts of the examples. *)
Definition example_env_on (goos : string) : Env :=
  {| GOOS := goos; HOME := "/home/u"; progName := "gdownload"; cacheToken := true;
     debug := false;
     filepath_Join := filepath_Join_unix;
     Sprintf_q := fun s => String QUOTE s +:+ String QUOTE "";
     Sprintf_v := fun _ => "&oauth2.Token{}" |}.

Definition example_env : Env := example_env_on "linux".

(** [gmail.GmailReadonlyScope], the one scope of the config that [main]
    builds. *)
Definition GmailReadonlyScope : string := "https://www.googleapis.com/auth/gmail.readonly".

Definition example_config (scopes : list string) (redirect : string) : Config :=
  {| ClientID := "id"; ClientSecret := "secret"; Scopes := scopes; RedirectURL := redirect |}.

Definition example_token : Token :=
  {| AccessToken := "at"; RefreshToken := "rt"; Expiry := time_Unix 1700003600 0 |}.

(** ** The generator *)
Module GobinAux.
Import Gobin.

(** The text of one byte in a numeric format. *)
Definition item (f : Format) (b : ascii) : string :=
  match f with
  | hexx => "0x" +:+ hex2 b
  | hex => "0x" +:+ hex_min b
  | _ => itoa (Z_of_byte b)
  end.

(** The three formats that write a composite literal of numbers. *)
Definition numeric (f : Format) : bool :=
  match f with
  | hexx | hex | dec => true
  | _ => false
  end.

(** The text [s], read from a place where a statement may end ([e]) or
    not, has the tokens [ts], whatever fuel is given beyond its length. *)
Definition tokenizes (s : string) (e : bool) (ts : list token) : Prop :=
  forall fuel, (String.length s < fuel)%nat -> tokens fuel s e = ts.

(** The tokens of the elements of a composite literal. *)
Definition item_tokens (bs : list ascii) : list token :=
  flat_map (fun b => [TInt (Z_of_byte b); TComma]) bs.

(** Inputs of the generator for the examples. *)
Definition example_flags (f : Format) (init : bool) : Flags :=
  {| packageName := "main"; varName := "credentials"; format := f;
     step := 2; initOnly := init |}.

Definition example_buffer (s : string) (spare : Z) : slice :=
  {| elems := list_ascii_of_string s;
     capacity := Z.of_nat (String.length s) + spare |}.

(** The bytes read back from the literal of a run. *)
Definition read_back (fl : Flags) (buffer : slice) : option (list ascii) :=
  match lines (S (length (elems buffer))) fl
          (if initOnly fl then String TAB "" else "") buffer 0 with
  | Done body => go_bytes (literal fl body)
  | _ => None
  end.

(** The text [lit] inside a string literal denotes the bytes [bs]: the
    scanner reads it in [n] steps and goes on with what follows. *)
Definition reads (lit : string) (bs : list ascii) (n : nat) : Prop :=
  (n <= String.length lit)%nat /\
  forall rest fuel,
    scan_string (n + fuel) (lit +:+ rest)
    = option_map (fun x => (bs ++ fst x, snd x)) (scan_string fuel rest).

(** The text between the quotes of a line in a string format. *)
Definition quoted (f : Format) (bs : list ascii) : string :=
  match f with
  | shex => quote_body (length bs) (map Z_of_byte bs)
  | _ => strings_Join (map (fun b => String BACKSLASH (String "x" (hex2 b))) bs) ""
  end.

(** The two formats that write a conversion of string literals. *)
Definition stringy (f : Format) : bool :=
  match f with
  | shexx | shex => true
  | _ => false
  end.

(** The characters of a plain text: the printable characters of ASCII, the
    tab and the line feed. *)
Definition is_text (c : ascii) : bool :=
  in_range 32 126 (Z_of_byte c) || Ascii.eqb c TAB || Ascii.eqb c LF.

(** The characters inside a line: the printable characters of ASCII and
    the tab. *)
Definition is_inline (c : ascii) : bool :=
  in_range 32 126 (Z_of_byte c) || Ascii.eqb c TAB.

(** The number of the line feeds of a text. *)
Fixpoint count_LF (s : string) : Z :=
  match s with
  | EmptyString => 0
  | String c t => (if Ascii.eqb c LF then 1 else 0) + count_LF t
  end.

End GobinAux.


(** ** The disambiguator: the order of the calls *)

(** The rank of [c] is above the rank of [f], when both have one: a call
    on [c] comes after a call on [f]. *)
Definition above (f c : string) : Prop :=
  forall m, rank f = Some m -> forall m', rank c = Some m' -> m < m'.

(** ** Runs of the walker: the listing *)

(** The ids of the messages on the pages from the page token [t], up to the
    page without a next page token. *)
Inductive pages (svc : Service) : string -> list string -> Prop :=
| pages_last t ids : Messages_List svc t = Some (ids, "") -> pages svc t ids
| pages_more t ids next rest :
    Messages_List svc t = Some (ids, next) -> next <> "" -> pages svc next rest ->
    pages svc t (ids ++ rest).

(** The values of [int]. *)
Definition in_int (z : Z) : Prop := minInt <= z <= maxInt.

(** ** The texts of the libraries *)

(** The 64 characters of the URL-safe alphabet. *)
Definition in_alphabet (c : ascii) : bool :=
  match decodeMap c with
  | Some _ => true
  | None => false
  end.

(** The characters that [url.QueryEscape] writes. *)
Definition is_escaped (c : ascii) : bool :=
  is_unreserved c || Ascii.eqb c "+" || Ascii.eqb c "%".

(** The text that [url.QueryEscape] writes for one character. *)
Definition escape_char (c : ascii) : string := url_QueryEscape (String c "").

(** The character that an escaped text begins with, and the rest. *)
Definition unescape_head (s : string) : option (ascii * string) :=
  match s with
  | String c rest =>
      if Ascii.eqb c "%" then
        match rest with
        | String h (String l rest') =>
            match Gobin.hexval h, Gobin.hexval l with
            | Some a, Some b => Some (byte_of_Z (a * 16 + b), rest')
            | _, _ => None
            end
        | _ => None
        end
      else if Ascii.eqb c "+" then Some (" "%char, rest)
      else Some (c, rest)
  | EmptyString => None
  end.

(** ** The token cache *)

(** The name of the cache file, which [tokenCacheFile] joins to the
    directory. *)
Definition tokenCacheName (env : Env) (config : Config) : string :=
  url_QueryEscape (progName env +:+ "-tok" +:+ itoa (cache_hash config)).
(** ** The calls of the disambiguator, as a sequence of names *)

(** The name of the call number [k] (from 0) when every call before it
    found its name taken, or the fatal error that ends the calls before. *)
Fixpoint nth_candidate (k : nat) (file : string) : outcome string :=
  match k with
  | O => Done file
  | S k' =>
      match next_candidate file with
      | Done c => nth_candidate k' c
      | Fatal m => Fatal m
      | OutOfFuel => OutOfFuel
      end
  end.

(** The name [f] counts as taken in the directory [path]: [os.Stat] does
    not answer that there is no such file. *)
Definition taken {St} (sys : Sys.System St) (s : St) (path f : string) : bool :=
  negb (Sys.os_IsNotExist (Sys.os_Stat sys s (Sys.filepath_Join sys [path; f]))).

(** The first [k] calls on [F] all find their name taken. *)
Definition all_taken {St} (sys : Sys.System St) (s : St) (path F : string) (k : nat) : Prop :=
  forall j c, (j < k)%nat -> nth_candidate j F = Done c -> taken sys s path c = true.

(** A text of [n] times the character [c]. *)
Fixpoint repeat_char (c : ascii) (n : nat) : string :=
  match n with
  | O => ""
  | S n' => String c (repeat_char c n')
  end.

(** ** A system for the examples *)

(** Some element of the path [p] has more than 255 bytes; [n] is the
    number of the bytes of the element that [p] goes on with. *)
Fixpoint name_too_long (n : nat) (p : string) : bool :=
  match p with
  | EmptyString => (255 <? n)%nat
  | String c t =>
      if is_separator c then (255 <? n)%nat || name_too_long 0 t
      else name_too_long (S n) t
  end.

(** A disk that holds the files of its state under their paths, in which
    every directory exists, and which cannot be asked for a file name of
    more than 255 bytes; the system call of [os.Chtimes] succeeds on it when
    [utimes_ok] says so, and sets the two times of the file, but for a
    time that is to be left as it is.  The clock stands still. *)
Record disk_file : Type := { contents : list ascii; atime_of : Sys.timespec; mtime_of : Sys.timespec }.

Definition clock : time := time_Unix 1600000000 0.

Definition disk (utimes_ok : bool) : Sys.System (gmap string disk_file) := {|
  Sys.filepath_Join := filepath_Join_unix;
  Sys.os_Stat := fun d p =>
    if name_too_long 0 p then Sys.Failed
    else match d !! p with
         | Some _ => Sys.Found
         | None => Sys.NotExist
         end;
  Sys.ioutil_WriteFile := fun d p bytes =>
    if name_too_long 0 p then (d, false)
    else (<[p := {| contents := bytes;
                    atime_of := Sys.Chtimes_timespec clock;
                    mtime_of := Sys.Chtimes_timespec clock |}]> d, true);
  Sys.syscall_UtimesNano := fun d p a m =>
    match d !! p with
    | Some f =>
        if utimes_ok
        then (<[p := {| contents := contents f;
                        atime_of := if Sys.tv_nsec a =? Sys.UTIME_OMIT then atime_of f else a;
                        mtime_of := if Sys.tv_nsec m =? Sys.UTIME_OMIT then mtime_of f else m |}]> d,
              true)
        else (d, false)
    | None => (d, false)
    end;
  Sys.time_Now := fun _ => clock
|}.

(** A disk with empty files under the given paths. *)
Definition disk_with (paths : list string) : gmap string disk_file :=
  list_to_map (map (fun p => (p, {| contents := [];
                                    atime_of := Sys.NsecToTimespec 0;
                                    mtime_of := Sys.NsecToTimespec 0 |})) paths).

(** No byte of [s] is a separator of paths. *)
Definition no_separator (s : string) : bool := all_chars (fun c => negb (is_separator c)) s.

(** A name that no directory holds: a plain name that begins with the
    letter a, whose stem alone has more than 255 bytes, and on which a
    collision goes on to a next name. *)
Definition too_long (f : string) : Prop :=
  exists t st d e i,
    f = String "a" t /\ no_separator t = true /\
    find f = Some (st, d, e) /\ counter_of d = Some i /\ 255 < length_Z st.

(** Why a collision on [f] ends the process with the message [msg]: the
    pattern does not match [f], which is when a line feed stands before
    its extension, or the counter of [f] is a numeral beyond the largest
    int. *)
Definition abort_cause (msg f : string) : Prop :=
  (msg = msg_matches /\ all_chars (not_char LF) (before_ext f) = false) \/
  (msg = msg_atoi /\
   exists stem cnt n,
     FindStringSubmatch r 3 f = Some [f; stem; cnt; final_ext f] /\
     digits_value cnt = Some n /\ maxInt < n).

(** ** Runs of the walker on the system *)








(** The number of the successful writes among the calls. *)
Fixpoint count_files (evs : list Sys.call) : nat :=
  match evs with
  | [] => 0
  | Sys.WriteFile _ _ true :: rest => S (count_files rest)
  | _ :: rest => count_files rest
  end.

(** What a step of a run that returns has added to the counts: the number
    [m] to the count of the messages, and the number of the successful
    writes among its calls to the count of the attachments. *)
Definition tallied {St : Type} (tot : totals) (w : Sys.run St) (tot' : totals) (w' : Sys.run St)
    (m : nat) : Prop :=
  exists evs,
    Sys.calls w' = Sys.calls w ++ evs /\
    totalMsg tot' = wrap (totalMsg tot + Z.of_nat m) /\
    totalAtt tot' = wrap (totalAtt tot + Z.of_nat (count_files evs)).


(** The run starts with no calls made. *)
Definition start {St : Type} (s : St) : Sys.run St := {| Sys.state := s; Sys.calls := [] |}.

(** ** Runs of the walker on the system: the messages gone through *)







(** * Properties *)

Local Arguments is_char : simpl never.
Local Arguments not_char : simpl never.
Local Arguments is_digit : simpl never.
Local Arguments tail_k : simpl never.

(** ** Strings *)

Lemma append_nil_r s : s +:+ "" = s.
Proof. induction s; simpl; congruence. Qed.

Lemma append_assoc (a b c : string) : (a +:+ b) +:+ c = a +:+ (b +:+ c).
Proof. induction a; simpl; congruence. Qed.

Lemma length_Z_app a b : length_Z (a +:+ b) = length_Z a + length_Z b.
Proof. unfold length_Z. induction a as [|c a IH]; simpl String.length; lia. Qed.

Lemma length_Z_nonneg a : 0 <= length_Z a.
Proof. unfold length_Z. lia. Qed.

Lemma append_cancel_r (a b e : string) : a +:+ e = b +:+ e -> a = b.
Proof.
  revert b. induction a as [|c a IH]; intros [|c' b]; simpl; intros H; try done.
  - exfalso. assert (Hl : length_Z e = length_Z (String c' b +:+ e)) by (simpl; congruence).
    rewrite length_Z_app in Hl. unfold length_Z in Hl. simpl String.length in Hl. lia.
  - exfalso. assert (Hl : length_Z (String c a +:+ e) = length_Z e) by (simpl; congruence).
    rewrite length_Z_app in Hl. unfold length_Z in Hl. simpl String.length in Hl. lia.
  - injection H as -> H. f_equal. by apply IH.
Qed.

Lemma not_char_negb a c : not_char a c = negb (is_char a c).
Proof. done. Qed.

Lemma orelse_none_r {A} (x : option A) : orelse x None = x.
Proof. by destruct x. Qed.

(** The longest prefix of a string whose characters are in a class. *)
Section Spans.
  Variable p : ascii -> bool.

Lemma all_chars_app a b : all_chars p (a +:+ b) = all_chars p a && all_chars p b.
Proof. induction a as [|c a IH]; simpl; [done|]. by rewrite IH, andb_assoc. Qed.

Lemma span_all t : all_chars p t = true -> span p t = (t, "").
Proof. induction t as [|c t IH]; simpl; [done|]. intros [Hc H]%andb_true_iff. by rewrite Hc, IH. Qed.

Lemma span_rest t : match snd (span p t) with String c _ => p c = false | _ => True end.
Proof. induction t as [|c t IH]; simpl; [done|]. destruct (p c) eqn:E; simpl; [|done]. by destruct (span p t). Qed.

Lemma span_app t : fst (span p t) +:+ snd (span p t) = t.
Proof. induction t as [|c t IH]; simpl; [done|]. destruct (p c); simpl; [|done]. destruct (span p t); simpl in *. congruence. Qed.

Lemma span_prefix t : all_chars p (fst (span p t)) = true.
Proof. induction t as [|c t IH]; simpl; [done|]. destruct (p c) eqn:E; simpl; [|done]. destruct (span p t); simpl in *. by rewrite E. Qed.

Lemma span_app_all a b :
  all_chars p a = true -> span p (a +:+ b) = (a +:+ fst (span p b), snd (span p b)).
Proof.
  induction a as [|c a IH]; simpl; [by destruct (span p b)|].
  intros [Hc Ha]%andb_true_iff. by rewrite Hc, IH.
Qed.

Lemma span_app_stop a b :
  snd (span p a) <> "" -> span p (a +:+ b) = (fst (span p a), snd (span p a) +:+ b).
Proof.
  induction a as [|c a IH]; simpl; [done|].
  destruct (p c); simpl; [|done]. intros H.
  destruct (span p a) as [x y]; simpl in *. by rewrite IH.
Qed.

Lemma span_snd_nil a : snd (span p a) = "" -> all_chars p a = true.
Proof.
  induction a as [|c a IH]; simpl; [done|].
  destruct (p c); simpl; [|done]. destruct (span p a); simpl in *. done.
Qed.

End Spans.

(** ** The matcher *)

(** The star over a class, against the continuations that the pattern
    builds. *)
Section Star.
  Context {R : Type} (p : ascii -> bool).

Lemma star_greedy_span t (k : string -> string -> option R) :
  (forall m c rest, p c = true -> k m (String c rest) = None) ->
  star true p t k = k (fst (span p t)) (snd (span p t)).
Proof.
  revert k. induction t as [|c t IH]; intros k Hk; simpl; [done|].
  destruct (p c) eqn:Hc; [|done].
  rewrite IH by (intros; by apply Hk).
  rewrite (Hk _ _ _ Hc), orelse_none_r. by destruct (span p t).
Qed.

Lemma star_to_end t (k : string -> string -> option R) :
  (forall m c rest, k m (String c rest) = None) ->
  star true p t k = if all_chars p t then k t "" else None.
Proof.
  revert k. induction t as [|c t IH]; intros k Hk; simpl; [done|].
  destruct (p c); simpl; [|by apply Hk].
  rewrite IH, Hk, orelse_none_r by (intros; apply Hk). done.
Qed.

Lemma star_lazy_unfold s (k : string -> string -> option R) :
  star false p s k =
  orelse (k "" s)
    match s with
    | String c t => if p c then star false p t (fun m rest => k (String c m) rest) else None
    | EmptyString => None
    end.
Proof. destruct s as [|c t]; simpl; [by rewrite orelse_none_r|]. destruct (p c); [done|by rewrite orelse_none_r]. Qed.

Lemma star_ext greedy s (k k' : string -> string -> option R) :
  (forall m rest, k m rest = k' m rest) -> star greedy p s k = star greedy p s k'.
Proof.
  revert k k'. induction s as [|c t IH]; intros k k' H; simpl; [done|].
  rewrite (IH (fun m rest => k (String c m) rest) (fun m rest => k' (String c m) rest)), H; done.
Qed.

End Star.

(** ** The pattern of the file names *)

Lemma run_ext s g k :
  run (Cat re_ext EndText) s g k =
  match ext_match s with
  | Some e => k e "" (if String.eqb e "" then g else set_capture 3 e g)
  | None => None
  end.
Proof.
  destruct s as [|c t]; simpl; [done|].
  destruct (is_char "." c); simpl; [|done].
  rewrite star_to_end by done.
  destruct (all_chars (not_char ".") t); simpl; [|done].
  by rewrite append_nil_r, orelse_none_r.
Qed.

Lemma run_paren s g k :
  run re_paren s g k =
  orelse
    match paren_match s with
    | Some (d, rest) => k ("(" +:+ d +:+ ")") rest (set_capture 2 d g)
    | None => None
    end
    (k "" s g).
Proof.
  unfold re_paren. simpl. f_equal.
  destruct s as [|c t]; simpl; [done|].
  destruct (is_char "(" c) eqn:Ec; simpl; [|done].
  apply Ascii.eqb_eq in Ec. subst c.
  destruct t as [|c0 t0]; simpl; [done|].
  destruct (is_digit c0) eqn:Hd; simpl; [|done].
  rewrite star_greedy_span.
  2:{ intros m c1 rest H. destruct (is_char ")" c1) eqn:E; [|done].
      apply Ascii.eqb_eq in E. subst c1. done. }
  pose proof (span_rest is_digit t0) as Hr.
  destruct (span is_digit t0) as [a b]; simpl in *.
  destruct b as [|c1 b]; [done|].
  destruct (is_char ")" c1) eqn:Ec; [|done].
  apply Ascii.eqb_eq in Ec. by subst c1.
Qed.

Lemma ext_match_eq s e : ext_match s = Some e -> e = s.
Proof. destruct s; simpl; [congruence|]. case_match; congruence. Qed.

Lemma paren_match_eq s d rest :
  paren_match s = Some (d, rest) -> s = "(" +:+ d +:+ ")" +:+ rest /\ d <> "" /\ all_chars is_digit d = true.
Proof.
  destruct s as [|c t]; simpl; [done|].
  destruct (is_char "(" c) eqn:E; [|done]. apply Ascii.eqb_eq in E. subst c.
  pose proof (span_app is_digit t) as Ha. pose proof (span_prefix is_digit t) as Hp.
  destruct (span is_digit t) as [a b]; simpl in *.
  destruct a as [|d0 ds]; [done|]. destruct b as [|c1 b]; [done|].
  destruct (is_char ")" c1) eqn:E; [|done]. apply Ascii.eqb_eq in E. subst c1.
  intros [= <- <-]. split; [|done]. rewrite <- Ha. by simpl.
Qed.

Lemma tail_match_eq s d e : tail_match s = Some (d, e) -> s = paren d +:+ e.
Proof.
  unfold tail_match. destruct (paren_match s) as [[d' rest]|] eqn:Hp.
  - apply paren_match_eq in Hp as (-> & Hne & _).
    destruct (ext_match rest) as [e'|] eqn:He; simpl.
    + intros [= <- <-]. apply ext_match_eq in He as ->. unfold paren.
      destruct d'; [done|]. simpl. by rewrite !append_assoc.
    + done.
  - simpl. destruct (ext_match s) eqn:He; simpl; [|done]. intros [= <- <-].
    by apply ext_match_eq in He.
Qed.

Lemma tail_k_eq stem rest :
  option_map obs (tail_k stem rest) =
  option_map (fun de => [stem +:+ rest; stem; fst de; snd de]) (tail_match rest).
Proof.
  unfold tail_k. change (run (Cat ?a ?b) ?s ?g ?k) with
    (run a s g (fun m1 s1 g1 => run b s1 g1 (fun m2 s2 g2 => k (m1 +:+ m2) s2 g2))).
  rewrite run_paren. unfold tail_match.
  destruct (paren_match rest) as [[d rest']|] eqn:Hp.
  - rewrite !run_ext. apply paren_match_eq in Hp as (-> & Hne & _).
    destruct (ext_match rest') as [e|] eqn:He; simpl.
    + apply ext_match_eq in He as ->. unfold obs. simpl.
      destruct rest'; simpl; unfold set_capture; simpl; by rewrite ?append_nil_r, ?append_assoc.
    + destruct d; [done|]. simpl. done.
  - rewrite !run_ext. simpl. destruct (ext_match rest) as [e|] eqn:He; simpl; [|done].
    apply ext_match_eq in He as ->. unfold obs. simpl.
    destruct rest; simpl; unfold set_capture; simpl; done.
Qed.

Lemma find_eq s : FindStringSubmatch r 3 s = option_map (report s) (find s).
Proof.
  unfold FindStringSubmatch.
  change (run r s no_captures (fun m _ g => Some (set_capture 0 m g)))
    with (star false (not_char LF) s (fun m rest => tail_k m rest)).
  transitivity (option_map obs (star false (not_char LF) s (fun m rest => tail_k m rest))).
  { by destruct (star _ _ _ _). }
  enough (forall pre, option_map obs (star false (not_char LF) s (fun m rest => tail_k (pre +:+ m) rest)) =
     option_map (fun x => [pre +:+ s; pre +:+ fst (fst x); snd (fst x); snd x]) (find s)) as H.
  { apply (H ""). }
  induction s as [|c t IH]; intros pre.
  - simpl. by rewrite !append_nil_r.
  - rewrite star_lazy_unfold. simpl find.
    assert (Ho : forall A B (f : A -> B) x y, option_map f (orelse x y) = orelse (option_map f x) (option_map f y)).
    { by intros A B f [] []. }
    rewrite !Ho. rewrite tail_k_eq. rewrite append_nil_r. f_equal.
    + destruct (tail_match (String c t)); simpl; by rewrite ?append_nil_r.
    + destruct (not_char LF c); [|done].
      specialize (IH (pre +:+ String c "")).
      rewrite !append_assoc in IH. simpl in IH.
      etrans; [|etrans; [apply IH|]].
      * f_equal. apply star_ext. intros m rest. by rewrite append_assoc.
      * destruct (find t) as [[[st d] e]|]; simpl; [|done]. by rewrite !append_assoc.
Qed.

Lemma ext_match_is_ext s : ext_match s = if is_ext s then Some s else None.
Proof. by destruct s. Qed.

Lemma is_ext_nodot e : is_ext e = true -> all_chars (not_char ".") e = true -> e = "".
Proof.
  destruct e as [|c t]; [done|]. simpl. unfold is_char, not_char.
  destruct (Ascii.eqb "." c); simpl; done.
Qed.

Lemma is_digit_not_dot c : is_digit c = true -> not_char "." c = true.
Proof.
  unfold not_char. destruct (Ascii.eqb "." c) eqn:E; [|done].
  apply Ascii.eqb_eq in E. by subst c.
Qed.

Lemma digits_nodot d : all_chars is_digit d = true -> all_chars (not_char ".") d = true.
Proof.
  induction d as [|c d IH]; simpl; [done|].
  intros [Hc Hd]%andb_true_iff. by rewrite is_digit_not_dot, IH.
Qed.

Lemma paren_nodot d : all_chars is_digit d = true -> all_chars (not_char ".") (paren d) = true.
Proof.
  intros H. unfold paren. destruct (String.eqb d ""); [done|].
  simpl. rewrite all_chars_app, digits_nodot by done. done.
Qed.

Ltac split_andb :=
  repeat match goal with
         | H : _ && _ = true |- _ => apply andb_true_iff in H as [? ?]
         end.
Ltac norm_all H := repeat first [rewrite all_chars_app in H | progress simpl in H].

(** Success of the tail in terms of its two alternatives. *)
Lemma tail_match_some s :
  tail_match s <> None <->
  is_ext s = true \/ exists d rest, paren_match s = Some (d, rest) /\ is_ext rest = true.
Proof.
  unfold tail_match. rewrite !ext_match_is_ext. split.
  - destruct (paren_match s) as [[d rest]|] eqn:Hp.
    + rewrite ext_match_is_ext. destruct (is_ext rest) eqn:He; simpl.
      * intros _. right. eauto.
      * destruct (is_ext s); simpl; [by left|done].
    + simpl. destruct (is_ext s); simpl; [by left|done].
  - intros [H|(d & rest & Hp & He)].
    + rewrite H. by destruct (match paren_match s with Some _ => _ | None => _ end).
    + rewrite Hp, ext_match_is_ext, He. done.
Qed.

Lemma tail_none_preserved c X d e mid' :
  all_chars is_digit d = true ->
  is_ext e = true ->
  all_chars (not_char ".") mid' = true ->
  tail_match (String c X +:+ paren d +:+ e) = None ->
  tail_match (String c X +:+ String "(" mid' +:+ e) = None.
Proof.
  intros Hd He Hm Hnone.
  destruct (tail_match (String c X +:+ String "(" mid' +:+ e)) eqn:Hs; [exfalso|done].
  assert (Hs' : tail_match (String c X +:+ String "(" mid' +:+ e) <> None) by congruence.
  clear Hs. apply tail_match_some in Hs'.
  assert (Ho : tail_match (String c X +:+ paren d +:+ e) <> None); [|done].
  apply tail_match_some. clear Hnone.
  destruct Hs' as [H|(dd & rest & Hp & Hr)].
  - left. norm_all H. split_andb.
    rewrite (is_ext_nodot e) by done. simpl.
    rewrite !all_chars_app, paren_nodot by done. simpl. by repeat (apply andb_true_iff; split).
  - right. simpl in Hp. simpl.
    destruct (is_char "(" c) eqn:Ec; [|done].
    destruct (snd (span is_digit X)) as [|c1 t] eqn:Hsn.
    + apply span_snd_nil in Hsn. rewrite span_app_all in Hp by done.
      simpl in Hp.
      destruct (X +:+ ""); done.
    + rewrite span_app_stop in Hp by (rewrite Hsn; done).
      rewrite span_app_stop by (rewrite Hsn; done).
      rewrite Hsn in *. simpl in Hp |- *.
      destruct (span is_digit X).1 as [|d0 ds]; [done|].
      destruct (is_char ")" c1); [|done].
      injection Hp as <- <-. eexists _, _. split; [done|].
      destruct t as [|c2 t]; [done|]. simpl in Hr |- *.
      norm_all Hr. split_andb.
      rewrite (is_ext_nodot e) by done.
      rewrite !all_chars_app, paren_nodot by done. simpl. by repeat (apply andb_true_iff; split).
Qed.

(** What a successful tail looks like. *)
Lemma tail_match_shape s d e :
  tail_match s = Some (d, e) ->
  s = paren d +:+ e /\ all_chars is_digit d = true /\ is_ext e = true.
Proof.
  intros H. split; [by apply tail_match_eq|]. revert H.
  unfold tail_match. rewrite ext_match_is_ext.
  destruct (paren_match s) as [[d' rest]|] eqn:Hp.
  - rewrite ext_match_is_ext. apply paren_match_eq in Hp as (_ & _ & Hd).
    destruct (is_ext rest) eqn:He; simpl.
    + by intros [= <- <-].
    + destruct (is_ext s) eqn:He'; simpl; [|done]. by intros [= <- <-].
  - simpl. destruct (is_ext s) eqn:He'; simpl; [|done]. by intros [= <- <-].
Qed.

Lemma find_sound s st d e :
  find s = Some (st, d, e) ->
  s = st +:+ paren d +:+ e /\ all_chars (not_char LF) st = true /\
  all_chars is_digit d = true /\ is_ext e = true.
Proof.
  revert st. induction s as [|c t IH]; intros st; simpl.
  - destruct (tail_match "") as [[d' e']|] eqn:Ht; simpl; [|done].
    intros [= <- <- <-]. apply tail_match_shape in Ht as (? & ? & ?). done.
  - destruct (tail_match (String c t)) as [[d' e']|] eqn:Ht; simpl.
    + intros [= <- <- <-]. apply tail_match_shape in Ht as (? & ? & ?). done.
    + destruct (not_char LF c) eqn:Hc; [|done].
      destruct (find t) as [[[st' d'] e']|] eqn:Hf; simpl; [|done].
      intros [= <- <- <-]. destruct (IH _ eq_refl) as (-> & H1 & H2 & H3).
      simpl. by rewrite Hc, H1.
Qed.

Lemma find_cons c t :
  find (String c t) =
  orelse (option_map (fun de => ("", fst de, snd de)) (tail_match (String c t)))
    (if not_char LF c
     then option_map (fun x => (String c (fst (fst x)), snd (fst x), snd x)) (find t)
     else None).
Proof. done. Qed.

Lemma prepend_nil x : option_map (prepend "") x = x.
Proof. by destruct x as [[[? ?] ?]|]. Qed.

Lemma prepend_cons c st x :
  option_map (fun y => (String c (fst (fst y)), snd (fst y), snd y)) (option_map (prepend st) x) =
  option_map (prepend (String c st)) x.
Proof. by destruct x as [[[? ?] ?]|]. Qed.

(** Replacing the parenthesised counter by any text that opens with a
    parenthesis and holds no dot leaves the stem at least as long. *)
Lemma find_replace s st d e mid' :
  find s = Some (st, d, e) ->
  all_chars (not_char ".") mid' = true ->
  find (st +:+ String "(" (mid' +:+ e)) = option_map (prepend st) (find (String "(" (mid' +:+ e))).
Proof.
  revert st. induction s as [|c t IH]; intros st Hf Hm.
  - vm_compute in Hf. injection Hf as <- <- <-.
    change ("" +:+ ?x) with x. by rewrite prepend_nil.
  - simpl in Hf. destruct (tail_match (String c t)) as [[d' e']|] eqn:Ht; simpl in Hf.
    + injection Hf as <- <- <-.
      change ("" +:+ ?x) with x. by rewrite prepend_nil.
    + destruct (not_char LF c) eqn:Hc; [|done].
      destruct (find t) as [[[st' d'] e']|] eqn:Hf'; simpl in Hf; [|done].
      injection Hf as <- <- <-.
      destruct (find_sound _ _ _ _ Hf') as (-> & H1 & H2 & H3).
      assert (Hn : tail_match (String c (st' +:+ String "(" (mid' +:+ e'))) = None).
      { eapply (tail_none_preserved c st' d' e' mid'); eauto. }
      change (String c st' +:+ ?x) with (String c (st' +:+ x)).
      rewrite find_cons, Hn, Hc. simpl orelse.
      rewrite (IH st' eq_refl Hm). apply prepend_cons.
Qed.

Lemma span_digits_close d rest :
  all_chars is_digit d = true -> span is_digit (d +:+ String ")" rest) = (d, String ")" rest).
Proof. intros H. rewrite span_app_all by done. simpl. by rewrite append_nil_r. Qed.

Lemma find_candidate s st d e d' :
  find s = Some (st, d, e) -> d' <> "" -> all_chars is_digit d' = true ->
  find (st +:+ "(" +:+ d' +:+ ")" +:+ e) = Some (st, d', e).
Proof.
  intros Hf Hne Hd. destruct (find_sound _ _ _ _ Hf) as (_ & _ & _ & He).
  assert (E : "(" +:+ d' +:+ ")" +:+ e = String "(" ((d' +:+ ")") +:+ e)).
  { simpl. by rewrite append_assoc. }
  rewrite E. erewrite find_replace; [|done|].
  2:{ rewrite all_chars_app, digits_nodot by done. done. }
  rewrite find_cons. unfold tail_match. simpl paren_match.
  rewrite append_assoc. simpl. rewrite span_digits_close by done.
  destruct d' as [|c ds]; [done|]. simpl. rewrite ext_match_is_ext, He. simpl.
  unfold prepend. simpl. by rewrite append_nil_r.
Qed.

Lemma tail_match_open_nondigit c m :
  is_digit c = false -> tail_match (String "(" (String c m)) = None.
Proof. intros H. unfold tail_match. simpl. by rewrite H. Qed.

Lemma find_open_nondigit c m :
  is_digit c = false ->
  find (String "(" (String c m)) =
  option_map (fun x => (String "(" (fst (fst x)), snd (fst x), snd x)) (find (String c m)).
Proof. intros H. by rewrite find_cons, tail_match_open_nondigit. Qed.

(** After a wrapped counter the pattern finds no counter where the old one
    stood: the stem grows. *)
Lemma find_overflow s st d e c m st2 d2 e2 :
  find s = Some (st, d, e) ->
  is_digit c = false ->
  all_chars (not_char ".") (String c m) = true ->
  find (st +:+ String "(" (String c m +:+ e)) = Some (st2, d2, e2) ->
  length_Z st < length_Z st2.
Proof.
  intros Hf Hc Hm. rewrite (find_replace _ _ _ _ _ Hf Hm).
  change (String c m +:+ e) with (String c (m +:+ e)).
  rewrite find_open_nondigit by done.
  destruct (find (String c (m +:+ e))) as [[[? ?] ?]|]; simpl; [|done]. intros [= <- <- <-].
  rewrite length_Z_app. unfold length_Z. simpl String.length. lia.
Qed.

(** ** The extension and the counter *)

Lemma before_final_ext s : before_ext s +:+ final_ext s = s.
Proof.
  induction s as [|c t IH]; simpl; [done|].
  destruct (final_ext t) eqn:E; simpl.
  - destruct (is_char "." c); simpl; [done|]. by rewrite <- IH at 2.
  - by rewrite IH.
Qed.

Lemma final_ext_nodot s : all_chars (not_char ".") s = true -> final_ext s = "".
Proof.
  induction s as [|c t IH]; simpl; [done|]. intros [Hc Ht]%andb_true_iff.
  rewrite IH by done. rewrite not_char_negb in Hc. by destruct (is_char "." c).
Qed.

Lemma final_ext_nil_nodot s : final_ext s = "" -> all_chars (not_char ".") s = true.
Proof.
  induction s as [|c t IH]; simpl; [done|].
  destruct (final_ext t) eqn:E; [|done].
  rewrite not_char_negb. destruct (is_char "." c); [done|]. intros _. by rewrite IH.
Qed.

Lemma final_ext_is_ext s : is_ext (final_ext s) = true.
Proof.
  induction s as [|c t IH]; simpl; [done|].
  destruct (final_ext t) eqn:E; [|done].
  destruct (is_char "." c) eqn:Hc; [|done]. simpl. rewrite Hc. simpl.
  by apply final_ext_nil_nodot.
Qed.

Lemma final_ext_app x e : e <> "" -> is_ext e = true -> final_ext (x +:+ e) = e.
Proof.
  intros Hne He. induction x as [|c x IH]; simpl.
  - destruct e as [|c t]; [done|]. simpl in *. apply andb_true_iff in He as [Hc Ht].
    by rewrite final_ext_nodot, Hc.
  - rewrite IH. by destruct e.
Qed.

Lemma find_ext s st d e : find s = Some (st, d, e) -> e = final_ext s.
Proof.
  revert st. induction s as [|c t IH]; intros st.
  - vm_compute. by intros [= <- <- <-].
  - rewrite find_cons. destruct (tail_match (String c t)) as [[d' e']|] eqn:Ht; simpl orelse.
    + cbn [option_map fst snd]. intros [= <- <- <-]. apply tail_match_shape in Ht as (Hs & Hd & He).
      rewrite Hs. destruct (String.eqb_spec e' "") as [->|Hne].
      * rewrite append_nil_r. symmetry. apply final_ext_nodot. by apply paren_nodot.
      * by rewrite final_ext_app.
    + destruct (not_char LF c); [|done].
      destruct (find t) as [[[st' d'] e']|] eqn:Hf; [|done]. cbn [option_map fst snd]. intros [= <- <- <-].
      specialize (IH _ eq_refl). simpl. rewrite <- IH. destruct e' as [|c' t']; [|done].
      destruct (is_char "." c) eqn:Hc; [|done]. exfalso.
      assert (tail_match (String c t) <> None); [|done].
      apply tail_match_some. left. simpl. rewrite Hc. by apply final_ext_nil_nodot.
Qed.

(** The lazy stem is minimal: no earlier offset lets the tail match. *)
Lemma find_minimal s st d e x c y :
  find s = Some (st, d, e) -> st = x +:+ String c y ->
  tail_match (String c y +:+ paren d +:+ e) = None.
Proof.
  revert st x. induction s as [|c0 t IH]; intros st x.
  - vm_compute. intros [= <- <- <-]. by destruct x.
  - rewrite find_cons. destruct (tail_match (String c0 t)) as [[d' e']|] eqn:Ht; simpl orelse.
    + simpl. intros [= <- <- <-]. by destruct x.
    + destruct (not_char LF c0); [|done].
      destruct (find t) as [[[st' d'] e']|] eqn:Hf; [|done]. simpl. intros [= <- <- <-].
      destruct (find_sound _ _ _ _ Hf) as (-> & _ & _ & _).
      destruct x as [|c1 x]; simpl.
      * intros [= <- <-]. done.
      * intros [= <- ->]. by eapply IH.
Qed.

(** So a parenthesised integer that stands right before the extension is
    always taken as the counter. *)
Lemma find_counter_maximal s st e x dd :
  find s = Some (st, "", e) -> dd <> "" -> all_chars is_digit dd = true ->
  st <> x +:+ "(" +:+ dd +:+ ")".
Proof.
  intros Hf Hne Hd Hst.
  assert (Hst' : st = x +:+ String "(" (dd +:+ ")")) by done.
  pose proof (find_minimal _ _ _ _ _ _ _ Hf Hst') as Hn.
  destruct (find_sound _ _ _ _ Hf) as (_ & _ & _ & He).
  revert Hn. unfold tail_match. simpl.
  rewrite append_assoc. simpl. rewrite span_digits_close by done.
  destruct dd; [done|]. simpl. by rewrite ext_match_is_ext, He.
Qed.

Lemma find_defined x t :
  all_chars (not_char LF) x = true -> tail_match t <> None -> find (x +:+ t) <> None.
Proof.
  intros Hx Ht. induction x as [|c x IH]; simpl in Hx |- *.
  - destruct t; simpl; by destruct (tail_match _) as [[? ?]|].
  - apply andb_true_iff in Hx as [Hc Hx]. rewrite Hc.
    destruct (tail_match (String c (x +:+ t))) as [[? ?]|]; [done|]. simpl.
    specialize (IH Hx). by destruct (find (x +:+ t)) as [[[? ?] ?]|].
Qed.

Lemma paren_noLF d : all_chars is_digit d = true -> all_chars (not_char LF) (paren d) = true.
Proof.
  intros H. unfold paren. destruct (String.eqb d ""); [done|]. simpl.
  rewrite all_chars_app. simpl. rewrite andb_true_r.
  clear -H. induction d as [|c d IH]; simpl in *; [done|].
  apply andb_true_iff in H as [Hc Hd]. rewrite IH by done. rewrite andb_true_r.
  unfold not_char. destruct (Ascii.eqb LF c) eqn:E; [|done].
  apply Ascii.eqb_eq in E. by subst c.
Qed.

Lemma find_before_ext s st d e : find s = Some (st, d, e) -> before_ext s = st +:+ paren d.
Proof.
  intros Hf. pose proof (find_ext _ _ _ _ Hf) as He.
  destruct (find_sound _ _ _ _ Hf) as (Hs & _).
  apply (append_cancel_r _ _ e). rewrite append_assoc, <- Hs, He. apply before_final_ext.
Qed.

Lemma find_defined_iff s :
  find s <> None <-> all_chars (not_char LF) (before_ext s) = true.
Proof.
  split.
  - destruct (find s) as [[[st d] e]|] eqn:Hf; [|done]. intros _.
    rewrite (find_before_ext _ _ _ _ Hf).
    destruct (find_sound _ _ _ _ Hf) as (Hs & Hst & Hd & _).
    rewrite all_chars_app, Hst, paren_noLF; done.
  - intros H. rewrite <- (before_final_ext s). apply find_defined; [done|].
    apply tail_match_some. left. apply final_ext_is_ext.
Qed.
(** ** Decimal numerals *)

Lemma string_of_uint_digits d : all_chars is_digit (NilEmpty.string_of_uint d) = true.
Proof. induction d; simpl; try done; by rewrite IHd. Qed.

Lemma string_of_uint_nonnil d : d <> Decimal.Nil -> NilEmpty.string_of_uint d <> "".
Proof. by destruct d. Qed.

Lemma itoa_pos_digits n : 0 < n -> all_chars is_digit (itoa n) = true /\ itoa n <> "".
Proof.
  destruct n as [|p|p]; [lia| |lia]. intros _. simpl. split.
  - apply string_of_uint_digits.
  - apply string_of_uint_nonnil, Unsigned.to_uint_nonnil.
Qed.

Lemma digits_value_itoa n : 0 < n -> digits_value (itoa n) = Some n.
Proof.
  intros Hn. destruct (itoa_pos_digits n Hn) as [Hd Hne].
  unfold digits_value. destruct (itoa n) eqn:E; [done|]. rewrite Hd. rewrite <- E.
  destruct n as [|p|p]; [lia| |lia]. simpl.
  rewrite NilEmpty.usu. simpl. unfold N.of_uint. by rewrite Unsigned.of_to.
Qed.

Lemma Atoi_digits c t :
  is_digit c = true ->
  Atoi (String c t) =
  match digits_value (String c t) with
  | Some n => if n <=? maxInt then Some n else None
  | None => None
  end.
Proof.
  destruct c as [[] [] [] [] [] [] [] []]; intros H; try (vm_compute in H; discriminate H); reflexivity.
Qed.

Lemma Atoi_itoa n : 0 < n <= maxInt -> Atoi (itoa n) = Some n.
Proof.
  intros [Hn Hm]. destruct (itoa_pos_digits n Hn) as [Hd Hne].
  pose proof (digits_value_itoa n Hn) as Hv.
  destruct (itoa n) as [|c t]; [done|]. simpl in Hd. apply andb_true_iff in Hd as [Hc _].
  rewrite Atoi_digits, Hv by done. by rewrite (proj2 (Z.leb_le _ _) Hm).
Qed.

Lemma digits_value_nonneg s n : digits_value s = Some n -> 0 <= n.
Proof.
  unfold digits_value. destruct s; [done|]. destruct (all_chars _ _); [|done].
  destruct (NilEmpty.uint_of_string _); simpl; [|done]. intros [= <-]. lia.
Qed.

Lemma Atoi_digits_range d i :
  all_chars is_digit d = true -> Atoi d = Some i -> 0 <= i <= maxInt.
Proof.
  destruct d as [|c t]; [done|]. intros H. pose proof H as H'. simpl in H'.
  apply andb_true_iff in H' as [Hc _].
  rewrite Atoi_digits by done.
  destruct (digits_value _) as [n|] eqn:E; [|done].
  apply digits_value_nonneg in E. destruct (n <=? maxInt) eqn:L; [|done].
  intros [= <-]. apply Z.leb_le in L. lia.
Qed.

(** ** The disambiguator, one call at a time *)

Lemma getUniqeFilename_unfold fuel D file :
  getUniqeFilename (S fuel) D file =
  if bool_decide (file ∈ D) then
    match next_candidate file with
    | Done c => getUniqeFilename fuel D c
    | Fatal m => Fatal m
    | OutOfFuel => OutOfFuel
    end
  else Done file.
Proof.
  simpl. destruct (bool_decide (file ∈ D)); [|done].
  rewrite find_eq. unfold next_candidate, counter_of.
  destruct (find file) as [[[st d] e]|]; simpl; [|done].
  unfold nth_string; simpl.
  destruct (String.eqb d ""); [done|]. by destruct (Atoi d).
Qed.

Lemma rank_none f : rank f = None -> exists m, next_candidate f = Fatal m.
Proof.
  unfold rank, next_candidate. destruct (find f) as [[[st d] e]|]; [|eauto].
  destruct (counter_of d); [done|eauto].
Qed.

Lemma rank_some f m : rank f = Some m -> exists c, next_candidate f = Done c.
Proof.
  unfold rank, next_candidate. destruct (find f) as [[[st d] e]|]; [|done].
  destruct (counter_of d); [eauto|done].
Qed.

Lemma counter_of_range d i :
  all_chars is_digit d = true -> counter_of d = Some i -> 0 <= i <= maxInt.
Proof.
  unfold counter_of. destruct (String.eqb d "").
  - intros _ [= <-]. unfold maxInt. lia.
  - apply Atoi_digits_range.
Qed.

Lemma int_add_small i : 0 <= i < maxInt -> int_add i 1 = i + 1.
Proof. unfold int_add, wrap, maxInt. intros H. rewrite Z.mod_small; lia. Qed.

Lemma int_add_max : int_add maxInt 1 = minInt.
Proof. reflexivity. Qed.

Lemma rank_step f m c m' :
  rank f = Some m -> next_candidate f = Done c -> rank c = Some m' -> m < m'.
Proof.
  unfold rank at 1, next_candidate.
  destruct (find f) as [[[st d] e]|] eqn:Hf; [|done].
  destruct (counter_of d) as [i|] eqn:Hc; [|done]. intros [= <-] [= <-].
  destruct (find_sound _ _ _ _ Hf) as (_ & _ & Hd & He).
  apply counter_of_range in Hc; [|done].
  destruct (decide (i = maxInt)) as [->|Hne].
  - rewrite int_add_max. unfold rank.
    change (Sprintf_name st minInt e)
      with (st +:+ String "(" (String "-" "9223372036854775808)" +:+ e)).
    destruct (find (st +:+ _)) as [[[st2 d2] e2]|] eqn:Hf2; [|done].
    destruct (counter_of d2) as [i2|] eqn:Hc2; [|done]. intros [= <-].
    apply (find_overflow _ _ _ _ _ _ _ _ _ Hf) in Hf2 as Hlen; [|done..].
    destruct (find_sound _ _ _ _ Hf2) as (_ & _ & Hd2 & _).
    apply counter_of_range in Hc2; [|done]. unfold maxInt in *. nia.
  - rewrite int_add_small by lia. unfold rank, Sprintf_name.
    destruct (itoa_pos_digits (i + 1)) as [Hd' Hne']; [lia|].
    rewrite (find_candidate _ _ _ _ _ Hf) by done.
    unfold counter_of. destruct (String.eqb_spec (itoa (i + 1)) ""); [done|].
    rewrite Atoi_itoa by lia. intros [= <-]. lia.
Qed.

(** ** The order of the calls in a finite directory *)

Lemma above_ne f c m : rank f = Some m -> above f c -> c <> f.
Proof.
  intros Hf Ha ->. specialize (Ha _ Hf _ Hf). lia.
Qed.

Lemma above_step f c c' :
  above f c -> next_candidate c = Done c' -> above f c'.
Proof.
  intros Ha Hn m Hf m' Hc'.
  destruct (rank c) as [mc|] eqn:Hc.
  - pose proof (rank_step _ _ _ _ Hc Hn Hc'). specialize (Ha _ Hf _ Hc). lia.
  - apply rank_none in Hc as [msg Hmsg]. congruence.
Qed.

(** The calls that follow a collision on [f] never come back to [f]: they
    see the directory as if [f] were not in it. *)
Lemma getUniqeFilename_forgets D f m fuel c :
  rank f = Some m -> above f c ->
  getUniqeFilename fuel D c = getUniqeFilename fuel (D ∖ {[ f ]}) c.
Proof.
  intros Hf. revert c. induction fuel as [|fuel IH]; intros c Ha; [done|].
  rewrite !getUniqeFilename_unfold.
  pose proof (above_ne _ _ _ Hf Ha) as Hne.
  assert (Hiff : c ∈ D <-> c ∈ D ∖ {[ f ]})
    by (rewrite elem_of_difference, elem_of_singleton; tauto).
  destruct (decide (c ∈ D)) as [Hin|Hin].
  2:{ rewrite !bool_decide_eq_false_2 by tauto. done. }
  rewrite !bool_decide_eq_true_2 by tauto.
  destruct (next_candidate c) as [c'| |] eqn:Hn; [|done..].
  apply IH. by eapply above_step.
Qed.

Lemma getUniqeFilename_calls (n : nat) :
  forall (D : gset string) F fuel, (size D <= n)%nat -> (n < fuel)%nat ->
  getUniqeFilename fuel D F <> OutOfFuel.
Proof.
  induction n as [|n IH]; intros D F fuel Hs Hfuel.
  - destruct fuel as [|fuel]; [lia|]. rewrite getUniqeFilename_unfold.
    assert (D = ∅) as -> by (apply leibniz_equiv, size_empty_iff; lia).
    case_bool_decide as Hin; [by apply elem_of_empty in Hin|done].
  - destruct fuel as [|fuel]; [lia|]. rewrite getUniqeFilename_unfold.
    case_bool_decide as Hin; [|done].
    destruct (rank F) as [m|] eqn:Hr.
    2:{ apply rank_none in Hr as [msg ->]. done. }
    destruct (rank_some _ _ Hr) as [c Hn]. rewrite Hn.
    rewrite (getUniqeFilename_forgets D F m).
    + apply IH; [|lia].
      assert (size D = S (size (D ∖ {[ F ]}))); [|lia].
      rewrite (union_difference_L {[ F ]} D) at 1 by (by apply singleton_subseteq_l).
      rewrite size_union by apply disjoint_difference_r1, reflexivity.
      by rewrite size_singleton.
    + done.
    + intros m0 Hm0 m' Hm'. assert (m0 = m) as -> by congruence.
      by eapply rank_step.
Qed.

(** ** The values of [int] *)

Lemma wrap_in_int z : in_int (wrap z).
Proof.
  unfold in_int, wrap, minInt, maxInt.
  pose proof (Z.mod_pos_bound (z + 2 ^ 63) (2 ^ 64)). lia.
Qed.

Lemma wrap_id z : in_int z -> wrap z = z.
Proof.
  unfold in_int, wrap, minInt, maxInt. intros Hz.
  rewrite Z.mod_small by lia. lia.
Qed.

Lemma wrap_wrap_add a b : wrap (wrap a + b) = wrap (a + b).
Proof.
  unfold wrap. f_equal.
  replace ((a + 2 ^ 63) mod 2 ^ 64 - 2 ^ 63 + b + 2 ^ 63) with ((a + 2 ^ 63) mod 2 ^ 64 + b) by lia.
  rewrite Zplus_mod_idemp_l. f_equal. lia.
Qed.

(** ** The disambiguator on the system, one call at a time *)

Lemma nth_candidate_succ k : forall F,
  nth_candidate (S k) F =
  match nth_candidate k F with
  | Done c => next_candidate c
  | Fatal m => Fatal m
  | OutOfFuel => OutOfFuel
  end.
Proof.
  assert (E : forall k F, nth_candidate (S k) F =
            match next_candidate F with
            | Done c => nth_candidate k c
            | Fatal m => Fatal m
            | OutOfFuel => OutOfFuel
            end) by reflexivity.
  induction k as [|k IH]; intros F.
  - cbn [nth_candidate]. by destruct (next_candidate F).
  - rewrite (E (S k)), (E k F). destruct (next_candidate F) as [c| |]; [apply IH|done..].
Qed.

Lemma next_candidate_fuel f : next_candidate f <> OutOfFuel.
Proof.
  unfold next_candidate. destruct (find f) as [[[st d] e]|]; [|done].
  by destruct (counter_of d).
Qed.

Lemma uint_of_string_digits s :
  all_chars is_digit s = true -> exists d, NilEmpty.uint_of_string s = Some d.
Proof.
  induction s as [|c t IH]; [by eexists|]. cbn [all_chars]. intros [Hc Ht]%andb_prop.
  destruct (IH Ht) as [d Hd]. cbn [NilEmpty.uint_of_string]. rewrite Hd.
  destruct c as [[] [] [] [] [] [] [] []];
    first [ by vm_compute in Hc | by eexists ].
Qed.

Lemma digits_value_some d :
  all_chars is_digit d = true -> d <> "" -> exists n, digits_value d = Some n.
Proof.
  intros Hd Hne. destruct (uint_of_string_digits d Hd) as [u Hu].
  unfold digits_value. destruct d as [|c t]; [done|]. rewrite Hd, Hu. by eexists.
Qed.

Lemma next_candidate_fatal f msg : next_candidate f = Fatal msg -> abort_cause msg f.
Proof.
  unfold abort_cause, next_candidate. destruct (find f) as [[[st d] e]|] eqn:Hf.
  - destruct (counter_of d) as [i|] eqn:Hc; [done|]. intros [= <-]. right. split; [done|].
    destruct (find_sound _ _ _ _ Hf) as (_ & _ & Hd & _).
    pose proof (find_ext _ _ _ _ Hf) as ->.
    unfold counter_of in Hc. destruct (String.eqb_spec d "") as [|Hne]; [done|].
    destruct (digits_value_some d Hd Hne) as [n Hn].
    exists st, d, n. split; [by rewrite find_eq, Hf|]. split; [done|].
    destruct d as [|c t]; [done|]. cbn [all_chars] in Hd. apply andb_prop in Hd as [Hc0 _].
    rewrite Atoi_digits, Hn in Hc by done.
    destruct (n <=? maxInt) eqn:E; [done|]. by apply Z.leb_gt in E.
  - intros [= <-]. left. split; [done|].
    destruct (all_chars (not_char LF) (before_ext f)) eqn:E; [|done].
    apply find_defined_iff in E. done.
Qed.

Section Disambiguator.
  Context {St : Type} (sys : Sys.System St) (s : St) (path : string).

Lemma Sys_getUniqeFilename_unfold fuel file :
    Sys.getUniqeFilename (S fuel) sys s path file =
    if taken sys s path file then
      match next_candidate file with
      | Done c => Sys.getUniqeFilename fuel sys s path c
      | Fatal m => Fatal m
      | OutOfFuel => OutOfFuel
      end
    else Done file.
Proof.
  cbn [Sys.getUniqeFilename]. unfold taken.
  destruct (Sys.os_IsNotExist _); [done|]. cbn [negb].
  rewrite find_eq. unfold next_candidate, counter_of.
  destruct (find file) as [[[st d] e]|]; simpl; [|done].
  unfold nth_string; simpl.
  destruct (String.eqb d ""); [done|]. by destruct (Atoi d).
Qed.

Lemma all_taken_next F c k :
    next_candidate F = Done c -> all_taken sys s path F (S k) -> all_taken sys s path c k.
Proof.
  intros Hn Ha j c' Hj Hc'. apply (Ha (S j) c'); [lia|]. cbn [nth_candidate]. by rewrite Hn.
Qed.

(** The calls that find their name taken are passed over. *)
Lemma Sys_getUniqeFilename_skip k : forall F c,
    nth_candidate k F = Done c -> all_taken sys s path F k ->
    forall fuel, Sys.getUniqeFilename (k + fuel) sys s path F
                 = Sys.getUniqeFilename fuel sys s path c.
Proof.
  induction k as [|k IH]; intros F c Hk Ha fuel.
  - by injection Hk as ->.
  - cbn [nth_candidate] in Hk. destruct (next_candidate F) as [c1| |] eqn:Hn; [|done..].
    change (S k + fuel)%nat with (S (k + fuel)). rewrite Sys_getUniqeFilename_unfold.
    rewrite (Ha 0%nat F) by (lia || done). rewrite Hn.
    apply IH; [done|]. by eapply all_taken_next.
Qed.

(** What a result tells of the calls made. *)
Lemma Sys_getUniqeFilename_result fuel : forall F,
    match Sys.getUniqeFilename fuel sys s path F with
    | Done name =>
        exists k, (k < fuel)%nat /\ nth_candidate k F = Done name /\
          taken sys s path name = false /\ all_taken sys s path F k
    | Fatal msg =>
        exists k f, (k < fuel)%nat /\ nth_candidate k F = Done f /\
          taken sys s path f = true /\ next_candidate f = Fatal msg /\
          all_taken sys s path F k
    | OutOfFuel =>
        forall j, (j < fuel)%nat -> exists c, nth_candidate j F = Done c /\
          taken sys s path c = true
    end.
Proof.
  induction fuel as [|fuel IH]; intros F; [intros j Hj; lia|].
  rewrite Sys_getUniqeFilename_unfold.
  destruct (taken sys s path F) eqn:Ht.
  2:{ exists 0%nat. split; [lia|]. split; [done|]. split; [done|]. intros j c Hj. lia. }
  destruct (next_candidate F) as [c| |] eqn:Hn.
  - specialize (IH c).
    assert (Hshift : forall k, all_taken sys s path c k -> all_taken sys s path F (S k)).
    { intros k Ha [|j] c' Hj Hc'.
      - by injection Hc' as <-.
      - cbn [nth_candidate] in Hc'. rewrite Hn in Hc'. apply (Ha j); [lia|done]. }
    destruct (Sys.getUniqeFilename fuel sys s path c) as [name|msg|].
    + destruct IH as (k & Hk & Hc & Hfree & Ha). exists (S k).
      split; [lia|]. split; [cbn [nth_candidate]; by rewrite Hn|]. split; [done|]. by apply Hshift.
    + destruct IH as (k & f & Hk & Hc & Hf & Hm & Ha). exists (S k), f.
      split; [lia|]. split; [cbn [nth_candidate]; by rewrite Hn|]. split; [done|].
      split; [done|]. by apply Hshift.
    + intros [|j] Hj; [by exists F|].
      destruct (IH j) as (c' & Hc' & Ht'); [lia|]. exists c'.
      split; [cbn [nth_candidate]; by rewrite Hn|done].
  - exists 0%nat, F. split; [lia|]. split; [done|]. split; [done|]. split; [done|].
    intros j c Hj. lia.
  - by apply next_candidate_fuel in Hn.
Qed.

(** When every call finds its name taken, no call is the last one. *)
Lemma Sys_getUniqeFilename_diverges F :
    (forall k, exists c, nth_candidate k F = Done c /\ taken sys s path c = true) ->
    forall fuel, Sys.getUniqeFilename fuel sys s path F = OutOfFuel.
Proof.
  intros Hall fuel. pose proof (Sys_getUniqeFilename_result fuel F) as Hres.
  destruct (Sys.getUniqeFilename fuel sys s path F) as [name|msg|]; [| |done].
  - destruct Hres as (k & _ & Hk & Hfree & _).
    destruct (Hall k) as (c & Hc & Ht). congruence.
  - destruct Hres as (k & f & _ & Hk & _ & Hm & _).
    destruct (Hall (S k)) as (c & Hc & _). rewrite nth_candidate_succ, Hk in Hc. congruence.
Qed.

(** The directory as a finite set of names: the disambiguator on the
    system makes the calls of the disambiguator on the set, as long as
    [os.Stat] answers by the set. *)
Lemma Sys_getUniqeFilename_listed (D : gset string) fuel : forall F,
    (forall j c, (j < fuel)%nat -> nth_candidate j F = Done c ->
       taken sys s path c = bool_decide (c ∈ D)) ->
    Sys.getUniqeFilename fuel sys s path F = getUniqeFilename fuel D F.
Proof.
  induction fuel as [|fuel IH]; intros F Hag; [done|].
  rewrite Sys_getUniqeFilename_unfold, getUniqeFilename_unfold.
  rewrite (Hag 0%nat F) by (lia || done).
  destruct (bool_decide (F ∈ D)); [|done].
  destruct (next_candidate F) as [c| |] eqn:Hn; [|done..].
  apply IH. intros j c' Hj Hc'. apply (Hag (S j)); [lia|]. cbn [nth_candidate]. by rewrite Hn.
Qed.

End Disambiguator.

(** ** A counter that wrapped around *)

Lemma find_is_ext e : is_ext e = true -> find e = Some ("", "", e).
Proof.
  intros He. destruct e as [|c t]; [done|].
  rewrite find_cons. unfold tail_match. cbn [paren_match].
  cbn [is_ext] in He. apply andb_prop in He as [Hc Ht].
  assert (is_char "(" c = false) as ->.
  { unfold is_char in *. apply Ascii.eqb_eq in Hc as <-. done. }
  rewrite ext_match_is_ext. cbn [is_ext]. rewrite Hc, Ht. done.
Qed.

(** After the largest int the counter is written with a minus sign: the
    pattern reads no counter there, and the stem grows by the
    parenthesis. *)
Lemma find_wrapped s st d e :
  find s = Some (st, d, e) ->
  find (Sprintf_name st minInt e) = Some (st +:+ "(-9223372036854775808)", "", e).
Proof.
  intros Hf. destruct (find_sound _ _ _ _ Hf) as (_ & _ & _ & He).
  change (Sprintf_name st minInt e)
    with (st +:+ String "(" ("-9223372036854775808)" +:+ e)).
  rewrite (find_replace _ _ _ _ _ Hf) by done.
  change ("-9223372036854775808)" +:+ e) with (String "-" ("9223372036854775808)" +:+ e)).
  rewrite find_open_nondigit by done.
  assert (Hstep : forall c t, is_char "(" c = false -> is_char "." c = false ->
            not_char LF c = true ->
            find (String c t)
            = option_map (fun x => (String c (fst (fst x)), snd (fst x), snd x)) (find t)).
  { intros c t H1 H2 H3. rewrite find_cons. unfold tail_match. cbn [paren_match ext_match].
    rewrite H1, H2, H3. done. }
  cbn [String.append].
  rewrite !Hstep by done. rewrite (find_is_ext e He). done.
Qed.

(** ** Names beyond the longest name of a directory *)

Lemma clean_loop_end fuel rooted out dotdot : clean_loop fuel rooted "" out dotdot = out.
Proof. by destruct fuel. Qed.

Lemma clean_loop_separator fuel rooted p out dotdot :
  clean_loop (S fuel) rooted (String "/" p) out dotdot = clean_loop fuel rooted p out dotdot.
Proof. reflexivity. Qed.

Lemma clean_loop_element fuel rooted c p out dotdot :
  is_separator c = false -> Ascii.eqb c "." = false ->
  clean_loop (S fuel) rooted (String c p) out dotdot
  = clean_loop fuel rooted (snd (span (fun c => negb (is_separator c)) (String c p)))
      ((if (rooted && negb (String.length out =? 1)%nat)
           || (negb rooted && negb (String.length out =? 0)%nat)
        then out +:+ "/" else out)
       +:+ fst (span (fun c => negb (is_separator c)) (String c p)))
      dotdot.
Proof.
  intros Hc Hd. cbn [clean_loop]. rewrite Hc, Hd.
  destruct p as [|c1 p2]; cbn [andb]; by destruct (span _ _).
Qed.

(** The path of a plain name in the directory [out]. *)
Lemma Join_plain c t :
  is_separator c = false -> Ascii.eqb c "." = false -> no_separator t = true ->
  filepath_Join_unix ["out"; String c t] = "out/" +:+ String c t.
Proof.
  intros Hc Hd Ht. unfold filepath_Join_unix, filepath_Clean.
  cbn -[clean_loop String.length].
  change (String.length _) with (S (S (S (S (S (String.length t)))))).
  rewrite clean_loop_element by done. cbn [span is_separator Ascii.eqb Bool.eqb negb fst snd].
  rewrite clean_loop_separator, clean_loop_element by done.
  rewrite span_all by (cbn [all_chars]; by rewrite Hc).
  cbn [fst snd]. by rewrite clean_loop_end.
Qed.

Lemma itoa_no_separator z : no_separator (itoa z) = true.
Proof.
  assert (H : forall d, no_separator (NilEmpty.string_of_uint d) = true).
  { induction d; simpl; try done. }
  destruct z as [|p|p]; [done|apply H|]. unfold no_separator. cbn [itoa all_chars].
  apply andb_true_intro. split; [done|apply H].
Qed.

Lemma name_too_long_plain f : forall n,
  no_separator f = true -> name_too_long n f = (255 <? n + String.length f)%nat.
Proof.
  induction f as [|c f IH]; intros n; cbn [name_too_long String.length].
  - intros _. by rewrite Nat.add_0_r.
  - unfold no_separator. cbn [all_chars]. intros [Hc Hf]%andb_prop.
    apply negb_true_iff in Hc. rewrite Hc, IH by done. f_equal. lia.
Qed.

Lemma too_long_taken ok f : too_long f -> taken (disk ok) ∅ "out" f = true.
Proof.
  intros (t & st & d & e & i & -> & Ht & Hf & _ & Hlen).
  unfold taken, disk. cbn [Sys.filepath_Join Sys.os_Stat].
  rewrite Join_plain by done.
  destruct (find_sound _ _ _ _ Hf) as (Hs & _).
  assert (Hl : 255 < length_Z (String "a" t)).
  { rewrite Hs, !length_Z_app. pose proof (length_Z_nonneg (paren d)).
    pose proof (length_Z_nonneg e). lia. }
  change ("out/" +:+ String "a" t) with (String "o" (String "u" (String "t" (String "/" (String "a" t))))).
  cbn [name_too_long is_separator Ascii.eqb Bool.eqb Nat.ltb Nat.leb orb].
  rewrite name_too_long_plain by done.
  assert ((255 <? 1 + String.length t)%nat = true) as ->; [|done].
  apply Nat.ltb_lt. unfold length_Z in Hl. cbn [String.length] in Hl. lia.
Qed.

Lemma too_long_next f : too_long f -> exists c, next_candidate f = Done c /\ too_long c.
Proof.
  intros (t & st & d & e & i & Hname & Ht & Hf & Hc & Hlen).
  unfold next_candidate. rewrite Hf, Hc. eexists. split; [done|].
  destruct (find_sound _ _ _ _ Hf) as (Hs & _ & Hd & He).
  pose proof (counter_of_range _ _ Hd Hc) as Hr.
  destruct st as [|c0 st']; [by unfold length_Z in Hlen|].
  rewrite Hname in Hs. cbn [String.append] in Hs. injection Hs as <- ->.
  unfold no_separator in Ht. rewrite !all_chars_app in Ht.
  apply andb_prop in Ht as [Hst [_ He']%andb_prop].
  assert (Hsep : forall x, no_separator (st' +:+ "(" +:+ itoa x +:+ ")" +:+ e) = true).
  { intros x. unfold no_separator. rewrite !all_chars_app, Hst, He'.
    fold (no_separator (itoa x)). by rewrite itoa_no_separator. }
  destruct (decide (i = maxInt)) as [->|Hne].
  - rewrite int_add_max.
    exists (st' +:+ "(" +:+ itoa minInt +:+ ")" +:+ e), (String "a" st' +:+ "(-9223372036854775808)"), "", e, 0.
    split; [done|]. split; [apply Hsep|]. split; [by eapply find_wrapped|]. split; [done|].
    rewrite length_Z_app. pose proof (length_Z_nonneg "(-9223372036854775808)"). lia.
  - rewrite int_add_small by lia.
    destruct (itoa_pos_digits (i + 1)) as [Hd' Hne']; [lia|].
    exists (st' +:+ "(" +:+ itoa (i + 1) +:+ ")" +:+ e), (String "a" st'), (itoa (i + 1)), e, (i + 1).
    split; [done|]. split; [apply Hsep|]. split.
    { unfold Sprintf_name. by eapply find_candidate. }
    split; [|done]. unfold counter_of. destruct (String.eqb_spec (itoa (i + 1)) ""); [done|].
    apply Atoi_itoa. lia.
Qed.

Lemma too_long_all F : too_long F -> forall k, exists c, nth_candidate k F = Done c /\ too_long c.
Proof.
  intros HF. induction k as [|k (c & Hc & Hl)]; [by exists F|].
  destruct (too_long_next c Hl) as (c' & Hn & Hl'). exists c'.
  by rewrite nth_candidate_succ, Hc.
Qed.

Lemma too_long_example : too_long (repeat_char "a" 256).
Proof.
  exists (repeat_char "a" 255), (repeat_char "a" 256), "", "", 0.
  split; [done|]. split; [by vm_compute|]. split; [by vm_compute|]. split; [done|].
  by vm_compute.
Qed.

(** ** Where the calls end *)

Section Ends.
  Context {St : Type} (sys : Sys.System St) (s : St) (path : string).

Lemma Sys_getUniqeFilename_returns_at k F name fuel :
    nth_candidate k F = Done name -> taken sys s path name = false ->
    all_taken sys s path F k -> (k < fuel)%nat ->
    Sys.getUniqeFilename fuel sys s path F = Done name.
Proof.
  intros Hk Hfree Ha Hfuel. replace fuel with (k + S (fuel - k - 1))%nat by lia.
  rewrite (Sys_getUniqeFilename_skip sys s path k F name) by done.
  by rewrite Sys_getUniqeFilename_unfold, Hfree.
Qed.

Lemma Sys_getUniqeFilename_aborts_at k F f msg fuel :
    nth_candidate k F = Done f -> taken sys s path f = true ->
    next_candidate f = Fatal msg ->
    all_taken sys s path F k -> (k < fuel)%nat ->
    Sys.getUniqeFilename fuel sys s path F = Fatal msg.
Proof.
  intros Hk Ht Hm Ha Hfuel. replace fuel with (k + S (fuel - k - 1))%nat by lia.
  rewrite (Sys_getUniqeFilename_skip sys s path k F f) by done.
  by rewrite Sys_getUniqeFilename_unfold, Ht, Hm.
Qed.

(** More fuel does not change a result. *)
Lemma Sys_getUniqeFilename_stable fuel F fuel' :
    Sys.getUniqeFilename fuel sys s path F <> OutOfFuel -> (fuel <= fuel')%nat ->
    Sys.getUniqeFilename fuel' sys s path F = Sys.getUniqeFilename fuel sys s path F.
Proof.
  intros Hne Hle. pose proof (Sys_getUniqeFilename_result sys s path fuel F) as Hres.
  destruct (Sys.getUniqeFilename fuel sys s path F) as [name|msg|]; [| |done].
  - destruct Hres as (k & Hk & Hc & Hfree & Ha).
    apply (Sys_getUniqeFilename_returns_at k); [done..|lia].
  - destruct Hres as (k & f & Hk & Hc & Ht & Hm & Ha).
    apply (Sys_getUniqeFilename_aborts_at k F f); [done..|lia].
Qed.

(** In a directory of [n] names, when [os.Stat] finds among the first
    [n + 1] names asked for none but names of the directory, the call
    number [n + 1] at the latest is the last one. *)
Lemma Sys_getUniqeFilename_within (D : gset string) F :
    (forall j c, (j <= size D)%nat -> nth_candidate j F = Done c ->
       taken sys s path c = true -> c ∈ D) ->
    Sys.getUniqeFilename (S (size D)) sys s path F <> OutOfFuel.
Proof.
  intros Hin.
  set (D' := filter (fun f => taken sys s path f = true) D).
  rewrite (Sys_getUniqeFilename_listed sys s path D').
  - apply (getUniqeFilename_calls (size D)); [|lia].
    apply subseteq_size. intros x [_ Hx]%elem_of_filter. done.
  - intros j c Hj Hc. destruct (taken sys s path c) eqn:Ht; symmetry.
    + apply bool_decide_eq_true_2, elem_of_filter. split; [done|].
      apply (Hin j); [lia|done..].
    + apply bool_decide_eq_false_2. intros [Hx _]%elem_of_filter. congruence.
Qed.

End Ends.

(** On the disk of the examples a name of more than 255 bytes is never
    free: the calls on it do not end. *)
Lemma too_long_diverges ok F :
  too_long F -> forall fuel, Sys.getUniqeFilename fuel (disk ok) ∅ "out" F = OutOfFuel.
Proof.
  intros HF. apply Sys_getUniqeFilename_diverges. intros k.
  destruct (too_long_all F HF k) as (c & Hc & Hl). exists c. split; [done|].
  by apply too_long_taken.
Qed.

(** ** The filename disambiguator: claims *)

Lemma find_of_submatch s whole st d e :
  FindStringSubmatch r 3 s = Some [whole; st; d; e] -> find s = Some (st, d, e).
Proof.
  rewrite find_eq. destruct (find s) as [[[st' d'] e']|]; simpl; [|done].
  unfold report. simpl. by intros [= _ <- <- <-].
Qed.

Lemma submatch_of_find s st d e :
  find s = Some (st, d, e) -> FindStringSubmatch r 3 s = Some [s; st; d; e].
Proof. intros H. by rewrite find_eq, H. Qed.

Lemma getUniqeFilename_absent D F fuel : F ∉ D -> getUniqeFilename (S fuel) D F = Done F.
Proof. intros H. by rewrite getUniqeFilename_unfold, bool_decide_eq_false_2. Qed.

Lemma next_candidate_step D file st d e i fuel :
  file ∈ D -> find file = Some (st, d, e) -> counter_of d = Some i ->
  getUniqeFilename (S fuel) D file = getUniqeFilename fuel D (Sprintf_name st (int_add i 1) e).
Proof.
  intros Hin Hf Hc. rewrite getUniqeFilename_unfold, bool_decide_eq_true_2 by done.
  unfold next_candidate. by rewrite Hf, Hc.
Qed.

(** C1, the counterexamples, on a disk that holds the named files in the
    directory out.  A colliding name with a line feed in its stem is not
    matched by the pattern, and the program ends the process; with foo(1)
    on the disk already, the second application to foo skips the counter
    1; and for a name of 256 bytes, which no directory can hold, [os.Stat]
    fails with another error than the one of a missing file, for this name
    and for all that follow: the disambiguator returns nothing. *)
Lemma getUniqeFilename_returns_counterexample :
  (forall fuel,
     Sys.getUniqeFilename (S fuel) (disk true) (disk_with ["out/a" +:+ String LF "b"]) "out"
       ("a" +:+ String LF "b")
     = Fatal "Unexpected number of matches in file name regular expression") /\
  (forall fuel,
     Sys.getUniqeFilename (S fuel) (disk true) (disk_with ["out/foo(1)"]) "out" "foo"
     = Done "foo") /\
  (forall fuel,
     Sys.getUniqeFilename (S (S (S fuel))) (disk true) (disk_with ["out/foo(1)"; "out/foo"])
       "out" "foo"
     = Done "foo(2)") /\
  (forall fuel,
     Sys.getUniqeFilename fuel (disk true) ∅ "out" (repeat_char "a" 256) = OutOfFuel).
Proof.
  split; [|split; [|split]]; intros fuel.
  - rewrite Sys_getUniqeFilename_unfold.
    assert (taken (disk true) (disk_with ["out/a" +:+ String LF "b"]) "out"
              ("a" +:+ String LF "b") = true) as -> by (by vm_compute).
    done.
  - rewrite Sys_getUniqeFilename_unfold.
    assert (taken (disk true) (disk_with ["out/foo(1)"]) "out" "foo" = false) as ->
      by (by vm_compute).
    done.
  - apply (Sys_getUniqeFilename_returns_at _ _ _ 2); [by vm_compute|by vm_compute| |lia].
    intros j c Hj Hc. destruct j as [|[|j]]; [| |lia]; vm_compute in Hc;
      injection Hc as <-; by vm_compute.
  - apply too_long_diverges, too_long_example.
Qed.

(** C1 (amended).  For every state of the system, every directory [path]
    and every name [F], where a name counts as taken when [os.Stat] on its
    path does not answer that there is no such file: a name that is not
    taken is returned unchanged; whatever is returned is a name that is not
    taken, namely the first such name among the names of the calls, all
    names before it being taken; the process is ended only by a collision
    on a taken name that the pattern does not match or whose counter is
    beyond the range of int; and conversely the first name of the calls
    that is not taken is returned, by every run with more fuel than calls.
    Applied again to a name that is taken by now, whose counter [i] (0 if
    absent) is below the largest int and whose next name is not taken, it
    returns the name with the counter [i + 1]. *)
Theorem getUniqeFilename_returns {St : Type} (sys : Sys.System St) (s : St) (path F : string) :
  (taken sys s path F = false ->
   forall fuel, Sys.getUniqeFilename (S fuel) sys s path F = Done F) /\
  (forall fuel name,
     Sys.getUniqeFilename fuel sys s path F = Done name ->
     taken sys s path name = false /\
     exists k, (k < fuel)%nat /\ nth_candidate k F = Done name /\ all_taken sys s path F k) /\
  (forall fuel msg,
     Sys.getUniqeFilename fuel sys s path F = Fatal msg ->
     exists k f, (k < fuel)%nat /\ nth_candidate k F = Done f /\ all_taken sys s path F k /\
       taken sys s path f = true /\ abort_cause msg f) /\
  (forall k name,
     nth_candidate k F = Done name -> taken sys s path name = false ->
     all_taken sys s path F k ->
     forall fuel, (k < fuel)%nat -> Sys.getUniqeFilename fuel sys s path F = Done name) /\
  (forall (s' : St) stem cnt ext i,
     FindStringSubmatch r 3 F = Some [F; stem; cnt; ext] ->
     counter_of cnt = Some i -> i < maxInt ->
     taken sys s' path F = true ->
     taken sys s' path (Sprintf_name stem (i + 1) ext) = false ->
     forall fuel,
       Sys.getUniqeFilename (S (S fuel)) sys s' path F = Done (Sprintf_name stem (i + 1) ext)).
Proof.
  split; [|split; [|split; [|split]]].
  - intros Hfree fuel. by rewrite Sys_getUniqeFilename_unfold, Hfree.
  - intros fuel name Hu. pose proof (Sys_getUniqeFilename_result sys s path fuel F) as Hres.
    rewrite Hu in Hres. destruct Hres as (k & Hk & Hc & Hfree & Ha). eauto.
  - intros fuel msg Hu. pose proof (Sys_getUniqeFilename_result sys s path fuel F) as Hres.
    rewrite Hu in Hres. destruct Hres as (k & f & Hk & Hc & Ht & Hm & Ha).
    exists k, f. split; [done|]. split; [done|]. split; [done|]. split; [done|].
    by apply next_candidate_fatal.
  - intros k name Hk Hfree Ha fuel Hfuel. by apply (Sys_getUniqeFilename_returns_at _ _ _ k).
  - intros s' stem cnt ext i Hm Hc Hi Ht Hfree fuel.
    apply find_of_submatch in Hm as Hf.
    destruct (find_sound _ _ _ _ Hf) as (_ & _ & Hd & _).
    pose proof (counter_of_range _ _ Hd Hc) as Hr.
    rewrite Sys_getUniqeFilename_unfold, Ht. unfold next_candidate. rewrite Hf, Hc.
    rewrite int_add_small by lia. by rewrite Sys_getUniqeFilename_unfold, Hfree.
Qed.

Lemma getUniqeFilename_returns_witness :
  Sys.getUniqeFilename 3 (disk true) (disk_with ["out/foo.txt"; "out/foo(1).txt"]) "out" "foo.txt"
  = Done "foo(2).txt" /\
  Sys.getUniqeFilename 2 (disk true) (disk_with ["out/foo.txt"; "out/foo(1).txt"; "out/foo(2).txt"])
    "out" "foo(2).txt"
  = Done "foo(3).txt".
Proof.
  split.
  - apply (proj1 (proj2 (proj2 (proj2
      (getUniqeFilename_returns (disk true) (disk_with ["out/foo.txt"; "out/foo(1).txt"])
         "out" "foo.txt")))) 2%nat "foo(2).txt"); [vm_compute; reflexivity|vm_compute; reflexivity| |lia].
    intros j c Hj Hc. destruct j as [|[|j]]; [| |lia]; vm_compute in Hc;
      injection Hc as <-; vm_compute; reflexivity.
  - apply (proj2 (proj2 (proj2 (proj2
      (getUniqeFilename_returns (disk true) (disk_with ["out/foo.txt"; "out/foo(1).txt"])
         "out" "foo(2).txt"))))
      (disk_with ["out/foo.txt"; "out/foo(1).txt"; "out/foo(2).txt"]) "foo" "2" ".txt" 2);
      [vm_compute; reflexivity|vm_compute; reflexivity|vm_compute; reflexivity
      |vm_compute; reflexivity|vm_compute; reflexivity].
Defined.

(** C3, the counterexample.  The specification's parse of this colliding
    name exists (stem with a line feed, no counter, extension .txt), yet the
    program proposes nothing: it ends the process. *)
Lemma getUniqeFilename_collision_counterexample :
  final_ext ("re" +:+ String LF "port.txt") = ".txt" /\
  before_ext ("re" +:+ String LF "port.txt") = "re" +:+ String LF "port" /\
  forall fuel,
    getUniqeFilename (S fuel) {[ "re" +:+ String LF "port.txt" ]} ("re" +:+ String LF "port.txt")
    = Fatal "Unexpected number of matches in file name regular expression".
Proof.
  split; [done|]. split; [done|]. intros fuel. by rewrite getUniqeFilename_unfold.
Qed.

(** C3 (amended).  On a collision with a name that has no line feed before
    its extension, the pattern splits the name into a stem, a counter (the
    digits of a parenthesised integer right before the extension, taken
    whenever there is one) and the extension, which is the final segment
    that a dot opens; when the counter (0 if absent) is an int below the
    largest one, the disambiguator goes on with the name
    stem(counter+1)extension; a name that is free is returned.  With foo.txt
    present the result is foo(1).txt, with foo.txt and foo(1).txt present it
    is foo(2).txt, and with foo present it is foo(1). *)
Theorem getUniqeFilename_collision :
  (forall (D : gset string) (file : string),
     file ∈ D -> all_chars (not_char LF) (before_ext file) = true ->
     exists stem cnt,
       FindStringSubmatch r 3 file = Some [file; stem; cnt; final_ext file] /\
       file = stem +:+ paren cnt +:+ final_ext file /\
       all_chars is_digit cnt = true /\
       (cnt = "" -> forall x dd, dd <> "" -> all_chars is_digit dd = true ->
                    stem <> x +:+ "(" +:+ dd +:+ ")") /\
       (forall i, counter_of cnt = Some i -> i < maxInt ->
          forall fuel,
            getUniqeFilename (S fuel) D file
            = getUniqeFilename fuel D (Sprintf_name stem (i + 1) (final_ext file)))) /\
  (forall (D : gset string) (file : string) fuel,
     file ∉ D -> getUniqeFilename (S fuel) D file = Done file) /\
  (forall fuel, getUniqeFilename (S (S fuel)) {[ "foo.txt" ]} "foo.txt" = Done "foo(1).txt") /\
  (forall fuel,
     getUniqeFilename (S (S (S fuel))) ({[ "foo.txt" ]} ∪ {[ "foo(1).txt" ]}) "foo.txt"
     = Done "foo(2).txt") /\
  (forall fuel, getUniqeFilename (S (S fuel)) {[ "foo" ]} "foo" = Done "foo(1)").
Proof.
  split; [|split; [|split; [|split]]].
  - intros D file Hin Hnl. apply find_defined_iff in Hnl.
    destruct (find file) as [[[st d] e]|] eqn:Hf; [|done].
    pose proof (find_ext _ _ _ _ Hf) as ->.
    destruct (find_sound _ _ _ _ Hf) as (Hs & _ & Hd & _).
    exists st, d. split; [by apply submatch_of_find|]. split; [done|]. split; [done|].
    split.
    + intros -> x dd Hne Hdd. by eapply find_counter_maximal.
    + intros i Hc Hi fuel. pose proof (counter_of_range _ _ Hd Hc) as Hr.
      rewrite (next_candidate_step _ _ _ _ _ _ _ Hin Hf Hc). by rewrite int_add_small by lia.
  - intros D file fuel H. by apply getUniqeFilename_absent.
  - intros fuel. by rewrite !getUniqeFilename_unfold.
  - intros fuel. by rewrite !getUniqeFilename_unfold.
  - intros fuel. by rewrite !getUniqeFilename_unfold.
Qed.

Lemma getUniqeFilename_collision_witness :
  exists stem cnt,
    FindStringSubmatch r 3 "a.b(7).gz" = Some ["a.b(7).gz"; stem; cnt; final_ext "a.b(7).gz"] /\
    "a.b(7).gz" = stem +:+ paren cnt +:+ final_ext "a.b(7).gz" /\
    all_chars is_digit cnt = true /\
    (cnt = "" -> forall x dd, dd <> "" -> all_chars is_digit dd = true ->
                 stem <> x +:+ "(" +:+ dd +:+ ")") /\
    (forall i, counter_of cnt = Some i -> i < maxInt ->
       forall fuel,
         getUniqeFilename (S fuel) {[ "a.b(7).gz" ]} "a.b(7).gz"
         = getUniqeFilename fuel {[ "a.b(7).gz" ]} (Sprintf_name stem (i + 1) (final_ext "a.b(7).gz"))).
Proof.
  apply (proj1 getUniqeFilename_collision {[ "a.b(7).gz" ]} "a.b(7).gz").
  - by apply elem_of_singleton.
  - vm_compute. reflexivity.
Defined.

(** C10, the counterexamples.  On a disk that holds a name whose counter
    is beyond the range of int, the collision on it ends the process: no
    name is reached.  And on the empty disk the calls on a name of 256
    bytes never end: [os.Stat] cannot ask for such a name, its error is
    not the one of a missing file, and every next name is longer still. *)
Lemma getUniqeFilename_terminates_counterexample :
  Atoi "18446744073709551616" = None /\
  (forall fuel,
     Sys.getUniqeFilename (S fuel) (disk true) (disk_with ["out/a(18446744073709551616)"])
       "out" "a(18446744073709551616)"
     = Fatal "Unexpected result of ([0-9]) match in file name regular expression") /\
  Sys.os_Stat (disk true) ∅ (filepath_Join_unix ["out"; repeat_char "a" 256]) = Sys.Failed /\
  (forall fuel,
     Sys.getUniqeFilename fuel (disk true) ∅ "out" (repeat_char "a" 256) = OutOfFuel).
Proof.
  split; [done|]. split; [|split].
  - intros fuel. rewrite Sys_getUniqeFilename_unfold.
    assert (taken (disk true) (disk_with ["out/a(18446744073709551616)"]) "out"
              "a(18446744073709551616)" = true) as -> by (by vm_compute).
    done.
  - by vm_compute.
  - apply too_long_diverges, too_long_example.
Qed.

(** C10 (amended).  The disambiguator asks [os.Stat] for one name after
    the other, and a call on a taken name whose counter (0 if absent) is
    below the largest int goes on with the same stem and extension and the
    counter one larger.  It ends exactly when one of these calls finds its
    name not taken, or collides on a name that ends the process; when
    every name asked for is taken, as the names beyond the longest name of
    a directory are, it does not end.  In a directory of [n] names, when
    [os.Stat] finds among the first [n + 1] names asked for none but names
    of the directory, it ends: it returns a name that is not taken, or it
    ends the process on a taken name that the pattern does not match or
    whose counter is beyond the range of int. *)
Theorem getUniqeFilename_terminates_or_aborts {St : Type} (sys : Sys.System St) (s : St)
    (path F : string) :
  (forall D : gset string,
     (forall j c, (j <= size D)%nat -> nth_candidate j F = Done c ->
        taken sys s path c = true -> c ∈ D) ->
     exists N res,
       (forall fuel, (N <= fuel)%nat -> Sys.getUniqeFilename fuel sys s path F = res) /\
       match res with
       | Done name => taken sys s path name = false
       | Fatal msg => exists f, taken sys s path f = true /\ abort_cause msg f
       | OutOfFuel => False
       end) /\
  (forall fuel,
     Sys.getUniqeFilename fuel sys s path F <> OutOfFuel ->
     exists k c, (k < fuel)%nat /\ nth_candidate k F = Done c /\ all_taken sys s path F k /\
       (taken sys s path c = false \/
        taken sys s path c = true /\ exists msg, next_candidate c = Fatal msg)) /\
  ((forall k, exists c, nth_candidate k F = Done c /\ taken sys s path c = true) ->
   forall fuel, Sys.getUniqeFilename fuel sys s path F = OutOfFuel) /\
  (forall stem cnt ext i,
     FindStringSubmatch r 3 F = Some [F; stem; cnt; ext] ->
     counter_of cnt = Some i -> i < maxInt ->
     nth_candidate 1 F = Done (Sprintf_name stem (i + 1) ext) /\
     (forall fuel, taken sys s path F = true ->
        Sys.getUniqeFilename (S fuel) sys s path F
        = Sys.getUniqeFilename fuel sys s path (Sprintf_name stem (i + 1) ext)) /\
     FindStringSubmatch r 3 (Sprintf_name stem (i + 1) ext)
     = Some [Sprintf_name stem (i + 1) ext; stem; itoa (i + 1); ext] /\
     counter_of (itoa (i + 1)) = Some (i + 1)).
Proof.
  split; [|split; [|split]].
  - intros D HD. pose proof (Sys_getUniqeFilename_within sys s path D F HD) as Hne.
    exists (S (size D)), (Sys.getUniqeFilename (S (size D)) sys s path F).
    split; [intros fuel Hfuel; by apply Sys_getUniqeFilename_stable|].
    pose proof (Sys_getUniqeFilename_result sys s path (S (size D)) F) as Hres.
    destruct (Sys.getUniqeFilename (S (size D)) sys s path F) as [name|msg|]; [| |done].
    + by destruct Hres as (k & _ & _ & Hfree & _).
    + destruct Hres as (k & f & _ & _ & Ht & Hm & _). exists f. split; [done|].
      by apply next_candidate_fatal.
  - intros fuel Hne. pose proof (Sys_getUniqeFilename_result sys s path fuel F) as Hres.
    destruct (Sys.getUniqeFilename fuel sys s path F) as [name|msg|]; [| |done].
    + destruct Hres as (k & Hk & Hc & Hfree & Ha). exists k, name. eauto.
    + destruct Hres as (k & f & Hk & Hc & Ht & Hm & Ha). exists k, f.
      split; [done|]. split; [done|]. split; [done|]. right. eauto.
  - apply Sys_getUniqeFilename_diverges.
  - intros stem cnt ext i Hm Hc Hi. apply find_of_submatch in Hm as Hf.
    destruct (find_sound _ _ _ _ Hf) as (_ & _ & Hd & _).
    pose proof (counter_of_range _ _ Hd Hc) as Hr.
    destruct (itoa_pos_digits (i + 1)) as [Hd' Hne']; [lia|].
    assert (Hn : next_candidate F = Done (Sprintf_name stem (i + 1) ext)).
    { unfold next_candidate. rewrite Hf, Hc. by rewrite int_add_small by lia. }
    split; [|split; [|split]].
    + cbn [nth_candidate]. by rewrite Hn.
    + intros fuel Ht. by rewrite Sys_getUniqeFilename_unfold, Ht, Hn.
    + apply submatch_of_find. unfold Sprintf_name. by eapply find_candidate.
    + unfold counter_of. destruct (String.eqb_spec (itoa (i + 1)) ""); [done|].
      apply Atoi_itoa. lia.
Qed.

Lemma getUniqeFilename_terminates_or_aborts_witness :
  exists N res,
    (forall fuel, (N <= fuel)%nat ->
       Sys.getUniqeFilename fuel (disk true) (disk_with ["out/a.txt"; "out/a(1).txt"]) "out" "a.txt"
       = res) /\
    match res with
    | Done name =>
        taken (disk true) (disk_with ["out/a.txt"; "out/a(1).txt"]) "out" name = false
    | Fatal msg =>
        exists f, taken (disk true) (disk_with ["out/a.txt"; "out/a(1).txt"]) "out" f = true /\
                  abort_cause msg f
    | OutOfFuel => False
    end.
Proof.
  apply (proj1 (getUniqeFilename_terminates_or_aborts (disk true)
                  (disk_with ["out/a.txt"; "out/a(1).txt"]) "out" "a.txt")
           ({[ "a.txt" ]} ∪ {[ "a(1).txt" ]})).
  intros j c Hj Hc Ht. destruct j as [|[|[|j]]].
  - vm_compute in Hc. injection Hc as <-. apply elem_of_union. left. by apply elem_of_singleton.
  - vm_compute in Hc. injection Hc as <-. apply elem_of_union. right. by apply elem_of_singleton.
  - vm_compute in Hc. injection Hc as <-. vm_compute in Ht. discriminate Ht.
  - exfalso. revert Hj.
    rewrite size_union by (by apply disjoint_singleton_l, not_elem_of_singleton).
    rewrite !size_singleton. lia.
Defined.

(** ** The attachment walker *)







(** Go's division of a date in milliseconds by 1000 drops the part below a
    second. *)
Lemma pair_snd_eq {A B} (p : A * B) (b : B) : p.2 = b -> p = (p.1, b).
Proof. destruct p. simpl. congruence. Qed.

(** The worlds of a run, for a mailbox [svc]. *)
Section Walker.
  Context (svc : Service).














End Walker.


(** The scenario of the specification: two messages that each carry an
    attachment a.pdf leave a.pdf and a(1).pdf, and the totals are two
    messages and two attachments. *)
Lemma walker_example :
  (gmailDownloadAttachments example_svc 5 example_world).2
  = Done {| totalMsg := 2; totalAtt := 2 |} /\
  fs (gmailDownloadAttachments example_svc 5 example_world).1
  = {[ "a.pdf" := {| data := list_ascii_of_string "hi"; atime := time_Unix 1700000000 5;
                     mtime := time_Unix 1500000000 0 |};
       "a(1).pdf" := {| data := list_ascii_of_string "hello"; atime := time_Unix 1700000000 5;
                        mtime := time_Unix 1600000000 0 |} ]}.
Proof. split; [vm_compute; reflexivity|]. apply map_eq. intros k. vm_compute. reflexivity. Qed.
(** ** The attachment walker on the system *)

Ltac unfold_Sys :=
  unfold mbind, Sys.M_bind, Sys.bind, Sys.or_fatal, Sys.get_state, Sys.log_Printf,
    Sys.lift_outcome, Sys.ret, Sys.fatal, Sys.out_of_fuel, Sys.write_or_fatal,
    Sys.chtimes_or_fatal, Sys.os_Chtimes; cbn [fst snd Sys.state Sys.calls].

Section Journal.
  Context {St : Type} (sys : Sys.System St) (svc : Service) (outDir : string).













End Journal.

(** ** The time of a file *)





(** ** A file name that leaves the output directory *)

Lemma clean_loop_parent fuel p :
  clean_loop (S fuel) false (String "." (String "." (String "/" p))) "out" 0
  = clean_loop fuel false (String "/" p) "" 0.
Proof. reflexivity. Qed.

(** The path of the file name [../x] in the directory [out] is [x]. *)
Lemma Join_parent c t :
  is_separator c = false -> Ascii.eqb c "." = false -> no_separator t = true ->
  filepath_Join_unix ["out"; "../" +:+ String c t] = String c t.
Proof.
  intros Hc Hd Ht. unfold filepath_Join_unix, filepath_Clean.
  cbn -[clean_loop String.length].
  change (String.length _) with (S (S (S (S (S (S (S (S (String.length t))))))))).
  rewrite clean_loop_element by done. cbn [span is_separator Ascii.eqb Bool.eqb negb fst snd].
  rewrite clean_loop_separator.
  change ("" +:+ "out") with "out". rewrite clean_loop_parent, clean_loop_separator.
  rewrite clean_loop_element by done.
  rewrite span_all by (cbn [all_chars]; by rewrite Hc).
  cbn [fst snd]. by rewrite clean_loop_end.
Qed.

(** ** The authorization listener: claims *)

Lemma eqb_false_ne (a b : string) : a <> b -> String.eqb a b = false.
Proof. intros H. by destruct (String.eqb_spec a b). Qed.

(** C4.  A request to /favicon.ico is answered with 404 and sends no code.
    Every request whose state does not equal the expected state sends no
    code, and when it is not a request to /favicon.ico it is answered with
    500.  So whatever requests arrive, as long as none of them carries the
    expected state, the waiting caller receives no code. *)
Theorem handler_rejects_mismatched_state (randState : string) :
  (forall req, URL_Path req = "/favicon.ico" ->
     status (handler randState req) = 404 /\ sent (handler randState req) = None) /\
  (forall req, FormValue req "state" <> randState ->
     sent (handler randState req) = None /\
     (URL_Path req <> "/favicon.ico" -> status (handler randState req) = 500)) /\
  (forall reqs, (forall req, req ∈ reqs -> FormValue req "state" <> randState) ->
     received randState reqs = None).
Proof.
  assert (Hmis : forall req, FormValue req "state" <> randState ->
     sent (handler randState req) = None /\
     (URL_Path req <> "/favicon.ico" -> status (handler randState req) = 500)).
  { intros req Hst. unfold handler.
    destruct (String.eqb_spec (URL_Path req) "/favicon.ico") as [Hp|Hp]; [done|].
    by rewrite (eqb_false_ne _ _ Hst). }
  split; [|split; [done|]].
  - intros req Hp. unfold handler. by rewrite Hp.
  - induction reqs as [|req reqs IH]; intros Hall; simpl; [done|].
    destruct (Hmis req) as [-> _]; [apply Hall; by left|].
    apply IH. intros q Hq. apply Hall. by right.
Qed.

Lemma handler_rejects_mismatched_state_witness :
  sent (handler "st1" {| URL_Path := "/"; Form := [("state", "st0"); ("code", "c")] |}) = None /\
  ("/" <> "/favicon.ico" ->
   status (handler "st1" {| URL_Path := "/"; Form := [("state", "st0"); ("code", "c")] |}) = 500).
Proof.
  apply (proj1 (proj2 (handler_rejects_mismatched_state "st1"))
           {| URL_Path := "/"; Form := [("state", "st0"); ("code", "c")] |}).
  vm_compute. discriminate.
Defined.

(** ** The token cache: claims *)

Lemma bytes_of_app a b : bytes_of (a +:+ b) = bytes_of a ++ bytes_of b.
Proof. unfold bytes_of. induction a as [|c a IH]; simpl; [done|]. by rewrite IH. Qed.

Lemma fnv_Write_app h a b : fnv_Write h (a ++ b) = fnv_Write (fnv_Write h a) b.
Proof. apply fold_left_app. Qed.

Lemma fnv_Write_range h bytes : 0 <= h < 2 ^ 32 -> 0 <= fnv_Write h bytes < 2 ^ 32.
Proof.
  revert h. induction bytes as [|c bytes IH]; intros h Hh; simpl; [done|].
  apply IH. unfold fnv_byte. apply Z.mod_pos_bound. lia.
Qed.

Lemma cache_hash_concat config :
  cache_hash config
  = fnv_Write fnv_New32a
      (bytes_of (ClientID config +:+ ClientSecret config +:+ strings_Join (Scopes config) " ")).
Proof. unfold cache_hash, fnv_Sum32. by rewrite !bytes_of_app, !fnv_Write_app. Qed.

(** The order of the scopes counts: two configs that differ in the order
    of their scopes only get two hashes and two cache files.  The config
    that [main] builds has one scope. *)
Lemma tokenCacheFile_scope_order :
  cache_hash (example_config ["b"; "a"] "") = 917168877 /\
  cache_hash (example_config ["a"; "b"] "") = 3089393845 /\
  tokenCacheFile example_env (example_config ["b"; "a"] "")
  = "/home/u/.cache/gdownload-tok917168877" /\
  tokenCacheFile example_env (example_config ["a"; "b"] "")
  = "/home/u/.cache/gdownload-tok3089393845".
Proof. repeat split; vm_compute; reflexivity. Qed.

(** C6, the counterexample.  On a system that [osUserCacheDir] does not
    know, here OpenBSD, the cache file of the config with the one scope
    of the program is a file of the working directory, whatever the
    directory for the caches of the user is; on Linux it is under the
    directory .cache of the home directory. *)
Lemma tokenCacheFile_directory_counterexample :
  osUserCacheDir (example_env_on "openbsd") = "." /\
  osUserCacheDir_logged (example_env_on "openbsd")
  = ["TODO: osUserCacheDir on GOOS " +:+ String QUOTE ("openbsd" +:+ String QUOTE "")] /\
  tokenCacheFile (example_env_on "openbsd") (example_config [GmailReadonlyScope] "")
  = "gdownload-tok4222816687" /\
  tokenCacheFile (example_env_on "linux") (example_config [GmailReadonlyScope] "")
  = "/home/u/.cache/gdownload-tok4222816687".
Proof. repeat split; vm_compute; reflexivity. Qed.

(** C6 (amended).  The cache file is a function of the process and of the
    client id, the client secret and the scope list of the config, in the
    order the config lists them; with the one scope that the program
    asks for there is nothing to order.  It is the join of a directory
    with the escaped name made of the program name, -tok and the decimal
    32-bit FNV-1a hash of the client id, the client secret and the scopes
    joined by blanks, one after the other.  The directory is
    Library/Caches under the home directory on darwin, .cache under the
    home directory on linux and freebsd, and on every other system the
    working directory, with a line of the log that says so. *)
Theorem tokenCacheFile_deterministic (env : Env) (config : Config) :
  let h := fnv_Write fnv_New32a
             (bytes_of (ClientID config +:+ ClientSecret config
                        +:+ strings_Join (Scopes config) " ")) in
  tokenCacheFile env config
  = filepath_Join env [osUserCacheDir env;
                       url_QueryEscape (progName env +:+ "-tok" +:+ itoa h)] /\
  0 <= h < 2 ^ 32 /\
  (forall config',
     ClientID config' = ClientID config -> ClientSecret config' = ClientSecret config ->
     Scopes config' = Scopes config ->
     tokenCacheFile env config' = tokenCacheFile env config) /\
  (forall scope, Scopes config = [scope] -> strings_Join (Scopes config) " " = scope) /\
  (GOOS env = "darwin" ->
   osUserCacheDir env = filepath_Join env [HOME env; "Library"; "Caches"] /\
   osUserCacheDir_logged env = []) /\
  (GOOS env = "linux" \/ GOOS env = "freebsd" ->
   osUserCacheDir env = filepath_Join env [HOME env; ".cache"] /\
   osUserCacheDir_logged env = []) /\
  (GOOS env <> "darwin" -> GOOS env <> "linux" -> GOOS env <> "freebsd" ->
   osUserCacheDir env = "." /\
   osUserCacheDir_logged env = ["TODO: osUserCacheDir on GOOS " +:+ Sprintf_q env (GOOS env)]).
Proof.
  cbv zeta. split; [|split; [|split; [|split; [|split; [|split]]]]].
  - unfold tokenCacheFile. by rewrite cache_hash_concat.
  - apply fnv_Write_range. unfold fnv_New32a, offset32. lia.
  - intros config' H1 H2 H3. unfold tokenCacheFile, cache_hash. by rewrite H1, H2, H3.
  - by intros scope ->.
  - intros H. unfold osUserCacheDir, osUserCacheDir_logged. by rewrite H.
  - intros [H|H]; unfold osUserCacheDir, osUserCacheDir_logged; by rewrite H.
  - intros H1 H2 H3. unfold osUserCacheDir, osUserCacheDir_logged.
    by rewrite !eqb_false_ne by done.
Qed.

Lemma tokenCacheFile_deterministic_witness :
  (osUserCacheDir (example_env_on "openbsd") = "." /\
   osUserCacheDir_logged (example_env_on "openbsd")
   = ["TODO: osUserCacheDir on GOOS "
      +:+ Sprintf_q (example_env_on "openbsd") (GOOS (example_env_on "openbsd"))]) /\
  (osUserCacheDir (example_env_on "freebsd")
   = filepath_Join (example_env_on "freebsd") [HOME (example_env_on "freebsd"); ".cache"] /\
   osUserCacheDir_logged (example_env_on "freebsd") = []) /\
  tokenCacheFile example_env (example_config [GmailReadonlyScope] "http://127.0.0.1:4711")
  = tokenCacheFile example_env (example_config [GmailReadonlyScope] "").
Proof.
  split; [|split].
  - apply (proj2 (proj2 (proj2 (proj2 (proj2 (proj2
             (tokenCacheFile_deterministic (example_env_on "openbsd")
                (example_config [GmailReadonlyScope] "")))))))); discriminate.
  - apply (proj1 (proj2 (proj2 (proj2 (proj2 (proj2
             (tokenCacheFile_deterministic (example_env_on "freebsd")
                (example_config [GmailReadonlyScope] "")))))))). by right.
  - apply (proj1 (proj2 (proj2
             (tokenCacheFile_deterministic example_env (example_config [GmailReadonlyScope] ""))))
             (example_config [GmailReadonlyScope] "http://127.0.0.1:4711")); reflexivity.
Defined.

(** C9.  When the cache file cannot be created, [saveToken] logs a warning
    and returns.  When the file is created and the encoder fails, nothing
    is cached, no warning is logged, and the log says that the token was
    saved.  In both cases the client gets the token: the process goes on. *)
Theorem saveToken_failure (env : Env) (config : Config) (file : string) (token : Token) (err : string) :
  saveToken {| Create_error := Some err; Encode_error := None |} file token
  = {| logged := ["Warning: failed to cache oauth token: " +:+ err]; cached := None |} /\
  saveToken {| Create_error := None; Encode_error := Some err |} file token
  = {| logged := ["Saved oauth token for later use in file: " +:+ file]; cached := None |} /\
  (forall io stored,
     tokenFromFile env stored = None ->
     (newOAuthClient env io config stored (Done token)).1 = Done token).
Proof.
  split; [done|]. split; [done|].
  intros io stored H. unfold newOAuthClient. rewrite H. by destruct (cacheToken env).
Qed.

(** ** The generator of byte literals *)

Module GobinFacts.
Import Gobin GobinAux.

Lemma tokens_item_hexx b fuel t e :
  tokens (S fuel) (item hexx b +:+ String "," t) e = TInt (Z_of_byte b) :: tokens fuel (String "," t) true.
Proof. destruct b as [[] [] [] [] [] [] [] []]; reflexivity. Qed.

Lemma tokens_item_hex b fuel t e :
  tokens (S fuel) (item hex b +:+ String "," t) e = TInt (Z_of_byte b) :: tokens fuel (String "," t) true.
Proof. destruct b as [[] [] [] [] [] [] [] []]; reflexivity. Qed.

Lemma tokens_item_dec b fuel t e :
  tokens (S fuel) (item dec b +:+ String "," t) e = TInt (Z_of_byte b) :: tokens fuel (String "," t) true.
Proof. destruct b as [[] [] [] [] [] [] [] []]; reflexivity. Qed.



Lemma string_length_app (a b : string) :
  String.length (a +:+ b) = (String.length a + String.length b)%nat.
Proof. induction a as [|c a IH]; simpl; [done|]. by rewrite IH. Qed.

Lemma tokenizes_nil e : tokenizes "" e [].
Proof. intros [|fuel] H; [simpl in H; lia|done]. Qed.

Lemma tokenizes_blank c t e ts :
  c = " "%char \/ c = TAB -> tokenizes t e ts -> tokenizes (String c t) e ts.
Proof.
  intros Hc Ht [|fuel] H; simpl in H; [lia|].
  destruct Hc as [-> | ->]; simpl; apply Ht; lia.
Qed.

Lemma tokenizes_LF t ts : tokenizes t false ts -> tokenizes (String LF t) false ts.
Proof. intros Ht [|fuel] H; simpl in H; [lia|]. simpl. apply Ht. lia. Qed.

Lemma tokenizes_comma t e ts :
  tokenizes t false ts -> tokenizes (String "," t) e (TComma :: ts).
Proof. intros Ht [|fuel] H; simpl in H; [lia|]. simpl. f_equal. apply Ht. lia. Qed.

Lemma tokenizes_lbrace t e ts :
  tokenizes t false ts -> tokenizes (String "{" t) e (TLBrace :: ts).
Proof. intros Ht [|fuel] H; simpl in H; [lia|]. simpl. f_equal. apply Ht. lia. Qed.

Lemma tokenizes_rbrace e : tokenizes "}" e [TRBrace].
Proof. intros [|[|fuel]] H; simpl in H; try lia; done. Qed.

Lemma tokenizes_item f b t e ts :
  numeric f = true ->
  tokenizes (String "," t) true ts ->
  tokenizes (item f b +:+ String "," t) e (TInt (Z_of_byte b) :: ts).
Proof.
  intros Hf Ht [|fuel] H; [lia|]. rewrite string_length_app in H.
  assert (tokens (S fuel) (item f b +:+ String "," t) e
          = TInt (Z_of_byte b) :: tokens fuel (String "," t) true) as ->.
  { destruct f; try done; [apply tokens_item_hexx|apply tokens_item_hex|apply tokens_item_dec]. }
  f_equal. apply Ht. 
  assert (1 <= String.length (item f b))%nat; [|lia].
  destruct f; try done; destruct b as [[] [] [] [] [] [] [] []]; vm_compute; lia.
Qed.

Lemma tokenizes_items f bs t e ts :
  numeric f = true -> bs <> [] ->
  tokenizes t false ts ->
  tokenizes (strings_Join (map (item f) bs) ", " +:+ String "," t) e (item_tokens bs ++ ts).
Proof.
  intros Hf Hne Ht. revert e. induction bs as [|b bs IH]; intros e; [done|].
  destruct bs as [|b' bs].
  - simpl. apply tokenizes_item; [done|]. by apply tokenizes_comma.
  - change (strings_Join (map (item f) (b :: b' :: bs)) ", ")
      with (item f b +:+ ", " +:+ strings_Join (map (item f) (b' :: bs)) ", ").
    rewrite !append_assoc. simpl.
    apply tokenizes_item; [done|]. apply tokenizes_comma. apply tokenizes_blank; [by left|].
    by apply IH.
Qed.

Lemma item_tokens_app a b : item_tokens (a ++ b) = item_tokens a ++ item_tokens b.
Proof. apply flat_map_app. Qed.

Lemma getGetLine_numeric f chunk :
  numeric f = true ->
  getGetLine f chunk = String TAB (strings_Join (map (item f) (elems chunk)) ", " +:+ ",").
Proof. by destruct f. Qed.

Lemma byte_roundtrip b : in_range 0 255 (Z_of_byte b) = true /\ byte_of_Z (Z_of_byte b) = b.
Proof. destruct b as [[] [] [] [] [] [] [] []]; split; reflexivity. Qed.

Lemma elements_of_items bs : elements_of (item_tokens bs ++ [TRBrace]) = Some bs.
Proof.
  induction bs as [|b bs IH]; [done|].
  change (item_tokens (b :: bs) ++ [TRBrace])
    with (TInt (Z_of_byte b) :: TComma :: (item_tokens bs ++ [TRBrace])).
  destruct (byte_roundtrip b) as [Hr Hb].
  change (elements_of (TInt (Z_of_byte b) :: TComma :: (item_tokens bs ++ [TRBrace])))
    with (if in_range 0 255 (Z_of_byte b)
          then option_map (cons (byte_of_Z (Z_of_byte b))) (elements_of (item_tokens bs ++ [TRBrace]))
          else None).
  by rewrite Hr, IH, Hb.
Qed.

Lemma lines_tokenizes fl indent buffer :
  numeric (format fl) = true -> 1 <= step fl ->
  indent = "" \/ indent = String TAB "" ->
  forall fuel i t ts,
    0 <= i -> (Z.to_nat (len buffer - i) <= fuel)%nat ->
    tokenizes t false ts ->
    exists body,
      lines fuel fl indent buffer i = Done body /\
      tokenizes (body +:+ t) false (item_tokens (drop (Z.to_nat i) (elems buffer)) ++ ts).
Proof.
  intros Hf Hstep Hind. induction fuel as [|fuel IH]; intros i t ts Hi Hfuel Ht.
  - exists "". split.
    + simpl. destruct (i <? len buffer) eqn:E; [|done]. apply Z.ltb_lt in E. lia.
    + rewrite drop_ge; [done|]. unfold len in *. lia.
  - simpl. destruct (i <? len buffer) eqn:E.
    2:{ exists "". split; [done|]. apply Z.ltb_ge in E.
        rewrite drop_ge; [done|]. unfold len in *. lia. }
    apply Z.ltb_lt in E.
    set (to := min (i + step fl) (len buffer)).
    assert (Hto : i < to <= len buffer /\ (to = i + step fl \/ (to = len buffer /\ len buffer <= i + step fl))).
    { unfold to, min. destruct (i + step fl <? len buffer) eqn:E'.
      - apply Z.ltb_lt in E'. lia.
      - apply Z.ltb_ge in E'. lia. }
    destruct (i <? 0) eqn:E0; [apply Z.ltb_lt in E0; lia|].
    destruct (to <? i) eqn:E1; [apply Z.ltb_lt in E1; lia|]. simpl.
    destruct (IH (i + step fl) t ts) as (rest & Hrest & Htok); [lia|lia|done|].
    rewrite Hrest. eexists. split; [done|].
    assert (Hsplit : drop (Z.to_nat i) (elems buffer)
                     = elems (subslice buffer i to) ++ drop (Z.to_nat (i + step fl)) (elems buffer)).
    { unfold subslice. simpl. destruct Hto as [_ [-> | [-> Hle]]].
      - replace (Z.to_nat (i + step fl)) with (Z.to_nat i + Z.to_nat (i + step fl - i))%nat by lia.
        rewrite <- drop_drop. by rewrite take_drop.
      - rewrite (drop_ge _ (Z.to_nat (i + step fl))) by (unfold len in *; lia).
        rewrite app_nil_r. symmetry. apply take_ge. rewrite length_drop. unfold len in *. lia. }
    assert (Hne : elems (subslice buffer i to) <> []).
    { unfold subslice. simpl. intros Hnil. apply (f_equal length) in Hnil.
      rewrite length_take, length_drop in Hnil. simpl in Hnil. unfold len in *. lia. }
    rewrite Hsplit, item_tokens_app, <- app_assoc.
    rewrite getGetLine_numeric by done. rewrite !append_assoc.
    destruct Hind as [-> | ->]; simpl; rewrite ?append_assoc; simpl;
      [|apply tokenizes_blank; [by right|]];
      (apply tokenizes_blank; [by left|]; apply tokenizes_blank; [by right|];
       apply tokenizes_items; [done|done|]; by apply tokenizes_LF).
Qed.

(** X19.  The three numeric formats do give back every input, whatever the
    capacity of the buffer, when at least one byte is written per line. *)
Theorem numeric_round_trip fl buffer :
  numeric (format fl) = true -> 1 <= step fl ->
  read_back fl buffer = Some (elems buffer).
Proof.
  intros Hf Hstep. unfold read_back.
  set (indent := if initOnly fl then String TAB "" else "").
  assert (Hind : indent = "" \/ indent = String TAB "") by (unfold indent; destruct (initOnly fl); auto).
  destruct (lines_tokenizes fl indent buffer Hf Hstep Hind (S (length (elems buffer))) 0
              (indent +:+ "}") [TRBrace]) as (body & -> & Htok).
  - lia.
  - unfold len. lia.
  - destruct Hind as [-> | ->]; simpl.
    + apply tokenizes_rbrace.
    + apply tokenizes_blank; [by right|]. apply tokenizes_rbrace.
  - unfold go_bytes, literal. fold indent.
    assert (getParents (format fl) = "{}") as -> by (by destruct (format fl)).
    assert (Hall : tokenizes (String "{" (String LF (body +:+ indent +:+ "}"))) false
                     (TLBrace :: item_tokens (elems buffer) ++ [TRBrace])).
    { apply tokenizes_lbrace, tokenizes_LF. exact Htok. }
    change (strip_prefix "[]byte" ("[]byte" +:+ ?x)) with (Some x).
    change (String (nth 0 (list_ascii_of_string "{}") " "%char) "" +:+ NL +:+ body +:+ indent
            +:+ String (nth 1 (list_ascii_of_string "{}") " "%char) "")
      with (String "{" (String LF (body +:+ indent +:+ "}"))).
    cbv beta iota. rewrite Hall by lia. apply elements_of_items.
Qed.

(** C8.  For the empty input, whatever the capacity of its buffer, and
    either string format, the generator ends and writes the header, the
    conversion to a byte slice with nothing between its parentheses but a
    line feed, and the footer.  A conversion without an operand is not an
    expression of Go: no bytes are read back from what was written, so the
    empty input does not make the round trip in the formats shexx and
    shex. *)
Theorem string_formats_fail (fl : Flags) (cap : Z) (fuel : nat) :
  format fl = shexx \/ format fl = shex ->
  main fuel fl {| elems := []; capacity := cap |}
  = Done (header fl +:+ literal fl "" +:+ footer fl) /\
  go_bytes (literal fl "") = None.
Proof.
  intros Hf. split.
  - unfold main. by destruct fuel.
  - unfold literal. destruct Hf as [-> | ->]; by destruct (initOnly fl).
Qed.

Lemma string_formats_fail_witness :
  main 1 (example_flags shexx true) (example_buffer "" 0)
  = Done (header (example_flags shexx true)
          +:+ literal (example_flags shexx true) ""
          +:+ footer (example_flags shexx true)) /\
  go_bytes (literal (example_flags shexx true) "") = None.
Proof.
  apply (string_formats_fail (example_flags shexx true) 0 1). left. reflexivity.
Defined.

(** Runs on a three-byte input written two bytes per line, and on the empty
    input.  A string format with spare capacity in the buffer ends its last
    line with a plus sign, and nothing is read back; without spare capacity
    the five formats give back the input; the numeric formats give back
    the empty input. *)
Lemma examples :
  read_back (example_flags shexx false) (example_buffer "hi!" 1) = None /\
  read_back (example_flags shex true) (example_buffer "hi!" 512) = None /\
  read_back (example_flags hexx true) (example_buffer "hi!" 0) = Some (list_ascii_of_string "hi!") /\
  read_back (example_flags hex false) (example_buffer "hi!" 0) = Some (list_ascii_of_string "hi!") /\
  read_back (example_flags dec false) (example_buffer "hi!" 0) = Some (list_ascii_of_string "hi!") /\
  read_back (example_flags shexx true) (example_buffer "hi!" 0) = Some (list_ascii_of_string "hi!") /\
  read_back (example_flags shex false) (example_buffer "hi!" 0) = Some (list_ascii_of_string "hi!") /\
  read_back (example_flags hexx true) (example_buffer "" 512) = Some [] /\
  read_back (example_flags hex false) (example_buffer "" 512) = Some [] /\
  read_back (example_flags dec false) (example_buffer "" 512) = Some [].
Proof. repeat split; vm_compute; reflexivity. Qed.

End GobinFacts.

(** ** The filename disambiguator: further properties *)

(** X1.  In a directory of [n] names the disambiguator makes at most
    [n + 1] calls, when [os.Stat] finds among the first [n + 1] names
    asked for none but names of the directory (as it does while these
    names are no longer than a name may be): with more fuel than the
    directory has names it ends, with a name that is not taken or with a
    fatal error on a taken name. *)
Theorem getUniqeFilename_call_bound {St : Type} (sys : Sys.System St) (s : St) (path : string)
    (D : gset string) (F : string) (fuel : nat) :
  (forall j c, (j <= size D)%nat -> nth_candidate j F = Done c ->
     taken sys s path c = true -> c ∈ D) ->
  (size D < fuel)%nat ->
  match Sys.getUniqeFilename fuel sys s path F with
  | Done name => taken sys s path name = false
  | Fatal msg => exists f, taken sys s path f = true /\ abort_cause msg f
  | OutOfFuel => False
  end.
Proof.
  intros HD Hfuel. pose proof (Sys_getUniqeFilename_within sys s path D F HD) as Hne.
  rewrite (Sys_getUniqeFilename_stable sys s path (S (size D)) F fuel) by (done || lia).
  pose proof (Sys_getUniqeFilename_result sys s path (S (size D)) F) as Hres.
  destruct (Sys.getUniqeFilename (S (size D)) sys s path F) as [name|msg|]; [| |done].
  - by destruct Hres as (k & _ & _ & Hfree & _).
  - destruct Hres as (k & f & _ & _ & Ht & Hm & _). exists f. split; [done|].
    by apply next_candidate_fatal.
Qed.

Lemma getUniqeFilename_call_bound_witness :
  Sys.getUniqeFilename 3 (disk true) (disk_with ["out/foo.txt"; "out/foo(1).txt"]) "out" "foo.txt"
  = Done "foo(2).txt" /\
  match Sys.getUniqeFilename 3 (disk true) (disk_with ["out/foo.txt"; "out/foo(1).txt"]) "out"
          "foo.txt" with
  | Done name =>
      taken (disk true) (disk_with ["out/foo.txt"; "out/foo(1).txt"]) "out" name = false
  | Fatal msg =>
      exists f, taken (disk true) (disk_with ["out/foo.txt"; "out/foo(1).txt"]) "out" f = true /\
                abort_cause msg f
  | OutOfFuel => False
  end.
Proof.
  split; [vm_compute; reflexivity|].
  assert (Hsize : size ({[ "foo.txt" ]} ∪ {[ "foo(1).txt" ]} : gset string) = 2%nat).
  { rewrite size_union by (by apply disjoint_singleton_l, not_elem_of_singleton).
    by rewrite !size_singleton. }
  apply (getUniqeFilename_call_bound (disk true) (disk_with ["out/foo.txt"; "out/foo(1).txt"])
           "out" ({[ "foo.txt" ]} ∪ {[ "foo(1).txt" ]}) "foo.txt" 3).
  - intros j c Hj Hc Ht. rewrite Hsize in Hj. destruct j as [|[|[|j]]]; [| | |lia].
    + vm_compute in Hc. injection Hc as <-. apply elem_of_union. left. by apply elem_of_singleton.
    + vm_compute in Hc. injection Hc as <-. apply elem_of_union. right. by apply elem_of_singleton.
    + vm_compute in Hc. injection Hc as <-. vm_compute in Ht. discriminate Ht.
  - rewrite Hsize. lia.
Defined.

(** ** What the result keeps of the requested name *)

Lemma itoa_nodot z : all_chars (not_char ".") (itoa z) = true.
Proof.
  destruct z as [|p|p]; [done| |].
  - apply digits_nodot, string_of_uint_digits.
  - cbn [itoa all_chars]. apply andb_true_intro. split; [done|].
    apply digits_nodot, string_of_uint_digits.
Qed.

(** The candidate has the extension of the name it comes from, and begins
    with its stem. *)
Lemma next_candidate_keeps file st d e c :
  find file = Some (st, d, e) -> next_candidate file = Done c ->
  final_ext c = final_ext file /\ (exists rest, c = st +:+ rest) /\
  forall st' d' e', find c = Some (st', d', e') -> exists x, st' = st +:+ x.
Proof.
  intros Hf. unfold next_candidate. rewrite Hf.
  destruct (counter_of d) as [i|] eqn:Hc; [|done]. intros [= <-].
  destruct (find_sound _ _ _ _ Hf) as (Hfile & Hst & Hd & He).
  pose proof (find_ext _ _ _ _ Hf) as Hext. split; [|split].
  - rewrite <- Hext. unfold Sprintf_name.
    destruct (String.eqb_spec e "") as [->|Hne].
    + rewrite append_nil_r. apply final_ext_nodot.
      symmetry in Hext. apply final_ext_nil_nodot in Hext.
      rewrite Hfile in Hext. rewrite !all_chars_app in Hext.
      apply andb_prop in Hext as [Hs _].
      rewrite !all_chars_app, Hs, itoa_nodot. done.
    + rewrite <- !append_assoc. by apply final_ext_app.
  - by eexists.
  - intros st' d' e'. unfold Sprintf_name.
    replace (st +:+ "(" +:+ itoa (int_add i 1) +:+ ")" +:+ e)
      with (st +:+ String "(" ((itoa (int_add i 1) +:+ ")") +:+ e))
      by (by rewrite append_assoc).
    rewrite (find_replace _ _ _ _ _ Hf).
    + destruct (find (String "(" _)) as [[[a b] c']|]; [|done].
      cbn. intros [= <- _ _]. by eexists.
    + rewrite all_chars_app, itoa_nodot. done.
Qed.

Lemma getUniqeFilename_keeps_aux D fuel :
  forall F name, getUniqeFilename fuel D F = Done name ->
  final_ext name = final_ext F /\
  forall st d e, find F = Some (st, d, e) -> exists rest, name = st +:+ rest.
Proof.
  induction fuel as [|fuel IH]; intros F name; [done|].
  rewrite getUniqeFilename_unfold. case_bool_decide as Hin.
  2:{ intros [= <-]. split; [done|]. intros st d e Hf.
      destruct (find_sound _ _ _ _ Hf) as (-> & _). by eexists. }
  destruct (next_candidate F) as [c| |] eqn:Hn; [|done..]. intros Hu.
  destruct (IH _ _ Hu) as [Hext Hstem].
  assert (exists st d e, find F = Some (st, d, e)) as (st & d & e & Hf).
  { unfold next_candidate in Hn. destruct (find F) as [[[st d] e]|]; [|done]. by do 3 eexists. }
  destruct (next_candidate_keeps _ _ _ _ _ Hf Hn) as (Hext' & (rest & ->) & Hpre).
  split; [congruence|]. intros st0 d0 e0 Hf0. assert (st0 = st) as -> by congruence.
  destruct (decide (name = st +:+ rest)) as [->|Hne]; [by eexists|].
  destruct (find (st +:+ rest)) as [[[st' d'] e']|] eqn:Hf'.
  - destruct (Hpre _ _ _ eq_refl) as [x ->].
    destruct (Hstem _ _ _ eq_refl) as [rest' ->]. rewrite append_assoc. by eexists.
  - destruct fuel as [|fuel']; [done|]. rewrite getUniqeFilename_unfold in Hu.
    case_bool_decide; [|congruence].
    unfold next_candidate in Hu. by rewrite Hf' in Hu.
Qed.

(** X3.  The result has the extension of the requested name and begins with
    its stem. *)
Theorem getUniqeFilename_keeps_extension (D : gset string) (F : string) (fuel : nat) (name : string) :
  getUniqeFilename fuel D F = Done name ->
  final_ext name = final_ext F /\
  forall stem cnt ext, FindStringSubmatch r 3 F = Some [F; stem; cnt; ext] ->
    exists rest, name = stem +:+ rest.
Proof.
  intros Hu. destruct (getUniqeFilename_keeps_aux _ _ _ _ Hu) as [He Hs].
  split; [done|]. intros stem cnt ext Hm. apply find_of_submatch in Hm. by eapply Hs.
Qed.

Lemma getUniqeFilename_keeps_extension_witness :
  getUniqeFilename 2 {[ "report.v2.pdf" ]} "report.v2.pdf" = Done "report.v2(1).pdf" /\
  final_ext "report.v2(1).pdf" = final_ext "report.v2.pdf" /\
  forall stem cnt ext,
    FindStringSubmatch r 3 "report.v2.pdf" = Some ["report.v2.pdf"; stem; cnt; ext] ->
    exists rest, "report.v2(1).pdf" = stem +:+ rest.
Proof.
  assert (H : getUniqeFilename 2 {[ "report.v2.pdf" ]} "report.v2.pdf" = Done "report.v2(1).pdf")
    by (vm_compute; reflexivity).
  split; [exact H|].
  exact (getUniqeFilename_keeps_extension _ _ _ _ H).
Defined.

(** The counter of a candidate is read back by the next call. *)
Lemma candidate_parse file st d e n :
  find file = Some (st, d, e) -> 0 < n <= maxInt ->
  find (Sprintf_name st n e) = Some (st, itoa n, e) /\ counter_of (itoa n) = Some n.
Proof.
  intros Hf Hn. destruct (itoa_pos_digits n) as [Hd Hne]; [lia|]. split.
  - unfold Sprintf_name. by rewrite (find_candidate _ _ _ _ _ Hf).
  - unfold counter_of. destruct (String.eqb_spec (itoa n) ""); [done|]. by apply Atoi_itoa.
Qed.

Lemma first_free_aux (D : gset string) (k : nat) :
  forall file st d e i,
    file ∈ D -> find file = Some (st, d, e) -> counter_of d = Some i -> 0 <= i ->
    i + Z.of_nat k < maxInt ->
    (forall j : nat, (0 < j <= k)%nat -> Sprintf_name st (i + Z.of_nat j) e ∈ D) ->
    Sprintf_name st (i + Z.of_nat k + 1) e ∉ D ->
    forall fuel, (k + 2 <= fuel)%nat ->
      getUniqeFilename fuel D file = Done (Sprintf_name st (i + Z.of_nat k + 1) e).
Proof.
  induction k as [|k IH]; intros file st d e i Hin Hf Hc Hi Hmax Htaken Hfree fuel Hfuel.
  - destruct fuel as [|[|fuel]]; [lia..|].
    rewrite (next_candidate_step _ _ _ _ _ _ _ Hin Hf Hc).
    rewrite int_add_small by (unfold maxInt in *; lia).
    replace (i + Z.of_nat 0 + 1) with (i + 1) in * by lia.
    by apply getUniqeFilename_absent.
  - destruct fuel as [|fuel]; [lia|].
    rewrite (next_candidate_step _ _ _ _ _ _ _ Hin Hf Hc).
    rewrite int_add_small by lia.
    destruct (candidate_parse _ _ _ _ (i + 1) Hf) as [Hf' Hc']; [lia|].
    replace (i + Z.of_nat (S k) + 1) with ((i + 1) + Z.of_nat k + 1) in * by lia.
    apply (IH _ st (itoa (i + 1)) e (i + 1)); try done; try lia.
    + replace (i + 1) with (i + Z.of_nat 1) by lia. apply Htaken. lia.
    + intros j Hj. replace (i + 1 + Z.of_nat j) with (i + Z.of_nat (S j)) by lia.
      apply Htaken. lia.
Qed.

(** X2.  The result is the candidate with the first free counter: when the
    colliding name has the counter [i] (0 if absent), the names with the
    counters [i + 1] to [i + k] are taken and the one with [i + k + 1] is
    free, that one is returned. *)
Theorem getUniqeFilename_first_free (D : gset string) (F stem cnt ext : string) (i : Z) (k : nat) :
  F ∈ D ->
  FindStringSubmatch r 3 F = Some [F; stem; cnt; ext] ->
  counter_of cnt = Some i ->
  i + Z.of_nat k < maxInt ->
  (forall j : nat, (0 < j <= k)%nat -> Sprintf_name stem (i + Z.of_nat j) ext ∈ D) ->
  Sprintf_name stem (i + Z.of_nat k + 1) ext ∉ D ->
  forall fuel, (k + 2 <= fuel)%nat ->
    getUniqeFilename fuel D F = Done (Sprintf_name stem (i + Z.of_nat k + 1) ext).
Proof.
  intros Hin Hm Hc Hmax Htaken Hfree fuel Hfuel.
  apply find_of_submatch in Hm.
  destruct (find_sound _ _ _ _ Hm) as (_ & _ & Hd & _).
  destruct (counter_of_range _ _ Hd Hc) as [Hi _].
  by eapply first_free_aux.
Qed.

Lemma getUniqeFilename_first_free_witness :
  getUniqeFilename 4 ({[ "foo.txt" ]} ∪ {[ "foo(1).txt" ]} ∪ {[ "foo(2).txt" ]}) "foo.txt"
  = Done "foo(3).txt".
Proof.
  apply (getUniqeFilename_first_free _ "foo.txt" "foo" "" ".txt" 0 2).
  - apply elem_of_union_l, elem_of_union_l. by apply elem_of_singleton.
  - vm_compute. reflexivity.
  - reflexivity.
  - vm_compute. reflexivity.
  - intros [|[|[|j]]] Hj; [lia| | |lia].
    + apply elem_of_union_l, elem_of_union_r. by apply elem_of_singleton.
    + apply elem_of_union_r. by apply elem_of_singleton.
  - intros Hin. apply elem_of_union in Hin as [Hin|Hin].
    + apply elem_of_union in Hin as [Hin|Hin]; by apply elem_of_singleton in Hin.
    + by apply elem_of_singleton in Hin.
  - lia.
Defined.

(** X4.  A colliding name with the largest counter of [int]: the addition
    wraps around, and the candidate carries the smallest [int] in its
    parentheses. *)
Theorem getUniqeFilename_counter_overflow (D : gset string) (F stem cnt ext : string) :
  F ∈ D ->
  FindStringSubmatch r 3 F = Some [F; stem; cnt; ext] ->
  counter_of cnt = Some maxInt ->
  (forall fuel, getUniqeFilename (S fuel) D F
                = getUniqeFilename fuel D (stem +:+ "(-9223372036854775808)" +:+ ext)) /\
  (stem +:+ "(-9223372036854775808)" +:+ ext ∉ D ->
   forall fuel, getUniqeFilename (S (S fuel)) D F
                = Done (stem +:+ "(-9223372036854775808)" +:+ ext)).
Proof.
  intros Hin Hm Hc. apply find_of_submatch in Hm.
  assert (Hstep : forall fuel, getUniqeFilename (S fuel) D F
                = getUniqeFilename fuel D (stem +:+ "(-9223372036854775808)" +:+ ext)).
  { intros fuel. rewrite (next_candidate_step _ _ _ _ _ _ _ Hin Hm Hc).
    by rewrite int_add_max. }
  split; [done|]. intros Hfree fuel. rewrite Hstep. by apply getUniqeFilename_absent.
Qed.

Lemma getUniqeFilename_counter_overflow_witness :
  getUniqeFilename 2 {[ "a(9223372036854775807).txt" ]} "a(9223372036854775807).txt"
  = Done "a(-9223372036854775808).txt".
Proof.
  apply (proj2 (getUniqeFilename_counter_overflow {[ "a(9223372036854775807).txt" ]}
                  "a(9223372036854775807).txt" "a" "9223372036854775807" ".txt"
                  ltac:(by apply elem_of_singleton) ltac:(vm_compute; reflexivity)
                  ltac:(vm_compute; reflexivity))).
  intros Hin. by apply elem_of_singleton in Hin.
Defined.

(** X5.  On a colliding name the first fatal error is raised exactly when a
    line feed stands before the extension of the name; a match has four
    elements, so the length test of the program never fails. *)
Theorem getUniqeFilename_pattern_mismatch (file : string) :
  (FindStringSubmatch r 3 file = None <->
   all_chars (not_char LF) (before_ext file) = false) /\
  (forall matches, FindStringSubmatch r 3 file = Some matches ->
     length matches = 4%nat /\ nth_string matches 0 = file /\
     file = nth_string matches 1 +:+ paren (nth_string matches 2) +:+ nth_string matches 3) /\
  (forall D fuel, file ∈ D -> all_chars (not_char LF) (before_ext file) = false ->
     getUniqeFilename (S fuel) D file
     = Fatal "Unexpected number of matches in file name regular expression").
Proof.
  assert (Hnone : FindStringSubmatch r 3 file = None <->
                  all_chars (not_char LF) (before_ext file) = false).
  { rewrite find_eq. pose proof (find_defined_iff file) as Hiff.
    destruct (find file) as [x|]; cbn.
    - split; [done|]. intros Hf. destruct Hiff as [Hiff _].
      rewrite Hiff in Hf; [done|done].
    - split; [|done]. intros _. apply not_true_is_false. intros Ht.
      by apply Hiff in Ht. }
  split; [done|]. split.
  - intros matches. rewrite find_eq.
    destruct (find file) as [[[st d] e]|] eqn:Hf; [|done]. cbn. intros [= <-].
    destruct (find_sound _ _ _ _ Hf) as (Hfile & _). by cbn.
  - intros D fuel Hin Hlf. apply Hnone in Hlf. cbn [getUniqeFilename].
    rewrite bool_decide_eq_true_2 by done. by rewrite Hlf.
Qed.

(** ** The attachment walker: further properties *)

Lemma count_files_app a b : count_files (a ++ b) = (count_files a + count_files b)%nat.
Proof.
  induction a as [|[line|name data [|]|name a0 m ok] a IH]; cbn [app count_files]; lia.
Qed.

Section Totals.
  Context {St : Type} (sys : Sys.System St) (svc : Service) (outDir : string).

Lemma tallied_refl tot (w : Sys.run St) :
  in_int (totalMsg tot) -> in_int (totalAtt tot) -> tallied tot w tot w 0.
Proof.
  intros Hm Ha. exists []. rewrite app_nil_r, !Z.add_0_r, !wrap_id by done. done.
Qed.

Lemma tallied_trans tot (w : Sys.run St) tot1 w1 tot2 w2 m1 m2 :
  tallied tot w tot1 w1 m1 -> tallied tot1 w1 tot2 w2 m2 ->
  tallied tot w tot2 w2 (m1 + m2).
Proof.
  intros (e1 & Ht1 & Hm1 & Ha1) (e2 & Ht2 & Hm2 & Ha2).
  exists (e1 ++ e2). rewrite count_files_app. split; [|split].
  - by rewrite Ht2, Ht1, app_assoc.
  - rewrite Hm2, Hm1, wrap_wrap_add. f_equal. lia.
  - rewrite Ha2, Ha1, wrap_wrap_add. f_equal. lia.
Qed.

Lemma tallied_in_int tot (w : Sys.run St) tot' w' m :
  tallied tot w tot' w' m -> in_int (totalMsg tot') /\ in_int (totalAtt tot').
Proof.
  intros (e & _ & -> & ->). split; apply wrap_in_int.
Qed.

Lemma download_part_tallied fuel id msg part tot n w w' tot' n' :
  in_int (totalMsg tot) -> in_int (totalAtt tot) ->
  Sys.download_part sys svc outDir fuel id msg part (tot, n) w = (w', Done (tot', n')) ->
  tallied tot w tot' w' 0.
Proof.
  intros Hm Ha. unfold Sys.download_part.
  destruct (String.eqb_spec (Filename part) "") as [He|Hne].
  { intros [= <- <- <-]. by apply tallied_refl. }
  unfold_Sys.
  destruct (Attachments_Get svc id (AttachmentId part)) as [body|] eqn:Hb; [|done].
  destruct (URLEncoding_DecodeString body) as [bytes|] eqn:Hd; [|done].
  destruct (Sys.getUniqeFilename fuel sys (Sys.state w) outDir (Filename part))
    as [name| |] eqn:Hu; [|done..].
  destruct (Sys.ioutil_WriteFile sys (Sys.state w) _ bytes) as [s1 [|]] eqn:Hw;
    cbn [fst snd Sys.state Sys.calls]; [|done].
  destruct (Sys.syscall_UtimesNano sys s1 _ _ _) as [s2 [|]] eqn:Hc;
    cbn [fst snd Sys.state Sys.calls]; [|done].
  intros [= <- <- <-]. cbn [Sys.calls totalMsg totalAtt].
  eexists [_; _; _]. cbn [count_files]. split; [by rewrite <- !app_assoc|].
  rewrite Z.add_0_r, wrap_id by done. done.
Qed.

Lemma download_parts_tallied fuel id msg parts :
  forall tot n w w' tot' n',
  in_int (totalMsg tot) -> in_int (totalAtt tot) ->
  Sys.download_parts sys svc outDir fuel id msg parts (tot, n) w = (w', Done (tot', n')) ->
  tallied tot w tot' w' 0.
Proof.
  induction parts as [|part rest IH]; intros tot n w w' tot' n' Hm Ha;
    cbn [Sys.download_parts].
  { intros [= <- <- <-]. by apply tallied_refl. }
  unfold mbind, Sys.M_bind, Sys.bind.
  destruct (Sys.download_part sys svc outDir fuel id msg part (tot, n) w)
    as [w1 [[tot1 n1]|m|]] eqn:H1; [|done..].
  apply download_part_tallied in H1; [|done..]. intros H2.
  destruct (tallied_in_int _ _ _ _ _ H1). apply IH in H2; [|done..].
  apply (tallied_trans _ _ _ _ _ _ 0 0 H1 H2).
Qed.

Lemma download_message_tallied fuel id tot w w' tot' :
  in_int (totalMsg tot) -> in_int (totalAtt tot) ->
  Sys.download_message sys svc outDir fuel id tot w = (w', Done tot') ->
  tallied tot w tot' w' 1.
Proof.
  intros Hm Ha. unfold Sys.download_message. unfold_Sys.
  destruct (Messages_Get svc id) as [msg|] eqn:Hmsg; [|done].
  match goal with
  | |- context [Sys.download_parts sys svc outDir fuel id msg (Parts msg) (?t, ?n) ?w0] =>
      destruct (Sys.download_parts sys svc outDir fuel id msg (Parts msg) (t, n) w0)
        as [w1 [[tot1 n1]|m|]] eqn:H1; [|done..]
  end.
  intros [= <- <-]. cbn [fst].
  apply download_parts_tallied in H1; [|apply wrap_in_int|done].
  refine (tallied_trans tot w _ _ tot1 w1 1 0 _ H1).
  eexists [_]. cbn [Sys.calls totalMsg totalAtt count_files]. split; [done|]. split; [done|].
  rewrite Z.add_0_r, wrap_id by done. done.
Qed.

Lemma download_messages_tallied fuel ids :
  forall tot w w' tot',
  in_int (totalMsg tot) -> in_int (totalAtt tot) ->
  Sys.download_messages sys svc outDir fuel ids tot w = (w', Done tot') ->
  tallied tot w tot' w' (length ids).
Proof.
  induction ids as [|id rest IH]; intros tot w w' tot' Hm Ha; cbn [Sys.download_messages].
  { intros [= <- <-]. by apply tallied_refl. }
  unfold mbind, Sys.M_bind, Sys.bind.
  destruct (Sys.download_message sys svc outDir fuel id tot w) as [w1 [tot1|m|]] eqn:H1;
    [|done..].
  apply download_message_tallied in H1; [|done..]. intros H2.
  destruct (tallied_in_int _ _ _ _ _ H1). apply IH in H2; [|done..].
  apply (tallied_trans _ _ _ _ _ _ 1 (length rest) H1 H2).
Qed.

Lemma download_pages_tallied fuel :
  forall t tot w w' tot',
  in_int (totalMsg tot) -> in_int (totalAtt tot) ->
  Sys.download_pages sys svc outDir fuel t tot w = (w', Done tot') ->
  exists ids, pages svc t ids /\ tallied tot w tot' w' (length ids).
Proof.
  induction fuel as [|fuel IH]; intros t tot w w' tot' Hm Ha; [done|].
  cbn [Sys.download_pages]. unfold mbind, Sys.M_bind, Sys.bind, Sys.or_fatal, Sys.ret, Sys.fatal.
  destruct (Messages_List svc t) as [[ids next]|] eqn:Hl; [|done]. cbn [fst snd].
  destruct (Sys.download_messages sys svc outDir (S fuel) ids tot w) as [w1 [tot1|m|]] eqn:H1;
    [|done..].
  apply download_messages_tallied in H1; [|done..].
  destruct (String.eqb_spec next "") as [->|Hne].
  - intros [= <- <-]. exists ids. split; [by constructor|done].
  - intros H2. destruct (tallied_in_int _ _ _ _ _ H1).
    apply IH in H2 as (rest & Hp & H2); [|done..].
    exists (ids ++ rest). split; [by econstructor|].
    rewrite length_app. by eapply tallied_trans.
Qed.

(** X7.  A run that completes has visited the pages of the listing up to
    the page without a next page token.  Its last call is the log line
    with the two totals: the total of the messages is the number of the
    messages on these pages, and the total of the attachments is the
    number of the successful writes of the run, both as an [int]. *)
Theorem walker_totals fuel (w w' : Sys.run St) tot :
  Sys.gmailDownloadAttachments sys svc outDir fuel w = (w', Done tot) ->
  exists ids evs,
    pages svc "" ids /\
    Sys.calls w' = Sys.calls w ++ evs ++
      [Sys.Printf ("Downloaded " +:+ itoa (totalAtt tot) +:+ " attachments from "
                   +:+ itoa (totalMsg tot) +:+ " messages")] /\
    totalMsg tot = wrap (Z.of_nat (length ids)) /\
    totalAtt tot = wrap (Z.of_nat (count_files evs)) /\
    (Z.of_nat (length ids) <= maxInt -> totalMsg tot = Z.of_nat (length ids)) /\
    (Z.of_nat (count_files evs) <= maxInt -> totalAtt tot = Z.of_nat (count_files evs)).
Proof.
  unfold Sys.gmailDownloadAttachments, mbind, Sys.M_bind, Sys.bind, Sys.log_Printf, Sys.ret.
  destruct (Sys.download_pages sys svc outDir fuel "" _ w) as [w1 [tot1|m|]] eqn:H1; [|done..].
  intros [= <- <-]. cbn [Sys.calls].
  apply download_pages_tallied in H1 as (ids & Hp & evs & Ht & Hm & Ha);
    [|unfold in_int, minInt, maxInt; simpl; lia..].
  cbn [totalMsg totalAtt] in Hm, Ha. rewrite Z.add_0_l in Hm, Ha.
  exists ids, evs. rewrite Ht, <- app_assoc.
  do 4 (split; [done|]). split; intros Hle.
  - rewrite Hm. apply wrap_id. unfold in_int, minInt, maxInt in *. lia.
  - rewrite Ha. apply wrap_id. unfold in_int, minInt, maxInt in *. lia.
Qed.

End Totals.

Lemma walker_totals_witness :
  exists w',
    Sys.gmailDownloadAttachments (disk true) example_svc "out" 5 (start ∅)
    = (w', Done {| totalMsg := 2; totalAtt := 2 |}) /\
    exists ids evs,
      pages example_svc "" ids /\
      Sys.calls w' = Sys.calls (start (∅ : gmap string disk_file)) ++ evs ++
        [Sys.Printf ("Downloaded " +:+ itoa 2 +:+ " attachments from " +:+ itoa 2 +:+ " messages")] /\
      2 = wrap (Z.of_nat (length ids)) /\
      2 = wrap (Z.of_nat (count_files evs)) /\
      (Z.of_nat (length ids) <= maxInt -> 2 = Z.of_nat (length ids)) /\
      (Z.of_nat (count_files evs) <= maxInt -> 2 = Z.of_nat (count_files evs)).
Proof.
  assert (H : Sys.gmailDownloadAttachments (disk true) example_svc "out" 5 (start ∅)
              = ((Sys.gmailDownloadAttachments (disk true) example_svc "out" 5 (start ∅)).1,
                 Done {| totalMsg := 2; totalAtt := 2 |}))
    by (apply pair_snd_eq; vm_compute; reflexivity).
  exists (Sys.gmailDownloadAttachments (disk true) example_svc "out" 5 (start ∅)).1.
  split; [exact H|].
  exact (walker_totals (disk true) example_svc "out" 5 (start ∅) _ _ H).
Defined.

(** ** encoding/base64: the decoder and the encoder *)

Lemma Z_of_byte_range c : 0 <= Z_of_byte c < 256.
Proof.
  unfold Z_of_byte. pose proof (N_ascii_bounded c). lia.
Qed.

Lemma byte_of_Z_of_byte c : byte_of_Z (Z_of_byte c) = c.
Proof.
  unfold byte_of_Z, Z_of_byte. rewrite Z.mod_small by apply Z_of_byte_range.
  by rewrite N2Z.id, ascii_N_embedding.
Qed.

Lemma land_shiftl_low x b n : 0 <= n -> 0 <= b < 2 ^ n -> Z.land (Z.shiftl x n) b = 0.
Proof.
  intros Hn Hb. apply Z.bits_inj'. intros m Hm.
  rewrite Z.land_spec, Z.bits_0, Z.shiftl_spec by done.
  destruct (Z.lt_ge_cases m n) as [Hlt|Hge].
  - rewrite Z.testbit_neg_r by lia. done.
  - destruct (Z.eq_dec b 0) as [->|Hb0]; [by rewrite Z.bits_0, andb_false_r|].
    rewrite (Z.bits_above_log2 b m); [by rewrite andb_false_r|lia|].
    apply Z.log2_lt_pow2; [lia|]. apply Z.lt_le_trans with (2 ^ n); [lia|].
    apply Z.pow_le_mono_r; lia.
Qed.

Lemma lor_shiftl_add x b n : 0 <= n -> 0 <= b < 2 ^ n -> Z.lor (Z.shiftl x n) b = x * 2 ^ n + b.
Proof.
  intros Hn Hb. rewrite <- Z.lxor_lor, <- Z.add_nocarry_lxor by (by apply land_shiftl_low).
  by rewrite Z.shiftl_mul_pow2.
Qed.

Lemma land_63 x : Z.land x 63 = x mod 64.
Proof. apply (Z.land_ones x 6). lia. Qed.

Lemma decodeMap_encode v : decodeMap (encode_sextet v) = Some (v mod 64).
Proof.
  unfold encode_sextet. rewrite land_63.
  pose proof (Z.mod_pos_bound v 64 ltac:(lia)) as Hv.
  destruct (v mod 64) as [|p|p]; [reflexivity| |lia].
  do 6 (destruct p as [p|p|]; try lia; try reflexivity).
Qed.

Lemma list_ind3 {A} (P : list A -> Prop) :
  P [] -> (forall a, P [a]) -> (forall a b, P [a; b]) ->
  (forall a b c l, P l -> P (a :: b :: c :: l)) ->
  forall l, P l.
Proof.
  intros H0 H1 H2 H3.
  assert (H : forall l, P l /\ (forall a, P (a :: l)) /\ (forall a b, P (a :: b :: l))).
  { induction l as [|c l (IH0 & IH1 & IH2)]; [by repeat split|].
    split; [apply IH1|]. split; [intros a; apply IH2|]. intros a b. by apply H3. }
  intros l. apply H.
Qed.

(** Four characters of the alphabet give the three bytes of their group. *)
Lemma decode_group v0 v1 v2 v3 t :
  decode_from (String (encode_sextet v0) (String (encode_sextet v1)
                (String (encode_sextet v2) (String (encode_sextet v3) t)))) []
  = option_map (app (quantum_bytes [v0 mod 64; v1 mod 64; v2 mod 64; v3 mod 64] 3))
      (decode_from t []).
Proof.
  cbn [decode_from]. rewrite !decodeMap_encode. by cbn.
Qed.

Lemma quantum_val_arith v0 v1 v2 v3 :
  0 <= v0 < 64 -> 0 <= v1 < 64 -> 0 <= v2 < 64 -> 0 <= v3 < 64 ->
  quantum_val [v0; v1; v2; v3] = v0 * 2 ^ 18 + v1 * 2 ^ 12 + v2 * 2 ^ 6 + v3.
Proof.
  intros H0 H1 H2 H3. unfold quantum_val. cbn [nth].
  replace (Z.lor (Z.shiftl v0 18) (Z.shiftl v1 12))
    with (Z.shiftl (Z.lor (Z.shiftl v0 6) v1) 12)
    by (rewrite Z.shiftl_lor, Z.shiftl_shiftl by lia; done).
  rewrite (lor_shiftl_add v0 v1 6) by lia.
  replace (Z.lor (Z.shiftl (v0 * 2 ^ 6 + v1) 12) (Z.shiftl v2 6))
    with (Z.shiftl (Z.lor (Z.shiftl (v0 * 2 ^ 6 + v1) 6) v2) 6)
    by (rewrite Z.shiftl_lor, Z.shiftl_shiftl by lia; done).
  rewrite (lor_shiftl_add _ v2 6) by lia.
  rewrite (lor_shiftl_add _ v3 6) by lia. lia.
Qed.

Lemma group_val_arith b0 b1 b2 :
  group_val b0 b1 b2 = Z_of_byte b0 * 65536 + Z_of_byte b1 * 256 + Z_of_byte b2.
Proof.
  pose proof (Z_of_byte_range b0). pose proof (Z_of_byte_range b1).
  pose proof (Z_of_byte_range b2). unfold group_val.
  rewrite (Z.shiftl_mul_pow2 (Z_of_byte b1) 8) by lia.
  rewrite (lor_shiftl_add _ (Z_of_byte b1 * 2 ^ 8) 16) by lia.
  replace (Z_of_byte b0 * 2 ^ 16 + Z_of_byte b1 * 2 ^ 8)
    with (Z.shiftl (Z_of_byte b0 * 2 ^ 8 + Z_of_byte b1) 8)
    by (rewrite Z.shiftl_mul_pow2 by lia; lia).
  rewrite lor_shiftl_add by lia. lia.
Qed.

Lemma byte_of_Z_eq z c : z mod 256 = Z_of_byte c -> byte_of_Z z = c.
Proof.
  intros Hz. unfold byte_of_Z. rewrite Hz. unfold Z_of_byte.
  by rewrite N2Z.id, ascii_N_embedding.
Qed.

Ltac solve_div := Z.to_euclidean_division_equations; lia.

(** The bytes of a group of four, three or two sextets that the encoder
    made of three, two or one bytes. *)
Lemma quantum_three b0 b1 b2 :
  let val := group_val b0 b1 b2 in
  quantum_bytes [Z.shiftr val 18 mod 64; Z.shiftr val 12 mod 64; Z.shiftr val 6 mod 64;
                 val mod 64] 3 = [b0; b1; b2].
Proof.
  intros val. pose proof (Z_of_byte_range b0) as H0. pose proof (Z_of_byte_range b1) as H1.
  pose proof (Z_of_byte_range b2) as H2.
  assert (Hval : val = Z_of_byte b0 * 65536 + Z_of_byte b1 * 256 + Z_of_byte b2)
    by apply group_val_arith.
  unfold quantum_bytes. cbn [take]. rewrite !Z.shiftr_div_pow2 by lia.
  rewrite quantum_val_arith by (apply Z.mod_pos_bound; lia).
  f_equal; [|f_equal; [|f_equal]]; apply byte_of_Z_eq; rewrite Hval;
    clear -H0 H1 H2; solve_div.
Qed.

Lemma quantum_two b0 b1 :
  let val := Z.lor (Z.shiftl (Z_of_byte b0) 16) (Z.shiftl (Z_of_byte b1) 8) in
  quantum_bytes [Z.shiftr val 18 mod 64; Z.shiftr val 12 mod 64; Z.shiftr val 6 mod 64] 2
  = [b0; b1].
Proof.
  intros val. pose proof (Z_of_byte_range b0) as H0. pose proof (Z_of_byte_range b1) as H1.
  assert (Hval : val = Z_of_byte b0 * 65536 + Z_of_byte b1 * 256).
  { unfold val. rewrite (Z.shiftl_mul_pow2 (Z_of_byte b1) 8) by lia.
    rewrite (lor_shiftl_add _ (Z_of_byte b1 * 2 ^ 8) 16) by lia. lia. }
  unfold quantum_bytes. cbn [take]. rewrite !Z.shiftr_div_pow2 by lia.
  change (quantum_val [?a; ?b; ?c]) with (quantum_val [a; b; c; 0]).
  rewrite quantum_val_arith by (try apply Z.mod_pos_bound; lia).
  f_equal; [|f_equal]; apply byte_of_Z_eq; rewrite Hval; clear -H0 H1; solve_div.
Qed.

Lemma quantum_one b0 :
  let val := Z.shiftl (Z_of_byte b0) 16 in
  quantum_bytes [Z.shiftr val 18 mod 64; Z.shiftr val 12 mod 64] 1 = [b0].
Proof.
  intros val. pose proof (Z_of_byte_range b0) as H0.
  assert (Hval : val = Z_of_byte b0 * 65536)
    by (unfold val; rewrite Z.shiftl_mul_pow2 by lia; lia).
  unfold quantum_bytes. cbn [take]. rewrite !Z.shiftr_div_pow2 by lia.
  change (quantum_val [?a; ?b]) with (quantum_val [a; b; 0; 0]).
  rewrite quantum_val_arith by (try apply Z.mod_pos_bound; lia).
  f_equal. apply byte_of_Z_eq. rewrite Hval. clear -H0. solve_div.
Qed.

(** X8.  What the encoder writes, the decoder reads back: every sequence of
    bytes is the result of decoding its encoding. *)
Theorem base64_round_trip (bytes : list ascii) :
  URLEncoding_DecodeString (URLEncoding_EncodeToString bytes) = Some bytes.
Proof.
  unfold URLEncoding_DecodeString.
  induction bytes as [|b0|b0 b1|b0 b1 b2 rest IH] using list_ind3.
  - reflexivity.
  - cbn [URLEncoding_EncodeToString decode_from]. rewrite !decodeMap_encode.
    cbn -[quantum_bytes Z.shiftl Z.shiftr Z.modulo]. by rewrite quantum_one.
  - cbn [URLEncoding_EncodeToString decode_from]. rewrite !decodeMap_encode.
    cbn -[quantum_bytes Z.shiftl Z.shiftr Z.modulo Z.lor]. by rewrite quantum_two.
  - cbn [URLEncoding_EncodeToString]. rewrite decode_group, IH. cbn [option_map].
    by rewrite quantum_three.
Qed.

Lemma skip_newlines_keeps c t :
  c ∈ list_ascii_of_string t -> is_newline c = false ->
  c ∈ list_ascii_of_string (skip_newlines t).
Proof.
  intros Hin Hc. induction t as [|x t IH]; [done|]. cbn [skip_newlines].
  destruct (is_newline x) eqn:Hx; [|done].
  apply IH. cbn in Hin. apply elem_of_cons in Hin as [->|Hin]; [congruence|done].
Qed.

Lemma decode_from_rejects c s :
  decodeMap c = None -> is_newline c = false -> c <> PAD ->
  c ∈ list_ascii_of_string s -> forall q, decode_from s q = None.
Proof.
  intros Hd Hn Hp. induction s as [|x t IH]; intros Hin q.
  { by apply elem_of_nil in Hin. }
  cbn in Hin. apply elem_of_cons in Hin as [<-|Hin].
  { cbn [decode_from]. rewrite Hd, Hn.
    destruct (Ascii.eqb_spec c PAD); [done|done]. }
  cbn [decode_from]. destruct (decodeMap x) as [v|].
  { destruct (length q =? 3)%nat; [|by apply IH]. by rewrite IH. }
  destruct (is_newline x); [by apply IH|].
  destruct (Ascii.eqb x PAD); [|done].
  pose proof (skip_newlines_keeps _ _ Hin Hn) as Hk.
  destruct (length q) as [|[|[|[|n]]]]; try done.
  - destruct (skip_newlines t) as [|c' t'] eqn:Ht; [done|].
    destruct (Ascii.eqb_spec c' PAD) as [->|Hne]; [|done].
    cbn in Hk. apply elem_of_cons in Hk as [->|Hk]; [done|].
    apply skip_newlines_keeps in Hk; [|done].
    destruct (skip_newlines t'); [|done]. by apply elem_of_nil in Hk.
  - destruct (skip_newlines t); [|done]. by apply elem_of_nil in Hk.
Qed.

(** X9.  The decoder rejects a text that holds a character other than the 64
    characters of the URL-safe alphabet, the padding character, a line feed
    and a carriage return.  The plus sign and the slash of the standard
    alphabet are such characters. *)
Theorem base64_rejects_foreign (s : string) (c : ascii) :
  c ∈ list_ascii_of_string s ->
  in_alphabet c = false -> is_newline c = false -> c <> PAD ->
  URLEncoding_DecodeString s = None.
Proof.
  intros Hin Ha Hn Hp. unfold URLEncoding_DecodeString.
  apply (decode_from_rejects c); try done.
  unfold in_alphabet in Ha. by destruct (decodeMap c).
Qed.

Lemma base64_rejects_foreign_witness :
  URLEncoding_DecodeString "aGk+" = None /\ URLEncoding_DecodeString "aGk/" = None.
Proof.
  split.
  - apply (base64_rejects_foreign "aGk+" "+"); [|reflexivity|reflexivity|discriminate].
    repeat (apply elem_of_cons; first [by left | right]).
  - apply (base64_rejects_foreign "aGk/" "/"); [|reflexivity|reflexivity|discriminate].
    repeat (apply elem_of_cons; first [by left | right]).
Defined.

Lemma decode_from_unpadded s :
  all_chars in_alphabet s = true ->
  forall q, (length q < 4)%nat ->
  decode_from s q <> None -> ((length q + String.length s) mod 4 = 0)%nat.
Proof.
  induction s as [|x t IH]; intros Ha q Hq.
  - cbn. destruct q; [done|]. done.
  - cbn [all_chars] in Ha. apply andb_prop in Ha as [Hx Ht].
    cbn [decode_from String.length]. unfold in_alphabet in Hx.
    destruct (decodeMap x) as [v|]; [|done].
    destruct (Nat.eqb_spec (length q) 3) as [H3|H3].
    + intros Hne. assert (Hne' : decode_from t [] <> None)
        by (by destruct (decode_from t [])).
      apply (IH Ht []) in Hne'; [|simpl; lia]. cbn [length] in Hne'.
      rewrite H3. replace (3 + S (String.length t))%nat with (0 + String.length t + 1 * 4)%nat
        by lia.
      by rewrite Nat.Div0.mod_add.
    + intros Hne. apply (IH Ht) in Hne; [|rewrite length_app; simpl; lia].
      rewrite length_app in Hne. simpl in Hne.
      by replace (length q + S (String.length t))%nat with (length q + 1 + String.length t)%nat
        by lia.
Qed.

(** X10.  The encoding is the padded one: a text of characters of the alphabet
    whose length is not a multiple of four is rejected. *)
Theorem base64_needs_padding (s : string) :
  all_chars in_alphabet s = true -> (String.length s mod 4 <> 0)%nat ->
  URLEncoding_DecodeString s = None.
Proof.
  intros Ha Hl. unfold URLEncoding_DecodeString.
  destruct (decode_from s []) as [bytes|] eqn:Hd; [|done].
  exfalso. apply Hl. apply (decode_from_unpadded s Ha []); [simpl; lia|]. by rewrite Hd.
Qed.

Lemma base64_needs_padding_witness :
  URLEncoding_DecodeString "aGk" = None.
Proof.
  apply (base64_needs_padding "aGk"); [reflexivity|]. vm_compute. discriminate.
Defined.
(** ** The attachment walker on the system: what is written *)




Section Coverage.
  Context {St : Type} (sys : Sys.System St) (svc : Service) (outDir : string).













End Coverage.




(** ** The token manager and the listener: further properties *)

Lemma append_cancel_l (p a b : string) : p +:+ a = p +:+ b -> a = b.
Proof.
  induction p as [|c p IH]; [done|]. cbn. intros [= H]. by apply IH.
Qed.

(** ** url.QueryEscape *)

Lemma url_QueryEscape_cons c t :
  url_QueryEscape (String c t) = escape_char c +:+ url_QueryEscape t.
Proof.
  unfold escape_char. cbn [url_QueryEscape].
  destruct (is_unreserved c); [done|]. by destruct (Ascii.eqb c " ").
Qed.

Lemma escape_char_escaped c : all_chars is_escaped (escape_char c) = true.
Proof.
  destruct c as [[] [] [] [] [] [] [] []]; reflexivity.
Qed.

(** X11.  The escaped text is made of letters, digits, [- _ . ~], the plus
    sign and the percent sign: it holds no path separator and no blank, and
    names a file in the directory it is joined to. *)
Theorem url_QueryEscape_safe (s : string) :
  all_chars is_escaped (url_QueryEscape s) = true /\
  all_chars (not_char "/") (url_QueryEscape s) = true /\
  all_chars (not_char (ascii_of_nat 92)) (url_QueryEscape s) = true /\
  all_chars (not_char " ") (url_QueryEscape s) = true /\
  all_chars (not_char (ascii_of_nat 0)) (url_QueryEscape s) = true.
Proof.
  assert (H : all_chars is_escaped (url_QueryEscape s) = true).
  { induction s as [|c t IH]; [done|].
    by rewrite url_QueryEscape_cons, all_chars_app, escape_char_escaped, IH. }
  split; [done|].
  assert (Himp : forall (p : ascii -> bool) x,
            (forall c, is_escaped c = true -> p c = true) ->
            all_chars is_escaped x = true -> all_chars p x = true).
  { intros p x Hp. induction x as [|c x IH]; [done|]. cbn.
    intros [Hc Hx]%andb_prop. by rewrite (Hp c Hc), IH. }
  repeat split; (apply Himp; [|done]);
    intros c Hc; destruct c as [[] [] [] [] [] [] [] []]; try done.
Qed.

Lemma unescape_head_escape c x : unescape_head (escape_char c +:+ x) = Some (c, x).
Proof.
  destruct c as [[] [] [] [] [] [] [] []]; reflexivity.
Qed.

Lemma escape_char_inj c c' x y :
  escape_char c +:+ x = escape_char c' +:+ y -> c = c' /\ x = y.
Proof.
  intros H. apply (f_equal unescape_head) in H.
  rewrite !unescape_head_escape in H. by injection H.
Qed.

Lemma url_QueryEscape_inj (a b : string) :
  url_QueryEscape a = url_QueryEscape b -> a = b.
Proof.
  revert b. induction a as [|c a IH]; intros [|c' b].
  - done.
  - rewrite url_QueryEscape_cons. destruct c' as [[] [] [] [] [] [] [] []]; discriminate.
  - rewrite url_QueryEscape_cons. destruct c as [[] [] [] [] [] [] [] []]; discriminate.
  - rewrite !url_QueryEscape_cons. intros [-> H]%escape_char_inj. f_equal. by apply IH.
Qed.

(** X12.  Two texts with the same escaped text are the same text: the escaped
    text tells the text it was made of. *)
Theorem url_QueryEscape_injective (a b : string) :
  url_QueryEscape a = url_QueryEscape b <-> a = b.
Proof.
  split; [apply url_QueryEscape_inj|by intros ->].
Qed.

(** ** The token cache: one name for each hash *)

Lemma Atoi_itoa_nonneg n : 0 <= n <= maxInt -> Atoi (itoa n) = Some n.
Proof.
  intros Hn. destruct (Z.eq_dec n 0) as [->|Hne]; [reflexivity|].
  apply Atoi_itoa. lia.
Qed.

Lemma itoa_inj n m : 0 <= n <= maxInt -> 0 <= m <= maxInt -> itoa n = itoa m -> n = m.
Proof.
  intros Hn Hm H. apply Atoi_itoa_nonneg in Hn, Hm. congruence.
Qed.

Lemma cache_hash_range config : 0 <= cache_hash config < 2 ^ 32.
Proof.
  rewrite cache_hash_concat. apply fnv_Write_range. unfold fnv_New32a, offset32. lia.
Qed.

Lemma url_QueryEscape_escaped s : all_chars is_escaped (url_QueryEscape s) = true.
Proof.
  induction s as [|c t IH]; [done|].
  by rewrite url_QueryEscape_cons, all_chars_app, escape_char_escaped, IH.
Qed.

Lemma url_QueryEscape_length s : length_Z s <= length_Z (url_QueryEscape s).
Proof.
  induction s as [|c t IH]; [done|]. rewrite url_QueryEscape_cons, length_Z_app.
  assert (1 <= length_Z (escape_char c)) by (destruct c as [[] [] [] [] [] [] [] []]; done).
  unfold length_Z in *. cbn [String.length]. lia.
Qed.

(** X13.  The cache file is the join of the directory with a name, and two
    configs have the same name exactly when they have the same hash, so
    that configs with the same hash share the cache file.  The name is a
    plain file name: it has no separator, and it is neither empty nor
    one of the names of the directory itself and of its parent. *)
Theorem tokenCacheFile_one_per_hash (env : Env) (c1 c2 : Config) :
  tokenCacheFile env c1 = filepath_Join env [osUserCacheDir env; tokenCacheName env c1] /\
  (tokenCacheName env c1 = tokenCacheName env c2 <-> cache_hash c1 = cache_hash c2) /\
  (cache_hash c1 = cache_hash c2 -> tokenCacheFile env c1 = tokenCacheFile env c2) /\
  no_separator (tokenCacheName env c1) = true /\
  all_chars (not_char (ascii_of_nat 92)) (tokenCacheName env c1) = true /\
  tokenCacheName env c1 <> "" /\ tokenCacheName env c1 <> "." /\ tokenCacheName env c1 <> "..".
Proof.
  split; [done|]. split; [|split; [|split; [|split]]].
  - unfold tokenCacheName. split; [|by intros ->].
    intros H%url_QueryEscape_inj.
    apply append_cancel_l in H. apply (append_cancel_l "-tok") in H.
    pose proof (cache_hash_range c1). pose proof (cache_hash_range c2).
    apply itoa_inj in H; [done|unfold maxInt; lia..].
  - intros H. unfold tokenCacheFile. by rewrite H.
  - unfold no_separator, tokenCacheName.
    pose proof (url_QueryEscape_escaped (progName env +:+ "-tok" +:+ itoa (cache_hash c1))) as H.
    revert H. generalize (url_QueryEscape (progName env +:+ "-tok" +:+ itoa (cache_hash c1))).
    intros x. induction x as [|c x IH]; [done|]. cbn [all_chars].
    intros [Hc Hx]%andb_prop. rewrite IH by done.
    destruct c as [[] [] [] [] [] [] [] []]; done.
  - unfold tokenCacheName.
    pose proof (url_QueryEscape_escaped (progName env +:+ "-tok" +:+ itoa (cache_hash c1))) as H.
    revert H. generalize (url_QueryEscape (progName env +:+ "-tok" +:+ itoa (cache_hash c1))).
    intros x. induction x as [|c x IH]; [done|]. cbn [all_chars].
    intros [Hc Hx]%andb_prop. rewrite IH by done.
    destruct c as [[] [] [] [] [] [] [] []]; done.
  - assert (Hlen : 4 <= length_Z (tokenCacheName env c1)).
    { unfold tokenCacheName.
      pose proof (url_QueryEscape_length (progName env +:+ "-tok" +:+ itoa (cache_hash c1))) as H.
      rewrite !length_Z_app in H. pose proof (length_Z_nonneg (progName env)).
      pose proof (length_Z_nonneg (itoa (cache_hash c1))).
      change (length_Z "-tok") with 4 in H. lia. }
    repeat split; intros E; rewrite E in Hlen; by vm_compute in Hlen.
Qed.

(** ** The token manager: when the cache is used *)


(** ** The authorization listener: the code that the caller receives *)

Lemma handler_sent randState req code :
  sent (handler randState req) = Some code <->
  URL_Path req <> "/favicon.ico" /\ FormValue req "state" = randState /\
  FormValue req "code" = code /\ code <> "".
Proof.
  unfold handler.
  destruct (String.eqb_spec (URL_Path req) "/favicon.ico") as [Hp|Hp].
  { split; [done|]. by intros [? _]. }
  destruct (String.eqb_spec (FormValue req "state") randState) as [Hs|Hs]; simpl.
  2:{ split; [done|]. by intros (_ & ? & _). }
  destruct (String.eqb_spec (FormValue req "code") "") as [Hc|Hc]; simpl.
  - split; [done|]. intros (_ & _ & <- & Hne). done.
  - split; [by intros [= <-]|]. by intros (_ & _ & <- & _).
Qed.

(** X15.  The caller receives a code exactly when some request carries the
    expected state and a code that is not empty, and is not a request for
    /favicon.ico; the code received is the code of the first such request. *)
Theorem received_first (randState : string) (reqs : list Request) (code : string) :
  received randState reqs = Some code <->
  exists pre req post,
    reqs = pre ++ req :: post /\
    (forall x, x ∈ pre -> sent (handler randState x) = None) /\
    URL_Path req <> "/favicon.ico" /\ FormValue req "state" = randState /\
    FormValue req "code" = code /\ code <> "".
Proof.
  induction reqs as [|x reqs IH]; cbn [received].
  { split; [done|]. intros (pre & req & post & H & _). by destruct pre. }
  destruct (sent (handler randState x)) as [c|] eqn:Hx.
  - split.
    + intros [= <-]. exists [], x, reqs. split; [done|]. split; [|by apply handler_sent].
      intros y Hy. by apply elem_of_nil in Hy.
    + intros (pre & req & post & H & Hpre & Hreq). destruct pre as [|y pre].
      * injection H as <- _. apply handler_sent in Hreq. congruence.
      * injection H as <- _. rewrite Hpre in Hx; [done|]. by left.
  - rewrite IH. split.
    + intros (pre & req & post & -> & Hpre & Hreq). exists (x :: pre), req, post.
      split; [done|]. split; [|done]. intros y [->|Hy]%elem_of_cons; [done|by apply Hpre].
    + intros (pre & req & post & H & Hpre & Hreq). destruct pre as [|y pre].
      * injection H as <- _. apply handler_sent in Hreq. congruence.
      * injection H as <- ->. exists pre, req, post. split; [done|]. split; [|done].
        intros z Hz. apply Hpre. by right.
Qed.

(** ** The browser *)

Lemma try_commands_spec run url try :
  (exists rest, try = fst (try_commands run try url) ++ rest) /\
  (forall pre bin post, fst (try_commands run try url) = pre ++ bin :: post ->
     post <> [] -> run bin url = false) /\
  (snd (try_commands run try url) = true <->
   exists bin, last (fst (try_commands run try url)) = Some bin /\ run bin url = true) /\
  (snd (try_commands run try url) = false <->
   fst (try_commands run try url) = try /\ forall bin, bin ∈ try -> run bin url = false).
Proof.
  induction try as [|b try (IH1 & IH2 & IH3 & IH4)]; cbn [try_commands].
  { split; [by exists []|]. split; [by intros [|??] ???|]. split.
    - split; [done|]. by intros (bin & ? & _).
    - split; [|done]. intros _. split; [done|]. intros bin Hb. by apply elem_of_nil in Hb. }
  destruct (run b url) eqn:Hb; cbn [fst snd].
  - split; [by exists try|]. split.
    { intros [|? pre] bin post [= ? H] Hpost; [by subst|]. by destruct pre. }
    split.
    + split; [|done]. intros _. by exists b.
    + split; [done|]. intros [_ H]. rewrite H in Hb; [done|]. by left.
  - split. { destruct IH1 as [rest IH1]. exists rest. cbn. by f_equal. }
    split.
    { intros [|? pre] bin post [= ? H] Hpost; [by subst|]. subst. by eapply IH2. }
    split.
    + rewrite IH3. destruct (fst (try_commands run try url)) as [|c l] eqn:Hl.
      * split; [by intros (bin & ? & _)|]. cbn. intros (bin & [= <-] & Hbin). congruence.
      * done.
    + rewrite IH4. split.
      * intros [-> H]. split; [done|]. intros bin [->|Hin]%elem_of_cons; [done|by apply H].
      * intros [[= H] Hall]. split; [done|]. intros bin Hin. apply Hall. by right.
Qed.

(** X16.  [openURL] runs the three commands in their order and stops after the
    first that succeeds: the commands run are a prefix of the three, all but
    the last of them failed, and the error is logged exactly when all three
    failed. *)
Theorem openURL_stops_at_first_success (run : string -> string -> bool) (url : string) :
  (exists rest, ["xdg-open"; "google-chrome"; "open"] = (openURL run url).1 ++ rest) /\
  (forall pre bin post, (openURL run url).1 = pre ++ bin :: post ->
     post <> [] -> run bin url = false) /\
  ((openURL run url).2 = [] <->
   exists bin, last (openURL run url).1 = Some bin /\ run bin url = true) /\
  ((openURL run url).2 = ["Error opening URL in browser."] <->
   (openURL run url).1 = ["xdg-open"; "google-chrome"; "open"] /\
   run "xdg-open" url = false /\ run "google-chrome" url = false /\ run "open" url = false).
Proof.
  pose proof (try_commands_spec run url ["xdg-open"; "google-chrome"; "open"])
    as (H1 & H2 & H3 & H4).
  unfold openURL.
  destruct (try_commands run ["xdg-open"; "google-chrome"; "open"] url) as [ran ok] eqn:Ht.
  cbn [fst snd] in *. split; [done|]. split; [done|]. split.
  - rewrite <- H3. by destruct ok.
  - split.
    + destruct ok; [done|]. intros _. destruct H4 as [H4 _]. destruct (H4 eq_refl) as [-> Hall].
      split; [done|]. repeat split; apply Hall; repeat (apply elem_of_cons; first [by left | right]).
    + intros (-> & Ha & Hb & Hc). destruct ok; [|done].
      destruct H3 as [H3 _]. destruct (H3 eq_refl) as (bin & [= <-] & Hbin). congruence.
Qed.

(** ** The generator of byte literals: further properties *)

Module GobinMore.
Import Gobin GobinAux GobinFacts.

(** X17.  The names of the formats: [Set] reads what [String] writes, accepts
    nothing else, and answers every other name with the error. *)
Theorem Format_round_trip :
  (forall f, Format_Set (Format_String f) = inl f) /\
  (forall name f, Format_Set name = inl f -> Format_String f = name) /\
  (forall name, (forall f, Format_String f <> name) ->
     Format_Set name = inr "may be: hexx, hex, dec, shexx, or shex").
Proof.
  split; [by intros []|]. split.
  - intros name f. unfold Format_Set.
    destruct (String.eqb_spec name "hexx") as [->|_]; [by intros [= <-]|].
    destruct (String.eqb_spec name "hex") as [->|_]; [by intros [= <-]|].
    destruct (String.eqb_spec name "dec") as [->|_]; [by intros [= <-]|].
    destruct (String.eqb_spec name "shexx") as [->|_]; [by intros [= <-]|].
    destruct (String.eqb_spec name "shex") as [->|_]; [by intros [= <-]|]. done.
  - intros name Hn. unfold Format_Set.
    destruct (String.eqb_spec name "hexx") as [->|_]; [by destruct (Hn hexx)|].
    destruct (String.eqb_spec name "hex") as [->|_]; [by destruct (Hn hex)|].
    destruct (String.eqb_spec name "dec") as [->|_]; [by destruct (Hn dec)|].
    destruct (String.eqb_spec name "shexx") as [->|_]; [by destruct (Hn shexx)|].
    destruct (String.eqb_spec name "shex") as [->|_]; [by destruct (Hn shex)|]. done.
Qed.

(** ** The loop over the chunks *)

Lemma lines_step_zero fl indent buffer :
  step fl = 0 -> 0 < len buffer -> forall fuel, lines fuel fl indent buffer 0 = OutOfFuel.
Proof.
  intros Hs Hl. induction fuel as [|fuel IH]; cbn [lines].
  - by rewrite (proj2 (Z.ltb_lt _ _) Hl).
  - rewrite Hs, !Z.add_0_l. unfold min. rewrite !(proj2 (Z.ltb_lt _ _) Hl).
    rewrite Z.ltb_irrefl. cbn [orb]. by rewrite IH.
Qed.

(** X18.  A number of bytes per line below 1, given with [-step], on an input
    that is not empty: with 0 the loop of [main] never ends, as its index does
    not move; with a negative number the first slice expression is out of
    range and the program panics. *)
Theorem main_step_below_one (fl : Flags) (buffer : slice) :
  0 < len buffer -> step fl <= 0 ->
  forall fuel,
    main (S fuel) fl buffer
    = if step fl =? 0 then OutOfFuel else Fatal "panic: slice bounds out of range".
Proof.
  intros Hl Hs fuel. unfold main. destruct (Z.eqb_spec (step fl) 0) as [H0|H0].
  - by rewrite lines_step_zero.
  - cbn [lines]. rewrite (proj2 (Z.ltb_lt _ _) Hl), !Z.add_0_l.
    assert (min (step fl) (len buffer) = step fl) as ->
      by (unfold min; rewrite (proj2 (Z.ltb_lt _ _)); [done|lia]).
    by rewrite (proj2 (Z.ltb_lt (step fl) 0)) by lia.
Qed.

Lemma main_step_below_one_witness :
  (forall fuel,
     main (S fuel) {| packageName := "main"; varName := "v"; format := dec; step := 0;
                      initOnly := false |} (example_buffer "hi!" 0)
     = OutOfFuel) /\
  (forall fuel,
     main (S fuel) {| packageName := "main"; varName := "v"; format := dec; step := -1;
                      initOnly := false |} (example_buffer "hi!" 0)
     = Fatal "panic: slice bounds out of range").
Proof.
  split; intros fuel.
  - exact (main_step_below_one
             {| packageName := "main"; varName := "v"; format := dec; step := 0;
                initOnly := false |} (example_buffer "hi!" 0)
             eq_refl ltac:(discriminate) fuel).
  - exact (main_step_below_one
             {| packageName := "main"; varName := "v"; format := dec; step := -1;
                initOnly := false |} (example_buffer "hi!" 0)
             eq_refl ltac:(discriminate) fuel).
Defined.

(** ** The numeric formats, on an example *)

Lemma numeric_round_trip_witness :
  read_back (example_flags hex true) (example_buffer "hi!" 7)
  = Some (elems (example_buffer "hi!" 7)).
Proof.
  apply (numeric_round_trip (example_flags hex true) (example_buffer "hi!" 7));
    [reflexivity|discriminate].
Defined.

(** ** String literals *)

Lemma reads_nil : reads "" [] 0.
Proof.
  split; [done|]. intros rest fuel. cbn. by destruct (scan_string fuel rest) as [[]|].
Qed.

Lemma reads_app l1 b1 n1 l2 b2 n2 :
  reads l1 b1 n1 -> reads l2 b2 n2 -> reads (l1 +:+ l2) (b1 ++ b2) (n1 + n2).
Proof.
  intros [Hn1 H1] [Hn2 H2]. split; [rewrite string_length_app; lia|].
  intros rest fuel. rewrite append_assoc, <- Nat.add_assoc, H1, H2.
  destruct (scan_string fuel rest) as [[]|]; [|done]. cbn. by rewrite app_assoc.
Qed.

Lemma reads_close lit bs n t fuel :
  reads lit bs n -> (n < fuel)%nat ->
  scan_string fuel (lit +:+ String QUOTE t) = Some (bs, t).
Proof.
  intros [_ H] Hfuel. replace fuel with (n + S (fuel - n - 1))%nat by lia.
  rewrite H. cbn [scan_string]. rewrite Ascii.eqb_refl. cbn. by rewrite app_nil_r.
Qed.

(** ** The format shexx *)

Lemma reads_hexx_byte b : reads (String BACKSLASH (String "x" (hex2 b))) [b] 1.
Proof.
  split; [cbn; lia|]. intros rest fuel.
  destruct b as [[] [] [] [] [] [] [] []]; reflexivity.
Qed.

Lemma strings_Join_nosep (x : string) (l : list string) :
  strings_Join (x :: l) "" = x +:+ strings_Join l "".
Proof.
  destruct l as [|y l]; cbn [strings_Join]; [|done].
  induction x as [|c x IH]; [done|]. cbn. by rewrite <- IH.
Qed.

Lemma reads_quoted_shexx bs : reads (quoted shexx bs) bs (length bs).
Proof.
  unfold quoted. induction bs as [|b bs IH]; [apply reads_nil|].
  cbn [map]. rewrite strings_Join_nosep.
  apply (reads_app _ [b] 1 _ bs (length bs)); [apply reads_hexx_byte|done].
Qed.

(** ** The lines of a string format *)

Lemma tokenizes_string lit bs n t e ts :
  reads lit bs n -> tokenizes t true ts ->
  tokenizes (String QUOTE (lit +:+ String QUOTE t)) e (TStr bs :: ts).
Proof.
  intros Hr Ht [|fuel] Hfuel; [cbn in Hfuel; lia|].
  cbn [String.length] in Hfuel. rewrite string_length_app in Hfuel. cbn [String.length] in Hfuel.
  destruct Hr as [Hn Hr'].
  assert (Hq : tokens (S fuel) (String QUOTE (lit +:+ String QUOTE t)) e
               = match scan_string fuel (lit +:+ String QUOTE t) with
                 | Some (bytes, rest) => TStr bytes :: tokens fuel rest true
                 | None => [TBad]
                 end) by reflexivity.
  rewrite Hq, (reads_close lit bs n t fuel); [|by split|lia].
  f_equal. apply Ht. lia.
Qed.

Lemma tokenizes_plus t e ts :
  tokenizes t false ts -> tokenizes (String "+" t) e (TPlus :: ts).
Proof. intros Ht [|fuel] H; simpl in H; [lia|]. simpl. f_equal. apply Ht. lia. Qed.

Lemma tokenizes_rparen e : tokenizes ")" e [TRParen].
Proof. intros [|[|fuel]] H; simpl in H; try lia; done. Qed.

Lemma tokenizes_lparen t e ts :
  tokenizes t false ts -> tokenizes (String "(" t) e (TLParen :: ts).
Proof. intros Ht [|fuel] H; simpl in H; [lia|]. simpl. f_equal. apply Ht. lia. Qed.

Section Lines.
  Variable fl : Flags.
  Variable indent : string.
  Variable buffer : slice.
  Hypothesis Hreads : forall bs, exists n, reads (quoted (format fl) bs) bs n.
  Hypothesis Hstringy : stringy (format fl) = true.
  Hypothesis Hstep : 1 <= step fl.
  Hypothesis Hindent : indent = "" \/ indent = String TAB "".
  Hypothesis Hcap : len buffer <= capacity buffer.

Lemma getGetLine_stringy chunk :
  getGetLine (format fl) chunk
  = String TAB (String QUOTE (quoted (format fl) (elems chunk) +:+ String QUOTE
      (if len chunk =? capacity chunk then "," else "+"))).
Proof.
  destruct (format fl); try done; cbn [getGetLine quoted].
  all: unfold QuoteToASCII; cbn; by rewrite !append_assoc.
Qed.

Lemma tokenizes_indent t e ts :
  tokenizes t e ts -> tokenizes (indent +:+ t) e ts.
Proof.
  intros Ht. destruct Hindent as [-> | ->]; [done|].
  apply tokenizes_blank; [by right|done].
Qed.

Lemma lines_stringy fuel :
  forall i, 0 <= i < len buffer -> (Z.to_nat (len buffer - i) <= fuel)%nat ->
  exists body ts,
    lines fuel fl indent buffer i = Done body /\
    tokenizes (body +:+ indent +:+ ")") false ts /\
    operand_of ts = if len buffer =? capacity buffer
                    then Some (drop (Z.to_nat i) (elems buffer)) else None.
Proof.
  induction fuel as [|fuel IH]; intros i Hi Hfuel; [lia|].
  cbn [lines]. rewrite (proj2 (Z.ltb_lt _ _) (proj2 Hi)).
  set (to := min (i + step fl) (len buffer)).
  assert (Hto : i < to <= len buffer /\
                (to = i + step fl /\ to < len buffer \/ to = len buffer /\ len buffer <= i + step fl)).
  { unfold to, min. destruct (i + step fl <? len buffer) eqn:E.
    - apply Z.ltb_lt in E. lia.
    - apply Z.ltb_ge in E. lia. }
  destruct (i <? 0) eqn:E0; [apply Z.ltb_lt in E0; lia|].
  destruct (to <? i) eqn:E1; [apply Z.ltb_lt in E1; lia|]. cbn [orb].
  set (chunk := subslice buffer i to).
  assert (Hchunk : elems chunk = take (Z.to_nat (to - i)) (drop (Z.to_nat i) (elems buffer)))
    by done.
  assert (Hlen : len chunk = to - i).
  { unfold len at 1. rewrite Hchunk, length_take, length_drop. unfold len in *. lia. }
  assert (Hcapc : capacity chunk = capacity buffer - i) by done.
  destruct (Hreads (elems chunk)) as [n Hn].
  rewrite getGetLine_stringy.
  destruct Hto as [Hto [[Hnext Hlt] | [Hlast Hge]]].
  - destruct (IH (i + step fl)) as (rest & ts & -> & Htok & Hop); [lia|lia|].
    assert ((len chunk =? capacity chunk) = false) as -> by (apply Z.eqb_neq; lia).
    generalize dependent chunk. intros chunk Hchunk _ _ Hn.
    eexists _, (TStr (elems chunk) :: TPlus :: ts). split; [done|]. split.
    + rewrite !append_assoc. apply tokenizes_indent.
      apply tokenizes_blank; [by left|]. cbn. apply tokenizes_blank; [by right|].
      rewrite append_assoc. eapply tokenizes_string; [exact Hn|].
      cbn. apply tokenizes_plus, tokenizes_LF. exact Htok.
    + cbn [operand_of]. rewrite Hop.
      destruct (len buffer =? capacity buffer); [|done]. cbn. f_equal.
      rewrite Hchunk, <- Hnext.
      replace (Z.to_nat to) with (Z.to_nat i + Z.to_nat (to - i))%nat by lia.
      by rewrite <- drop_drop, take_drop.
  - assert (Hrest : lines fuel fl indent buffer (i + step fl) = Done "").
    { destruct fuel; cbn [lines]; by rewrite (proj2 (Z.ltb_ge _ _)) by lia. }
    rewrite Hrest.
    assert (Hall : elems chunk = drop (Z.to_nat i) (elems buffer)).
    { rewrite Hchunk. apply take_ge. rewrite length_drop. unfold len in *. lia. }
    assert (Heq : (len chunk =? capacity chunk) = (len buffer =? capacity buffer)).
    { destruct (Z.eqb_spec (len buffer) (capacity buffer)).
      - apply Z.eqb_eq. lia.
      - apply Z.eqb_neq. lia. }
    rewrite Heq. clear Heq.
    generalize dependent chunk. intros chunk Hchunk _ _ Hn Hall.
    eexists _, (TStr (elems chunk) ::
                (if len buffer =? capacity buffer then TComma else TPlus) :: [TRParen]).
    split; [done|]. split.
    + rewrite !append_assoc. apply tokenizes_indent.
      apply tokenizes_blank; [by left|]. cbn. apply tokenizes_blank; [by right|].
      rewrite append_assoc. eapply tokenizes_string; [exact Hn|].
      destruct (len buffer =? capacity buffer); cbn.
      * apply tokenizes_comma, tokenizes_LF, tokenizes_indent, tokenizes_rparen.
      * apply tokenizes_plus, tokenizes_LF, tokenizes_indent, tokenizes_rparen.
    + rewrite Hall. by destruct (len buffer =? capacity buffer).
Qed.

End Lines.

(** ** Bits as arithmetic *)

Lemma land_31 x : Z.land x 31 = x mod 32.
Proof. apply (Z.land_ones x 5). lia. Qed.

Lemma land_15 x : Z.land x 15 = x mod 16.
Proof. apply (Z.land_ones x 4). lia. Qed.

Lemma land_7 x : Z.land x 7 = x mod 8.
Proof. apply (Z.land_ones x 3). lia. Qed.

Lemma lor3 a b c :
  0 <= b < 64 -> 0 <= c < 64 ->
  Z.lor (Z.lor (Z.shiftl a 12) (Z.shiftl b 6)) c = a * 4096 + b * 64 + c.
Proof.
  intros Hb Hc.
  replace (Z.lor (Z.shiftl a 12) (Z.shiftl b 6)) with (Z.shiftl (Z.lor (Z.shiftl a 6) b) 6)
    by (rewrite Z.shiftl_lor, Z.shiftl_shiftl by lia; done).
  rewrite (lor_shiftl_add a b 6) by lia. rewrite lor_shiftl_add by lia. lia.
Qed.

Lemma lor4 a b c d :
  0 <= b < 64 -> 0 <= c < 64 -> 0 <= d < 64 ->
  Z.lor (Z.lor (Z.lor (Z.shiftl a 18) (Z.shiftl b 12)) (Z.shiftl c 6)) d
  = a * 262144 + b * 4096 + c * 64 + d.
Proof.
  intros Hb Hc Hd.
  replace (Z.lor (Z.lor (Z.shiftl a 18) (Z.shiftl b 12)) (Z.shiftl c 6))
    with (Z.shiftl (Z.lor (Z.lor (Z.shiftl a 12) (Z.shiftl b 6)) c) 6)
    by (rewrite !Z.shiftl_lor, !Z.shiftl_shiftl by lia; done).
  rewrite lor3 by lia. rewrite lor_shiftl_add by lia. lia.
Qed.

Lemma lor_192 y : 0 <= y < 64 -> Z.lor 192 y = 192 + y.
Proof. intros Hy. change 192 with (Z.shiftl 3 6). rewrite lor_shiftl_add by lia. done. Qed.

Lemma lor_128 y : 0 <= y < 64 -> Z.lor 128 y = 128 + y.
Proof. intros Hy. change 128 with (Z.shiftl 2 6). rewrite lor_shiftl_add by lia. done. Qed.

Lemma lor_224 y : 0 <= y < 16 -> Z.lor 224 y = 224 + y.
Proof. intros Hy. change 224 with (Z.shiftl 14 4). rewrite lor_shiftl_add by lia. done. Qed.

Lemma lor_240 y : 0 <= y < 8 -> Z.lor 240 y = 240 + y.
Proof. intros Hy. change 240 with (Z.shiftl 30 3). rewrite lor_shiftl_add by lia. done. Qed.

(** ** Hexadecimal digits *)

Lemma hexval_lowerhex d : 0 <= d < 16 -> hexval (lowerhex d) = Some d.
Proof.
  intros Hd. destruct d as [|p|p]; [reflexivity| |lia].
  do 4 (destruct p as [p|p|]; try lia; try reflexivity).
Qed.

Lemma scan_hex_digits n x :
  0 <= x -> forall t acc,
  scan_hex n (hex_digits n x +:+ t) acc = Some (acc * 16 ^ Z.of_nat n + x mod 16 ^ Z.of_nat n, t).
Proof.
  intros Hx. induction n as [|n IH]; intros t acc.
  - cbn. rewrite Z.mod_1_r. do 2 f_equal. lia.
  - cbn [hex_digits scan_hex]. cbn [String.append].
    rewrite land_15, Z.shiftr_div_pow2 by lia.
    rewrite hexval_lowerhex by (apply Z.mod_pos_bound; lia).
    rewrite IH. do 2 f_equal.
    replace (2 ^ (4 * Z.of_nat n)) with (16 ^ Z.of_nat n)
      by (rewrite Z.pow_mul_r by lia; done).
    replace (16 ^ Z.of_nat (S n)) with (16 ^ Z.of_nat n * 16)
      by (rewrite Nat2Z.inj_succ, Z.pow_succ_r by lia; lia).
    assert (0 < 16 ^ Z.of_nat n) by (apply Z.pow_pos_nonneg; lia).
    rewrite (Z.rem_mul_r x (16 ^ Z.of_nat n) 16) by lia. lia.
Qed.

(** ** The escapes of [%+q] *)

Lemma reads_ascii c :
  Z_of_byte c < 128 -> reads (escaped_rune (Z_of_byte c)) [c] 1.
Proof.
  intros Hc. split.
  - destruct c as [[] [] [] [] [] [] [] []]; vm_compute; lia.
  - intros rest fuel.
    destruct c as [[] [] [] [] [] [] [] []];
      first [ exfalso; vm_compute in Hc; discriminate Hc | reflexivity ].
Qed.

Lemma reads_hex_escape c :
  reads (String BACKSLASH (String "x" (hex_digits 2 (Z_of_byte c)))) [c] 1.
Proof.
  split; [cbn; lia|]. intros rest fuel.
  destruct c as [[] [] [] [] [] [] [] []]; reflexivity.
Qed.

Lemma escaped_rune_high x :
  128 <= x ->
  escaped_rune x = if x <? 65536 then String BACKSLASH (String "u" (hex_digits 4 x))
                   else String BACKSLASH (String "U" (hex_digits 8 x)).
Proof.
  intros Hx. unfold escaped_rune, in_range.
  repeat match goal with
         | |- context [x =? ?k] => rewrite (proj2 (Z.eqb_neq x k)) by lia
         end.
  rewrite (proj2 (Z.leb_gt x 126)) by lia. rewrite (proj2 (Z.ltb_ge x 32)) by lia.
  by rewrite andb_false_r.
Qed.

Lemma scan_u fuel body :
  scan_string (S fuel) (String BACKSLASH (String "u" body))
  = match scan_hex 4 body 0 with
    | Some (v, t) =>
        if valid_rune v
        then option_map (fun x => (encode_rune v ++ fst x, snd x)) (scan_string fuel t)
        else None
    | None => None
    end.
Proof. reflexivity. Qed.

Lemma scan_U fuel body :
  scan_string (S fuel) (String BACKSLASH (String "U" body))
  = match scan_hex 8 body 0 with
    | Some (v, t) =>
        if valid_rune v
        then option_map (fun x => (encode_rune v ++ fst x, snd x)) (scan_string fuel t)
        else None
    | None => None
    end.
Proof. reflexivity. Qed.

Lemma reads_unicode x :
  128 <= x < 2 ^ 21 -> valid_rune x = true -> reads (escaped_rune x) (encode_rune x) 1.
Proof.
  intros Hx Hv. rewrite escaped_rune_high by lia. destruct (x <? 65536) eqn:E.
  - apply Z.ltb_lt in E. split; [cbn; lia|]. intros rest fuel.
    change (1 + fuel)%nat with (S fuel). cbn [String.append]. rewrite scan_u.
    rewrite scan_hex_digits by lia. rewrite Z.mod_small by (cbn; lia).
    rewrite Z.mul_0_l, Z.add_0_l. by rewrite Hv.
  - apply Z.ltb_ge in E. split; [cbn; lia|]. intros rest fuel.
    change (1 + fuel)%nat with (S fuel). cbn [String.append]. rewrite scan_U.
    rewrite scan_hex_digits by lia. rewrite Z.mod_small by (cbn; lia).
    rewrite Z.mul_0_l, Z.add_0_l. by rewrite Hv.
Qed.

Ltac get_ranges :=
  unfold in_range in *;
  repeat match goal with
         | H : _ && _ = true |- _ => apply andb_prop in H as [? ?]
         | H : (_ <=? _) = true |- _ => apply Z.leb_le in H
         end.

Ltac pow_consts :=
  change (2 ^ 6) with 64 in *; change (2 ^ 12) with 4096 in *;
  change (2 ^ 18) with 262144 in *; change (2 ^ 21) with 2097152 in *.

Ltac solve_arith := pow_consts; Z.to_euclidean_division_equations; lia.

Ltac failed_rune := intros [= <- <-] Hf; by vm_compute in Hf.

Lemma valid_rune_true x :
  0 <= x <= 55295 \/ 57344 <= x <= 1114111 -> valid_rune x = true.
Proof.
  intros H. unfold valid_rune, in_range. apply orb_true_iff.
  destruct H as [H|H]; [left|right]; apply andb_true_iff; split; apply Z.leb_le; lia.
Qed.

(** A rune that [DecodeRune] reads from more than one byte is a valid code
    point, and [AppendRune] writes the bytes it was read from. *)
Lemma decode_valid c0 rest x w :
  128 <= Z_of_byte c0 ->
  DecodeRune (map Z_of_byte (c0 :: rest)) = (x, w) ->
  Nat.eqb w 1 && (x =? RuneError) = false ->
  128 <= x < 2 ^ 21 /\ valid_rune x = true /\ encode_rune x = take w (c0 :: rest) /\
  (2 <= w <= length (c0 :: rest))%nat.
Proof.
  intros Hc0. cbn [map]. unfold DecodeRune.
  pose proof (Z_of_byte_range c0) as Hr0. set (b0 := Z_of_byte c0) in *.
  rewrite (proj2 (Z.ltb_ge b0 128)) by lia.
  destruct (in_range 194 223 b0) eqn:R2.
  { destruct rest as [|c1 rest]; [failed_rune|]. cbn [map].
    pose proof (Z_of_byte_range c1) as Hr1. set (b1 := Z_of_byte c1) in *.
    destruct (in_range 128 191 b1) eqn:R; [|failed_rune].
    intros [= <- <-] _. get_ranges. unfold cont.
    rewrite land_31, land_63, lor_shiftl_add by first [lia | apply Z.mod_pos_bound; lia].
    set (x := b0 mod 32 * 2 ^ 6 + b1 mod 64).
    assert (Hx : x = (b0 - 192) * 64 + (b1 - 128)) by (unfold x; solve_arith).
    split; [solve_arith|]. split; [apply valid_rune_true; lia|]. split; [|cbn; lia].
    unfold encode_rune. rewrite (proj2 (Z.ltb_ge x 128)), (proj2 (Z.ltb_lt x 2048)) by lia.
    rewrite land_63, Z.shiftr_div_pow2, lor_192, lor_128 by solve_arith.
    cbn [take]. f_equal; [|f_equal]; apply byte_of_Z_eq; fold b0 b1; solve_arith. }
  destruct (in_range 224 239 b0) eqn:R3.
  { destruct rest as [|c1 [|c2 rest]]; [failed_rune..|]. cbn [map].
    pose proof (Z_of_byte_range c1) as Hr1. set (b1 := Z_of_byte c1) in *.
    pose proof (Z_of_byte_range c2) as Hr2. set (b2 := Z_of_byte c2) in *.
    match goal with |- context [in_range ?lo ?hi b1 && _] =>
      destruct (in_range lo hi b1 && in_range 128 191 b2) eqn:R; [|failed_rune] end.
    intros [= <- <-] _. unfold cont.
    rewrite land_15, !land_63, lor3 by (apply Z.mod_pos_bound; lia).
    set (x := b0 mod 16 * 4096 + b1 mod 64 * 64 + b2 mod 64).
    assert (Hx : x = (b0 - 224) * 4096 + (b1 - 128) * 64 + (b2 - 128) /\
                 128 <= b1 <= 191 /\ 128 <= b2 <= 191 /\ 224 <= b0 <= 239 /\
                 (b0 = 224 -> 160 <= b1) /\ (b0 = 237 -> b1 <= 159)).
    { destruct (Z.eqb_spec b0 224), (Z.eqb_spec b0 237); get_ranges;
        (split; [unfold x; solve_arith|lia]). }
    destruct Hx as (Hx & ? & ? & ? & ? & ?). clear R R2 R3.
    assert (2048 <= x < 65536) by lia.
    split; [pow_consts; lia|]. split; [apply valid_rune_true; lia|]. split; [|cbn; lia].
    unfold encode_rune.
    rewrite (proj2 (Z.ltb_ge x 128)), (proj2 (Z.ltb_ge x 2048)), (proj2 (Z.ltb_lt x 65536))
      by lia.
    rewrite !land_63, !Z.shiftr_div_pow2, lor_224, !lor_128 by solve_arith.
    cbn [take]. f_equal; [|f_equal; [|f_equal]]; apply byte_of_Z_eq; fold b0 b1 b2;
      solve_arith. }
  destruct (in_range 240 244 b0) eqn:R4; [|failed_rune].
  destruct rest as [|c1 [|c2 [|c3 rest]]]; [failed_rune..|]. cbn [map].
  pose proof (Z_of_byte_range c1) as Hr1. set (b1 := Z_of_byte c1) in *.
  pose proof (Z_of_byte_range c2) as Hr2. set (b2 := Z_of_byte c2) in *.
  pose proof (Z_of_byte_range c3) as Hr3. set (b3 := Z_of_byte c3) in *.
  match goal with |- context [in_range ?lo ?hi b1 && _ && _] =>
    destruct (in_range lo hi b1 && in_range 128 191 b2 && in_range 128 191 b3) eqn:R;
      [|failed_rune] end.
  intros [= <- <-] _. unfold cont.
  rewrite land_7, !land_63, lor4 by (apply Z.mod_pos_bound; lia).
  set (x := b0 mod 8 * 262144 + b1 mod 64 * 4096 + b2 mod 64 * 64 + b3 mod 64).
  assert (Hx : x = (b0 - 240) * 262144 + (b1 - 128) * 4096 + (b2 - 128) * 64 + (b3 - 128) /\
               128 <= b1 <= 191 /\ 128 <= b2 <= 191 /\ 128 <= b3 <= 191 /\ 240 <= b0 <= 244 /\
               (b0 = 240 -> 144 <= b1) /\ (b0 = 244 -> b1 <= 143)).
  { destruct (Z.eqb_spec b0 240), (Z.eqb_spec b0 244); get_ranges;
      (split; [unfold x; solve_arith|lia]). }
  destruct Hx as (Hx & ? & ? & ? & ? & ? & ?). clear R R2 R3 R4.
  assert (65536 <= x <= 1114111) by lia.
  split; [pow_consts; lia|]. split; [apply valid_rune_true; lia|]. split; [|cbn; lia].
  unfold encode_rune.
  rewrite (proj2 (Z.ltb_ge x 128)), (proj2 (Z.ltb_ge x 2048)), (proj2 (Z.ltb_ge x 65536))
    by lia.
  rewrite !land_63, !Z.shiftr_div_pow2, lor_240, !lor_128 by solve_arith.
  cbn [take]. f_equal; [|f_equal; [|f_equal; [|f_equal]]]; apply byte_of_Z_eq;
    fold b0 b1 b2 b3; solve_arith.
Qed.

(** What [%+q] writes between the quotes denotes the bytes it was given:
    every rune and every byte that is no part of a rune is read back as
    the bytes it came from. *)
Lemma reads_quote_body n :
  forall bs, (length bs <= n)%nat ->
  exists k, reads (quote_body n (map Z_of_byte bs)) bs k.
Proof.
  induction n as [|n IH]; intros bs Hlen.
  { destruct bs; [|cbn in Hlen; lia]. exists 0%nat. apply reads_nil. }
  destruct bs as [|c0 rest]; [exists 0%nat; apply reads_nil|].
  cbn [length] in Hlen. cbn [map quote_body].
  pose proof (Z_of_byte_range c0) as Hr0.
  destruct (Z_of_byte c0 <? 128) eqn:E.
  - apply Z.ltb_lt in E.
    assert ((Nat.eqb 1 1 && (Z_of_byte c0 =? RuneError)) = false) as ->
      by (apply Z.eqb_neq; unfold RuneError; lia).
    destruct (IH rest) as [k Hk]; [lia|]. exists (1 + k)%nat.
    apply (reads_app _ [c0] 1 _ rest k); [by apply reads_ascii|done].
  - apply Z.ltb_ge in E.
    destruct (DecodeRune (Z_of_byte c0 :: map Z_of_byte rest)) as [x w] eqn:Hd.
    destruct (Nat.eqb w 1 && (x =? RuneError)) eqn:Ht.
    + destruct (IH rest) as [k Hk]; [lia|]. exists (1 + k)%nat.
      apply (reads_app _ [c0] 1 _ rest k); [apply reads_hex_escape|done].
    + destruct (decode_valid c0 rest x w E Hd Ht) as (Hx & Hv & Henc & Hw).
      change (Z_of_byte c0 :: map Z_of_byte rest) with (map Z_of_byte (c0 :: rest)).
      rewrite skipn_map.
      destruct (IH (drop w (c0 :: rest))) as [k Hk].
      { rewrite length_drop. cbn [length] in *. lia. }
      exists (1 + k)%nat. rewrite <- (take_drop w (c0 :: rest)) at 2. rewrite <- Henc.
      apply reads_app; [by apply reads_unicode|done].
Qed.

Lemma reads_quoted f bs : stringy f = true -> exists n, reads (quoted f bs) bs n.
Proof.
  destruct f; try done; intros _.
  - exists (length bs). apply reads_quoted_shexx.
  - by apply reads_quote_body.
Qed.

(** X20.  The two string formats, on an input that is not empty: the bytes are
    read back from the literal when the buffer has no spare capacity, and
    nothing is read back when it has, as the last line then ends with a plus
    sign. *)
Theorem string_formats_round_trip (fl : Flags) (buffer : slice) :
  stringy (format fl) = true -> 1 <= step fl ->
  elems buffer <> [] -> len buffer <= capacity buffer ->
  read_back fl buffer
  = if len buffer =? capacity buffer then Some (elems buffer) else None.
Proof.
  intros Hf Hstep Hne Hcap. unfold read_back.
  set (indent := if initOnly fl then String TAB "" else "").
  assert (Hind : indent = "" \/ indent = String TAB "")
    by (unfold indent; destruct (initOnly fl); auto).
  assert (Hlen : 0 < len buffer).
  { unfold len. destruct (elems buffer); [done|]. cbn [length]. lia. }
  destruct (lines_stringy fl indent buffer (fun bs => reads_quoted _ bs Hf) Hf Hstep Hind Hcap
              (S (length (elems buffer))) 0) as (body & ts & -> & Htok & Hop).
  - lia.
  - unfold len. lia.
  - unfold go_bytes, literal. fold indent.
    assert (getParents (format fl) = "()") as -> by (by destruct (format fl)).
    assert (Hall : tokenizes (String "(" (String LF (body +:+ indent +:+ ")"))) false
                     (TLParen :: ts)).
    { apply tokenizes_lparen, tokenizes_LF. exact Htok. }
    change (strip_prefix "[]byte" ("[]byte" +:+ ?x)) with (Some x).
    change (String (nth 0 (list_ascii_of_string "()") " "%char) "" +:+ NL +:+ body +:+ indent
            +:+ String (nth 1 (list_ascii_of_string "()") " "%char) "")
      with (String "(" (String LF (body +:+ indent +:+ ")"))).
    cbv beta iota. rewrite Hall by lia. by rewrite Hop.
Qed.

Lemma string_formats_round_trip_witness :
  read_back (example_flags shex true) (example_buffer "hi!" 0)
  = (if len (example_buffer "hi!" 0) =? capacity (example_buffer "hi!" 0)
     then Some (elems (example_buffer "hi!" 0)) else None) /\
  read_back (example_flags shexx false) (example_buffer "hi!" 1)
  = (if len (example_buffer "hi!" 1) =? capacity (example_buffer "hi!" 1)
     then Some (elems (example_buffer "hi!" 1)) else None).
Proof.
  split.
  - apply (string_formats_round_trip (example_flags shex true) (example_buffer "hi!" 0));
      [reflexivity|vm_compute; discriminate|discriminate|vm_compute; discriminate].
  - apply (string_formats_round_trip (example_flags shexx false) (example_buffer "hi!" 1));
      [reflexivity|vm_compute; discriminate|discriminate|vm_compute; discriminate].
Defined.

(** ** The text that is written *)

Lemma strings_Join_inline {A} (f : A -> string) (l : list A) (sep : string) :
  all_chars is_inline sep = true ->
  (forall x, all_chars is_inline (f x) = true) ->
  all_chars is_inline (strings_Join (map f l) sep) = true.
Proof.
  intros Hsep Hf. induction l as [|x l IH]; [done|].
  destruct l as [|y l]; [apply Hf|].
  change (strings_Join (map f (x :: y :: l)) sep)
    with (f x +:+ sep +:+ strings_Join (map f (y :: l)) sep).
  by rewrite !all_chars_app, Hsep, Hf, IH.
Qed.

Lemma item_inline f b : all_chars is_inline (item f b) = true.
Proof.
  destruct f; destruct b as [[] [] [] [] [] [] [] []]; reflexivity.
Qed.

Lemma hexx_escape_inline b :
  all_chars is_inline (String BACKSLASH (String "x" (hex2 b))) = true.
Proof.
  destruct b as [[] [] [] [] [] [] [] []]; reflexivity.
Qed.

Lemma hex_escape_inline c :
  all_chars is_inline (String BACKSLASH (String "x" (hex_digits 2 (Z_of_byte c)))) = true.
Proof.
  destruct c as [[] [] [] [] [] [] [] []]; reflexivity.
Qed.

Lemma ascii_escape_inline c :
  Z_of_byte c < 128 -> all_chars is_inline (escaped_rune (Z_of_byte c)) = true.
Proof.
  intros Hc.
  destruct c as [[] [] [] [] [] [] [] []];
    first [ exfalso; vm_compute in Hc; discriminate Hc | reflexivity ].
Qed.

Lemma lowerhex_inline d : 0 <= d < 16 -> is_inline (lowerhex d) = true.
Proof.
  intros Hd. destruct d as [|p|p]; [reflexivity| |lia].
  do 4 (destruct p as [p|p|]; try lia; try reflexivity).
Qed.

Lemma hex_digits_inline n x : all_chars is_inline (hex_digits n x) = true.
Proof.
  induction n as [|n IH]; [done|]. cbn [hex_digits all_chars].
  rewrite land_15, lowerhex_inline by (apply Z.mod_pos_bound; lia). done.
Qed.

Lemma unicode_escape_inline x : 128 <= x -> all_chars is_inline (escaped_rune x) = true.
Proof.
  intros Hx. rewrite escaped_rune_high by done.
  destruct (x <? 65536); cbn [all_chars]; by rewrite hex_digits_inline.
Qed.

Lemma quote_body_inline n :
  forall bs, all_chars is_inline (quote_body n (map Z_of_byte bs)) = true.
Proof.
  induction n as [|n IH]; intros bs; [done|].
  destruct bs as [|c0 rest]; [done|]. cbn [map quote_body].
  destruct (Z_of_byte c0 <? 128) eqn:E.
  - apply Z.ltb_lt in E.
    assert ((Nat.eqb 1 1 && (Z_of_byte c0 =? RuneError)) = false) as ->
      by (apply Z.eqb_neq; unfold RuneError; lia).
    rewrite all_chars_app, ascii_escape_inline by done. apply IH.
  - apply Z.ltb_ge in E.
    destruct (DecodeRune (Z_of_byte c0 :: map Z_of_byte rest)) as [x w] eqn:Hd.
    destruct (Nat.eqb w 1 && (x =? RuneError)) eqn:Ht.
    + rewrite all_chars_app, hex_escape_inline. apply IH.
    + destruct (decode_valid c0 rest x w E Hd Ht) as (Hx & _).
      change (Z_of_byte c0 :: map Z_of_byte rest) with (map Z_of_byte (c0 :: rest)).
      rewrite skipn_map, all_chars_app, unicode_escape_inline by lia. apply IH.
Qed.

Lemma getGetLine_inline f chunk : all_chars is_inline (getGetLine f chunk) = true.
Proof.
  destruct f; cbn [getGetLine]; unfold QuoteToASCII; rewrite !all_chars_app; cbn [all_chars];
    rewrite ?all_chars_app; cbn [all_chars].
  - rewrite strings_Join_inline; [done|done|]. apply (item_inline hexx).
  - rewrite strings_Join_inline; [done|done|]. apply (item_inline hex).
  - rewrite strings_Join_inline; [done|done|]. apply (item_inline dec).
  - rewrite strings_Join_inline; [|done|apply hexx_escape_inline].
    by destruct (len chunk =? capacity chunk).
  - rewrite quote_body_inline. by destruct (len chunk =? capacity chunk).
Qed.

Lemma inline_text s : all_chars is_inline s = true -> all_chars is_text s = true.
Proof.
  induction s as [|c s IH]; [done|]. cbn [all_chars]. intros [Hc Hs]%andb_prop.
  rewrite IH by done. unfold is_inline in Hc. unfold is_text.
  apply orb_prop in Hc as [-> | ->]; [done|]. by rewrite orb_true_r.
Qed.

Lemma inline_no_LF s : all_chars is_inline s = true -> count_LF s = 0.
Proof.
  induction s as [|c s IH]; [done|]. cbn [all_chars count_LF]. intros [Hc Hs]%andb_prop.
  rewrite IH by done. destruct (Ascii.eqb_spec c LF) as [->|_]; [done|done].
Qed.

Lemma count_LF_app a b : count_LF (a +:+ b) = count_LF a + count_LF b.
Proof.
  induction a as [|c a IH]; [done|]. cbn [String.append count_LF]. rewrite IH. lia.
Qed.

Lemma lines_text fl indent buffer fuel :
  all_chars is_text indent = true ->
  forall i body, lines fuel fl indent buffer i = Done body -> all_chars is_text body = true.
Proof.
  intros Hind. induction fuel as [|fuel IH]; intros i body; cbn [lines].
  - destruct (i <? len buffer); [done|]. by intros [= <-].
  - destruct (i <? len buffer); [|by intros [= <-]].
    destruct ((i <? 0) || (min (i + step fl) (len buffer) <? i)); [done|].
    destruct (lines fuel fl indent buffer (i + step fl)) as [rest| |] eqn:Hr; [|done..].
    intros [= <-].
    repeat (rewrite ?all_chars_app; cbn [all_chars]).
    by rewrite Hind, (inline_text _ (getGetLine_inline _ _)), (IH _ _ Hr).
Qed.

(** X21.  Whatever the bytes of the input and whatever the format, the text
    that the generator writes is plain: when the names of the package and of
    the variable are made of printable characters of ASCII, so is all of the
    text, up to tabs and line feeds. *)
Theorem main_writes_plain_text (fl : Flags) (buffer : slice) (fuel : nat) (out : string) :
  all_chars is_text (packageName fl) = true ->
  all_chars is_text (varName fl) = true ->
  main fuel fl buffer = Done out ->
  all_chars is_text out = true.
Proof.
  intros Hp Hv. unfold main.
  destruct (lines fuel fl _ buffer 0) as [body| |] eqn:Hl; [|done..]. intros [= <-].
  apply lines_text in Hl; [|by destruct (initOnly fl)].
  unfold header, literal, footer.
  repeat (rewrite ?all_chars_app; cbn [all_chars]). rewrite Hp, Hv, Hl.
  by destruct (initOnly fl), (format fl).
Qed.

Lemma main_writes_plain_text_witness :
  exists out,
    main 5 (example_flags shex true) (example_buffer "h" 0) = Done out /\
    all_chars is_text out = true.
Proof.
  eexists. split; [vm_compute; reflexivity|].
  apply (main_writes_plain_text (example_flags shex true) (example_buffer "h" 0) 5);
    [reflexivity|reflexivity|vm_compute; reflexivity].
Defined.

(** ** The number of the lines *)

Lemma lines_count fl indent buffer :
  1 <= step fl -> all_chars is_inline indent = true ->
  forall fuel i, 0 <= i -> (Z.to_nat (len buffer - i) <= fuel)%nat ->
  exists body,
    lines fuel fl indent buffer i = Done body /\
    count_LF body = (Z.max 0 (len buffer - i) + step fl - 1) / step fl.
Proof.
  intros Hstep Hind. induction fuel as [|fuel IH]; intros i Hi Hfuel.
  - exists "". cbn [lines]. rewrite (proj2 (Z.ltb_ge _ _)) by lia. split; [done|].
    cbn [count_LF]. symmetry. apply Z.div_small. lia.
  - cbn [lines]. destruct (Z.ltb_spec i (len buffer)) as [Hlt|Hge].
    2:{ exists "". split; [done|]. cbn [count_LF]. symmetry. apply Z.div_small. lia. }
    assert (Hto : i <= min (i + step fl) (len buffer))
      by (unfold min; destruct (Z.ltb_spec (i + step fl) (len buffer)); lia).
    rewrite (proj2 (Z.ltb_ge i 0)), (proj2 (Z.ltb_ge _ i)) by lia. cbn [orb].
    destruct (IH (i + step fl)) as (rest & -> & Hrest); [lia|lia|].
    eexists. split; [done|].
    rewrite !count_LF_app, Hrest, (inline_no_LF indent), (inline_no_LF (getGetLine _ _))
      by (done || apply getGetLine_inline).
    change (count_LF " ") with 0. change (count_LF NL) with 1.
    destruct (Z.max_spec 0 (len buffer - i)) as [[_ ->]|[? _]]; [|lia].
    destruct (Z.max_spec 0 (len buffer - (i + step fl))) as [[_ ->]|[? ->]].
    + replace (len buffer - i + step fl - 1)
        with (len buffer - (i + step fl) + step fl - 1 + 1 * step fl) by lia.
      rewrite Z.div_add by lia. lia.
    + rewrite (Z.div_small (0 + step fl - 1)) by lia.
      rewrite <- (Z.div_unique (len buffer - i + step fl - 1) (step fl) 1 (len buffer - i - 1))
        by lia.
      lia.
Qed.

(** X22.  With at least one byte per line the generator ends on every input,
    and the literal has one line for each chunk of [step] bytes: the number of
    the bytes divided by [step], rounded up. *)
Theorem main_line_count (fl : Flags) (buffer : slice) (fuel : nat) :
  1 <= step fl -> (length (elems buffer) <= fuel)%nat ->
  exists body,
    main fuel fl buffer = Done (header fl +:+ literal fl body +:+ footer fl) /\
    count_LF body = (len buffer + step fl - 1) / step fl.
Proof.
  intros Hstep Hfuel.
  destruct (lines_count fl (if initOnly fl then String TAB "" else "") buffer Hstep
              ltac:(by destruct (initOnly fl)) fuel 0) as (body & Hbody & Hcount).
  - lia.
  - unfold len. lia.
  - exists body. unfold main. rewrite Hbody. split; [done|].
    rewrite Hcount. f_equal. unfold len. lia.
Qed.

Lemma main_line_count_witness :
  exists body,
    main 3 (example_flags shexx false) (example_buffer "hi!" 0)
    = Done (header (example_flags shexx false) +:+ literal (example_flags shexx false) body
            +:+ footer (example_flags shexx false)) /\
    count_LF body = (len (example_buffer "hi!" 0) + step (example_flags shexx false) - 1)
                    / step (example_flags shexx false).
Proof.
  apply (main_line_count (example_flags shexx false) (example_buffer "hi!" 0) 3);
    [discriminate|vm_compute; lia].
Defined.

End GobinMore.
